(** * File explorer: a shallow embedding of [main.cpp] and its properties

    The program is a console front end over a handful of libc calls
    ([opendir]/[readdir], [lstat], [fopen], [remove], [chdir], [getcwd]).
    The embedding has three layers:

    - the data the calls exchange ([errno], [dirent], [stat], mode bits);
    - the program's functions, written against an interface [Kernel] of the
      calls and threading a process state (kernel state, the two console
      streams, the trace of calls made);
    - [MemFS], an in-memory instance of the interface that follows the
      Linux behaviour of the calls, used where a property depends on what
      the operating system answers. *)

From Stdlib Require Import ZArith String Ascii List Lia Wellfounded.
From Stdlib Require Import Sorting.Sorted Sorting.Permutation.
From Stdlib Require OrderedTypeEx.
From stdpp Require Import gmap strings list sorting pretty.

Open Scope string_scope.
Open Scope Z_scope.
Open Scope list_scope.

(** ** Data exchanged with the operating system *)

Module Errno.

(** The error numbers the modelled calls can leave in [errno]. *)
Inductive errno : Set :=
| EPERM | ENOENT | EACCES | EBUSY | EEXIST | ENOTDIR | EISDIR
| EINVAL | ERANGE | ENOTEMPTY | ELOOP | ENAMETOOLONG.

Definition errno_eqb (a b : errno) : bool :=
  match a, b with
  | EPERM, EPERM | ENOENT, ENOENT | EACCES, EACCES | EBUSY, EBUSY
  | EEXIST, EEXIST | ENOTDIR, ENOTDIR | EISDIR, EISDIR
  | EINVAL, EINVAL | ERANGE, ERANGE | ENOTEMPTY, ENOTEMPTY
  | ELOOP, ELOOP | ENAMETOOLONG, ENAMETOOLONG => true
  | _, _ => false
  end.

(** [strerror(3)] as glibc words it. *)
Definition strerror (e : errno) : string :=
  match e with
  | EPERM => "Operation not permitted"
  | ENOENT => "No such file or directory"
  | EACCES => "Permission denied"
  | EBUSY => "Device or resource busy"
  | EEXIST => "File exists"
  | ENOTDIR => "Not a directory"
  | EISDIR => "Is a directory"
  | EINVAL => "Invalid argument"
  | ERANGE => "Numerical result out of range"
  | ENOTEMPTY => "Directory not empty"
  | ELOOP => "Too many levels of symbolic links"
  | ENAMETOOLONG => "File name too long"
  end.

End Errno.
Export Errno.

(** The [d_type] hint of a [struct dirent] (<dirent.h>). *)
Inductive dtype : Set :=
| DT_UNKNOWN | DT_FIFO | DT_CHR | DT_DIR | DT_BLK | DT_REG | DT_LNK | DT_SOCK.

Definition dtype_eqb (a b : dtype) : bool :=
  match a, b with
  | DT_UNKNOWN, DT_UNKNOWN | DT_FIFO, DT_FIFO | DT_CHR, DT_CHR
  | DT_DIR, DT_DIR | DT_BLK, DT_BLK | DT_REG, DT_REG | DT_LNK, DT_LNK
  | DT_SOCK, DT_SOCK => true
  | _, _ => false
  end.

(** The two fields of [struct dirent] the program reads. *)
Record dirent : Set := Dirent { d_name : string; d_type : dtype }.

(** The fields of [struct stat] the program reads. *)
Record stat : Set := Stat {
  st_mode : Z;
  st_uid : Z;
  st_gid : Z;
  st_size : Z;
  st_mtime : Z
}.

(** Mode bits of <sys/stat.h>, with their Linux values (octal 0170000,
    0040000, ... 0001); the permission bits are the ones POSIX fixes. *)
Module SysStat.

Definition S_IFMT : Z := 61440.
Definition S_IFLNK : Z := 40960.
Definition S_IFREG : Z := 32768.
Definition S_IFDIR : Z := 16384.

Definition S_IRUSR : Z := 256.
Definition S_IWUSR : Z := 128.
Definition S_IXUSR : Z := 64.
Definition S_IRGRP : Z := 32.
Definition S_IWGRP : Z := 16.
Definition S_IXGRP : Z := 8.
Definition S_IROTH : Z := 4.
Definition S_IWOTH : Z := 2.
Definition S_IXOTH : Z := 1.

Definition S_ISDIR (mode : Z) : bool := Z.land mode S_IFMT =? S_IFDIR.
Definition S_ISLNK (mode : Z) : bool := Z.land mode S_IFMT =? S_IFLNK.

(** The C test [if (mode & mask)]. *)
Definition has_bits (mode mask : Z) : bool := negb (Z.land mode mask =? 0).

End SysStat.
Export SysStat.

(** ** Strings as the program uses them *)

(** [std::string(n, c)]. *)
Fixpoint string_fill (n : nat) (c : ascii) : string :=
  match n with
  | O => EmptyString
  | S n' => String c (string_fill n' c)
  end.

(** [s[i] = c] on a [std::string]; the program only writes inside the
    string, outside it the model leaves the string as it is. *)
Fixpoint string_set (s : string) (i : nat) (c : ascii) : string :=
  match s, i with
  | EmptyString, _ => EmptyString
  | String _ s', O => String c s'
  | String a s', S i' => String a (string_set s' i' c)
  end.

(** The line feed the program writes as ["\n"]. *)
Definition nl : string := String "010"%char EmptyString.

(** [cout << left << setw(w) << s]: pad on the right up to width [w]. *)
Definition setw_left (w : nat) (s : string) : string :=
  s +:+ string_fill (w - String.length s) " ".

(** [operator<] of [std::string]: bytes compared as unsigned values, a
    proper prefix before the longer string. *)
Definition string_lt (a b : string) : Prop := String.ltb a b = true.
Definition string_le (a b : string) : Prop := String.leb a b = true.

#[global] Instance string_le_dec : RelDecision string_le :=
  fun a b => decide (String.leb a b = true).

(** ** [formatPermissions] *)

Definition formatPermissions (mode : Z) : string :=
  let perms := "----------" in
  let perms :=
    if S_ISDIR mode then string_set perms 0 "d"
    else if S_ISLNK mode then string_set perms 0 "l"
    else string_set perms 0 "-" in
  let perms := if has_bits mode S_IRUSR then string_set perms 1 "r" else perms in
  let perms := if has_bits mode S_IWUSR then string_set perms 2 "w" else perms in
  let perms := if has_bits mode S_IXUSR then string_set perms 3 "x" else perms in
  let perms := if has_bits mode S_IRGRP then string_set perms 4 "r" else perms in
  let perms := if has_bits mode S_IWGRP then string_set perms 5 "w" else perms in
  let perms := if has_bits mode S_IXGRP then string_set perms 6 "x" else perms in
  let perms := if has_bits mode S_IROTH then string_set perms 7 "r" else perms in
  let perms := if has_bits mode S_IWOTH then string_set perms 8 "w" else perms in
  let perms := if has_bits mode S_IXOTH then string_set perms 9 "x" else perms in
  perms.

(** ** The calls the program makes, as an interface

    [W] is the state of the operating system as one process sees it (file
    tree, working directory, user database, clock).  A failing call gives
    the value it leaves in [errno]; a call that changes the system gives
    the new state. *)

Class Kernel (W : Type) : Type := {
  (** [opendir(path)] and the entries the successive [readdir] calls on
      the stream yield until they return a null pointer, in that order. *)
  sys_opendir : W -> string -> errno + list dirent;
  (** [lstat(path, &st)]. *)
  sys_lstat : W -> string -> errno + stat;
  (** [fopen(path, "wx")]: create exclusively, open for writing. *)
  sys_fopen_wx : W -> string -> errno + W;
  (** [remove(path)]. *)
  sys_remove : W -> string -> errno + W;
  (** [chdir(path)]. *)
  sys_chdir : W -> string -> errno + W;
  (** [getcwd(buf, size)]: the text written to [buf]. *)
  sys_getcwd : W -> nat -> errno + string;
  (** [getpwuid(uid)->pw_name] and [getgrgid(gid)->gr_name]. *)
  sys_getpwuid : W -> Z -> option string;
  sys_getgrgid : W -> Z -> option string;
  (** [localtime] followed by [strftime] with ["%Y-%m-%d %H:%M:%S"]. *)
  sys_strftime : W -> Z -> string
}.

(** One record per call that names a path or a buffer. *)
Inductive syscall : Set :=
| Opendir (path : string)
| Lstat (path : string)
| Fopen (path mode : string)
| Remove (path : string)
| Chdir (path : string)
| Getcwd (size : nat).

(** ** Process state *)

Section Program.

Context {W : Type} `{Kernel W}.

Record proc : Type := Proc {
  world : W;                (* the operating system *)
  cout : list string;       (* standard output, one item per statement *)
  cerr : list string;       (* standard error, one item per statement *)
  calls : list syscall;     (* calls made so far, oldest first *)
  garbage : string          (* what an uninitialised char buffer holds *)
}.

Definition print_out (s : string) (p : proc) : proc :=
  Proc (world p) (cout p ++ [s]) (cerr p) (calls p) (garbage p).

Definition print_err (s : string) (p : proc) : proc :=
  Proc (world p) (cout p) (cerr p ++ [s]) (calls p) (garbage p).

Definition call (c : syscall) (p : proc) : proc :=
  Proc (world p) (cout p) (cerr p) (calls p ++ [c]) (garbage p).

Definition set_world (w : W) (p : proc) : proc :=
  Proc w (cout p) (cerr p) (calls p) (garbage p).

Definition is_dot (name : string) : bool :=
  String.eqb name "." || String.eqb name "..".

(** *** [showFileDetails] *)

Definition showFileDetails (path name : string) (p : proc) : proc :=
  let full := path +:+ "/" +:+ name in
  let p := call (Lstat full) p in
  match sys_lstat (world p) full with
  | inl e =>
      print_err ("  [stat error] " +:+ name +:+ " : " +:+ strerror e +:+ nl) p
  | inr st =>
      let perms := formatPermissions (st_mode st) in
      let owner :=
        match sys_getpwuid (world p) (st_uid st) with
        | Some pw_name => pw_name
        | None => pretty (st_uid st)
        end in
      let group :=
        match sys_getgrgid (world p) (st_gid st) with
        | Some gr_name => gr_name
        | None => pretty (st_gid st)
        end in
      let timebuf := sys_strftime (world p) (st_mtime st) in
      print_out (setw_left 12 perms +:+ setw_left 8 owner
                 +:+ setw_left 8 group +:+ setw_left 10 (pretty (st_size st))
                 +:+ setw_left 20 timebuf +:+ " " +:+ name +:+ nl) p
  end.

(** *** [listFiles] *)

(** The [while ((entry = readdir(dir)) != nullptr)] loop of [listFiles]:
    [dir] is what is left of the stream, [names] the vector so far. *)
Fixpoint read_names (dir : list dirent) (names : list string) : list string :=
  match dir with
  | [] => names
  | entry :: dir' =>
      if is_dot (d_name entry) then read_names dir' names
      else read_names dir' (names ++ [d_name entry])
  end.

(** [std::sort(names.begin(), names.end())].  The library's algorithm is
    not part of the program; its contract is a permutation in ascending
    order, which [sort_names_unique] shows leaves one possible result. *)
Definition sort_names (names : list string) : list string :=
  merge_sort string_le names.

Definition list_header : string :=
  setw_left 12 "PERMISSIONS" +:+ setw_left 8 "OWNER" +:+ setw_left 8 "GROUP"
  +:+ setw_left 10 "SIZE" +:+ setw_left 20 "MODIFIED" +:+ " NAME" +:+ nl.

Definition name_line (name : string) : string := "  - " +:+ name +:+ nl.

Definition listFiles (path : string) (detailed : bool) (p : proc) : proc :=
  let p := call (Opendir path) p in
  match sys_opendir (world p) path with
  | inl e =>
      print_err ("opendir failed for " +:+ path +:+ " : " +:+ strerror e +:+ nl) p
  | inr dir =>
      let p :=
        if detailed
        then print_out (string_fill 80 "-" +:+ nl) (print_out list_header p)
        else print_out (nl +:+ "Contents of " +:+ path +:+ ":" +:+ nl) p in
      let names := read_names dir [] in
      let names := sort_names names in
      fold_left
        (fun p name =>
           if detailed then showFileDetails path name p
           else print_out (name_line name) p)
        names p
  end.

(** *** [createFile] *)

Definition createFile (name : string) (p : proc) : proc :=
  let p := call (Fopen name "wx") p in
  match sys_fopen_wx (world p) name with
  | inl e =>
      if errno_eqb e EEXIST
      then print_out ("File already exists: " +:+ name +:+ nl) p
      else print_err ("fopen failed: " +:+ strerror e +:+ nl) p
  | inr w' =>
      print_out ("File created: " +:+ name +:+ nl) (set_world w' p)
  end.

(** *** [deleteFile] *)

Definition deleteFile (name : string) (p : proc) : proc :=
  let p := call (Remove name) p in
  match sys_remove (world p) name with
  | inr w' => print_out ("Deleted: " +:+ name +:+ nl) (set_world w' p)
  | inl e => print_err ("remove failed: " +:+ strerror e +:+ nl) p
  end.

(** *** [changeDirectory] *)

(** The result of [getcwd] is not tested: when the call fails, [buf] is
    printed as it was left, uninitialised. *)
Definition changeDirectory (path : string) (p : proc) : proc :=
  let p := call (Chdir path) p in
  match sys_chdir (world p) path with
  | inr w' =>
      let p := call (Getcwd 512) (set_world w' p) in
      let buf :=
        match sys_getcwd (world p) 512 with
        | inr text => text
        | inl _ => garbage p
        end in
      print_out ("Changed directory to: " +:+ buf +:+ nl) p
  | inl e => print_err ("chdir failed: " +:+ strerror e +:+ nl) p
  end.

(** *** [searchFile] *)

(** The body of the [readdir] loop of [searchFile] for one entry;
    [recurse] is the recursive call. *)
Definition search_entry (recurse : string -> string -> proc -> option proc)
    (dirname target : string) (entry : dirent) (p : proc) : option proc :=
  let name := d_name entry in
  if is_dot name then Some p
  else
    let full := dirname +:+ "/" +:+ name in
    if dtype_eqb (d_type entry) DT_DIR then recurse full target p
    else if String.eqb name target
         then Some (print_out ("Found: " +:+ full +:+ nl) p)
         else Some p.

(** The loop itself, over what is left of the stream. *)
Fixpoint readdir_loop (body : dirent -> proc -> option proc)
    (dir : list dirent) (p : proc) : option proc :=
  match dir with
  | [] => Some p
  | entry :: dir' =>
      match body entry p with
      | Some p' => readdir_loop body dir' p'
      | None => None
      end
  end.

(** The recursion of the source has no bound of its own: [fuel] bounds
    the depth of the calls, and [None] stands for a run that needs more. *)
Fixpoint searchFile (fuel : nat) (dirname target : string) (p : proc)
    : option proc :=
  match fuel with
  | O => None
  | S fuel' =>
      let p := call (Opendir dirname) p in
      match sys_opendir (world p) dirname with
      | inl _ => Some p
      | inr dir =>
          readdir_loop (search_entry (searchFile fuel') dirname target) dir p
      end
  end.

End Program.

Arguments proc W : clear implicits.

(** ** [MemFS]: the calls over an in-memory file tree

    The model follows what Linux and glibc do for the calls of [Kernel].
    Path resolution walks the components from the root or the working
    directory, needs search permission on every directory it looks a name
    up in, follows symbolic links (at most [MAXSYMLINKS]), treats ["."]
    and [".."], and refuses names over [NAME_MAX] and paths over
    [PATH_MAX].  [opendir] needs read permission on the directory and
    [chdir] search permission; creating and removing an entry need write
    permission on the directory that holds it and set its modification
    time.  [remove] is [unlink] for anything but a directory and [rmdir]
    for a directory; [fopen] with ["wx"] is [open] with [O_CREAT|O_EXCL].

    One process runs, with an effective user and group and no
    supplementary groups; user 0 is the superuser.  The file system is
    writable and has room, files have no attributes beyond their mode
    (none is immutable or append-only), and the limit on open descriptors
    is above the depth a path of [PATH_MAX] bytes can reach.  A directory
    is known by its path: when the working directory itself has been
    removed, a name looked up from it is not found, as on Linux, but the
    directory is not kept as a place of its own. *)

Module MemFS.

Record meta : Set := Meta { m_perm : Z; m_uid : Z; m_gid : Z; m_mtime : Z }.

Inductive node : Set :=
| Reg (m : meta) (data : string)
| Lnk (m : meta) (target : string)
| Dir (m : meta).

Definition meta_of (n : node) : meta :=
  match n with
  | Reg m _ => m
  | Lnk m _ => m
  | Dir m => m
  end.

(** Files are keyed by their absolute path, as the list of its
    components; the root directory [[]] is always there. *)
Record fsys : Type := Fsys {
  files : gmap (list string) node;
  cwd : list string;
  euid : Z;
  egid : Z;
  umask : Z;
  now : Z;
  passwd : gmap Z string;
  group : gmap Z string;
  localtime_text : Z -> string
}.

(** The root directory as it is when the table does not list it: mode
    0755 (493), owned by the superuser. *)
Definition root_meta : meta := Meta 493 0 0 0.

Definition node_at (fs : gmap (list string) node) (p : list string)
    : option node :=
  match fs !! p with
  | Some n => Some n
  | None =>
      match p with
      | [] => Some (Dir root_meta)
      | _ => None
      end
  end.

(** *** Permissions *)

(** The process, as far as permissions go. *)
Record cred : Set := Cred { c_uid : Z; c_gid : Z }.

Definition cred_of (fs : fsys) : cred := Cred (euid fs) (egid fs).

(** The three permission bits that apply: the owner's when the process
    owns the file, else the group's when the file's group is that of the
    process, else the others'. *)
Definition class_bits (who : cred) (m : meta) : Z :=
  if c_uid who =? m_uid m then Z.shiftr (m_perm m) 6
  else if c_gid who =? m_gid m then Z.shiftr (m_perm m) 3
  else m_perm m.

(** [want] is a mask of 4 (read), 2 (write) and 1 (search).  The
    superuser is refused nothing on a directory. *)
Definition permitted (who : cred) (m : meta) (want : Z) : bool :=
  (c_uid who =? 0) || (Z.land (class_bits who m) want =? want).

(** Looking a name up in [d] needs search permission on [d]. *)
Definition searchable (who : cred) (fs : gmap (list string) node)
    (d : list string) : bool :=
  match node_at fs d with
  | Some (Dir m) => permitted who m 1
  | _ => true
  end.

(** The sticky bit (octal 1000) of a directory: an entry is removed only
    by the owner of the entry, the owner of the directory or the
    superuser. *)
Definition may_unlink (who : cred) (dm : meta) (victim : node) : bool :=
  negb (has_bits (m_perm dm) 512)
  || (c_uid who =? 0)
  || (c_uid who =? m_uid (meta_of victim))
  || (c_uid who =? m_uid dm).

(** *** Paths *)

Definition NAME_MAX : Z := 255.
Definition PATH_MAX : Z := 4096.

Definition name_too_long (c : string) : bool :=
  NAME_MAX <? Z.of_nat (String.length c).

(** [PATH_MAX] counts the terminating zero byte. *)
Definition path_too_long (path : string) : bool :=
  PATH_MAX <=? Z.of_nat (String.length path).

Fixpoint split_slash (s : string) : list string :=
  match s with
  | EmptyString => [EmptyString]
  | String c s' =>
      if Ascii.eqb c "/" then EmptyString :: split_slash s'
      else match split_slash s' with
           | [] => [String c EmptyString]
           | x :: xs => String c x :: xs
           end
  end.

Definition components (path : string) : list string :=
  List.filter (fun c => negb (String.eqb c "")) (split_slash path).

Definition is_absolute (path : string) : bool :=
  match path with
  | String c _ => Ascii.eqb c "/"
  | EmptyString => false
  end.

Fixpoint ends_slash (path : string) : bool :=
  match path with
  | EmptyString => false
  | String c EmptyString => Ascii.eqb c "/"
  | String _ rest => ends_slash rest
  end.

Definition MAXSYMLINKS : nat := 40.

(** Walk [todo] from the directory [cur]; every component has to lead to
    a directory.  The result is the path of the directory reached, free
    of links, ["."] and [".."]. *)
Fixpoint walk (links : nat) (who : cred) (fs : gmap (list string) node)
    : list string -> list string -> errno + list string :=
  fix go (cur todo : list string) {struct todo} : errno + list string :=
    match todo with
    | [] => inr cur
    | c :: rest =>
        if negb (searchable who fs cur) then inl EACCES
        else if name_too_long c then inl ENAMETOOLONG
        else if String.eqb c "." then go cur rest
        else if String.eqb c ".." then go (removelast cur) rest
        else
          match node_at fs (cur ++ [c]) with
          | None => inl ENOENT
          | Some (Reg _ _) => inl ENOTDIR
          | Some (Dir _) => go (cur ++ [c]) rest
          | Some (Lnk _ target) =>
              match links with
              | O => inl ELOOP
              | S links' =>
                  if String.eqb target "" then inl ENOENT
                  else walk links' who fs
                         (if is_absolute target then [] else cur)
                         (components target ++ rest)
              end
          end
    end.

Definition start (fs : fsys) (path : string) : list string :=
  if is_absolute path then [] else cwd fs.

(** A path that has to name a directory ([opendir], [chdir]). *)
Definition resolve_dir (fs : fsys) (path : string) : errno + list string :=
  if String.eqb path "" then inl ENOENT
  else if path_too_long path then inl ENAMETOOLONG
  else
    match walk MAXSYMLINKS (cred_of fs) (files fs) (start fs path)
            (components path) with
    | inl e => inl e
    | inr d =>
        match node_at (files fs) d with
        | Some (Dir _) => inr d
        | _ => inl ENOENT
        end
    end.

(** A path whose last component is not followed ([lstat], [remove],
    exclusive creation): the directory that holds it and that component,
    [None] when the path is the root. *)
Definition locate (fs : fsys) (path : string)
    : errno + option (list string * string) :=
  if String.eqb path "" then inl ENOENT
  else if path_too_long path then inl ENAMETOOLONG
  else
    match rev (components path) with
    | [] => inr None
    | last :: rinit =>
        match walk MAXSYMLINKS (cred_of fs) (files fs) (start fs path)
                (rev rinit) with
        | inl e => inl e
        | inr d =>
            if negb (searchable (cred_of fs) (files fs) d) then inl EACCES
            else if name_too_long last then inl ENAMETOOLONG
            else inr (Some (d, last))
        end
    end.

(** What a path names when a final symbolic link is not followed; a
    trailing slash asks for the directory behind the name. *)
Definition named (fs : fsys) (path : string) : errno + list string :=
  if ends_slash path then resolve_dir fs path
  else
    match locate fs path with
    | inl e => inl e
    | inr None => inr []
    | inr (Some (d, last)) =>
        inr (if String.eqb last "." then d
             else if String.eqb last ".." then removelast d
             else d ++ [last])
    end.

(** *** Directories *)

(** [child_name d k] is the name under which [k] is an entry of [d]. *)
Fixpoint child_name (d k : list string) : option string :=
  match d, k with
  | [], [name] => Some name
  | x :: d', y :: k' => if String.eqb x y then child_name d' k' else None
  | _, _ => None
  end.

Definition children (fs : gmap (list string) node) (d : list string)
    : list (string * node) :=
  omap (fun kn => match child_name d (fst kn) with
                  | Some name => Some (name, snd kn)
                  | None => None
                  end)
       (map_to_list fs).

Definition dtype_of (n : node) : dtype :=
  match n with
  | Reg _ _ => DT_REG
  | Lnk _ _ => DT_LNK
  | Dir _ => DT_DIR
  end.

(** [opendir] and the stream of [readdir]: ["."], [".."], then the entries
    in the order of the table, each with the type of its node as hint (as
    ext4, btrfs and tmpfs report it). *)
Definition opendir (fs : fsys) (path : string) : errno + list dirent :=
  match resolve_dir fs path with
  | inl e => inl e
  | inr d =>
      match node_at (files fs) d with
      | Some (Dir m) =>
          if permitted (cred_of fs) m 4
          then inr (Dirent "." DT_DIR :: Dirent ".." DT_DIR
                    :: List.map (fun c => Dirent (fst c) (dtype_of (snd c)))
                         (children (files fs) d))
          else inl EACCES
      | _ => inl ENOENT
      end
  end.

(** *** Status *)

Definition stat_of (n : node) : stat :=
  match n with
  | Reg m data =>
      Stat (Z.lor S_IFREG (m_perm m)) (m_uid m) (m_gid m)
           (Z.of_nat (String.length data)) (m_mtime m)
  | Lnk m target =>
      Stat (Z.lor S_IFLNK (m_perm m)) (m_uid m) (m_gid m)
           (Z.of_nat (String.length target)) (m_mtime m)
  | Dir m =>
      Stat (Z.lor S_IFDIR (m_perm m)) (m_uid m) (m_gid m) 4096 (m_mtime m)
  end.

(** [lstat]: the status of what the path names. *)
Definition lstat (fs : fsys) (path : string) : errno + stat :=
  match named fs path with
  | inl e => inl e
  | inr k =>
      match node_at (files fs) k with
      | Some n => inr (stat_of n)
      | None => inl ENOENT
      end
  end.

(** *** Changing the tree *)

Definition set_files (fs : fsys) (f : gmap (list string) node) : fsys :=
  Fsys f (cwd fs) (euid fs) (egid fs) (umask fs) (now fs)
       (passwd fs) (group fs) (localtime_text fs).

Definition set_cwd (fs : fsys) (d : list string) : fsys :=
  Fsys (files fs) d (euid fs) (egid fs) (umask fs) (now fs)
       (passwd fs) (group fs) (localtime_text fs).

(** A directory whose entries change gets the time of the change. *)
Definition touch (d : list string) (t : Z) (fs : gmap (list string) node)
    : gmap (list string) node :=
  match node_at fs d with
  | Some (Dir m) => <[d := Dir (Meta (m_perm m) (m_uid m) (m_gid m) t)]> fs
  | _ => fs
  end.

(** The file [open] creates with mode 0666 (438) less the umask; its
    group is that of the process, or that of the directory when the
    directory has the set-group-id bit (octal 2000). *)
Definition new_file (fs : fsys) (dm : meta) : node :=
  Reg (Meta (Z.land 438 (Z.lnot (umask fs))) (euid fs)
            (if has_bits (m_perm dm) 1024 then m_gid dm else egid fs)
            (now fs))
      "".

(** [fopen(path, "wx")] is [open] with [O_WRONLY|O_CREAT|O_EXCL] and mode
    0666.  Once the directories of the path have been walked, Linux
    answers [EEXIST] when the path is the root or ends in ["."] or [".."],
    [EISDIR] when another last component is followed by a slash, [EEXIST]
    when the last component names anything at all (a directory or a
    dangling link too), [EACCES] when the directory may not be written,
    and creates an empty regular file otherwise.  The stream is closed at
    once by the program, with nothing written. *)
Definition fopen_wx (fs : fsys) (path : string) : errno + fsys :=
  match locate fs path with
  | inl e => inl e
  | inr None => inl EEXIST
  | inr (Some (d, last)) =>
      if String.eqb last "." || String.eqb last ".." then inl EEXIST
      else if ends_slash path then inl EISDIR
      else
        match node_at (files fs) (d ++ [last]) with
        | Some _ => inl EEXIST
        | None =>
            match node_at (files fs) d with
            | Some (Dir dm) =>
                if permitted (cred_of fs) dm 2
                then inr (set_files fs
                            (touch d (now fs)
                               (<[d ++ [last] := new_file fs dm]> (files fs))))
                else inl EACCES
            | _ => inl ENOENT
            end
        end
  end.

(** [remove(path)] as glibc implements it: [unlink(path)], and when that
    fails with [EISDIR], [rmdir(path)].  So a regular file or a symbolic
    link is unlinked, a directory without entries is removed, one with
    entries gives [ENOTEMPTY], ["."] gives [EINVAL] and the root [EBUSY];
    the directory that holds the entry has to be writable, and its sticky
    bit is honoured. *)
Definition remove (fs : fsys) (path : string) : errno + fsys :=
  match locate fs path with
  | inl e => inl e
  | inr None => inl EBUSY
  | inr (Some (d, last)) =>
      if String.eqb last "." then inl EINVAL
      else if String.eqb last ".." then inl ENOTEMPTY
      else
        match node_at (files fs) (d ++ [last]) with
        | None => inl ENOENT
        | Some n =>
            if negb (dtype_eqb (dtype_of n) DT_DIR) && ends_slash path
            then inl ENOTDIR
            else
              match node_at (files fs) d with
              | Some (Dir dm) =>
                  if negb (permitted (cred_of fs) dm 2) then inl EACCES
                  else if negb (may_unlink (cred_of fs) dm n) then inl EPERM
                  else
                    match n, children (files fs) (d ++ [last]) with
                    | Dir _, _ :: _ => inl ENOTEMPTY
                    | _, _ =>
                        inr (set_files fs
                               (touch d (now fs)
                                  (delete (d ++ [last]) (files fs))))
                    end
              | _ => inl ENOENT
              end
        end
  end.

(** *** Working directory *)

(** [chdir(path)]: the working directory becomes the directory the path
    resolves to, which has to be searchable. *)
Definition chdir (fs : fsys) (path : string) : errno + fsys :=
  match resolve_dir fs path with
  | inl e => inl e
  | inr d =>
      if searchable (cred_of fs) (files fs) d then inr (set_cwd fs d)
      else inl EACCES
  end.

Fixpoint abs_path (d : list string) : string :=
  match d with
  | [] => ""
  | c :: d' => "/" +:+ c +:+ abs_path d'
  end.

Definition cwd_text (fs : fsys) : string :=
  match cwd fs with
  | [] => "/"
  | d => abs_path d
  end.

(** [getcwd] needs room for the text and its terminating zero byte. *)
Definition getcwd (fs : fsys) (size : nat) : errno + string :=
  match node_at (files fs) (cwd fs) with
  | Some (Dir _) =>
      if (String.length (cwd_text fs) <? size)%nat then inr (cwd_text fs)
      else inl ERANGE
  | _ => inl ENOENT
  end.

(** *** Names

    No entry is called ["."] or [".."], in the tree and in the path of the
    working directory: the state every run starts from, and one the calls
    keep ([MemFSNames.fopen_wx_well_named] and the like). *)
Definition plain_names (k : list string) : Prop :=
  Forall (fun c => is_dot c = false) k.

#[global] Instance plain_names_dec (k : list string) : Decision (plain_names k) :=
  Forall_dec (fun c => is_dot c = false) k.

Definition well_named (fs : fsys) : Prop :=
  (forall k n, files fs !! k = Some n -> plain_names k)
  /\ plain_names (cwd fs).

#[global] Instance kernel : Kernel fsys := {|
  sys_opendir := opendir;
  sys_lstat := lstat;
  sys_fopen_wx := fopen_wx;
  sys_remove := remove;
  sys_chdir := chdir;
  sys_getcwd := getcwd;
  sys_getpwuid := fun fs uid => passwd fs !! uid;
  sys_getgrgid := fun fs gid => group fs !! gid;
  sys_strftime := localtime_text
|}.

End MemFS.

(** ** The permission string as the specification words it

    Ten characters: one for the type, then one per permission bit from the
    owner's read bit (bit 8) down to the others' execute bit (bit 0). *)

Definition spec_type_char (mode : Z) : ascii :=
  if S_ISDIR mode then "d"%char
  else if S_ISLNK mode then "l"%char
  else "-"%char.

Definition spec_slots : list (Z * ascii) :=
  [(8, "r"%char); (7, "w"%char); (6, "x"%char);
   (5, "r"%char); (4, "w"%char); (3, "x"%char);
   (2, "r"%char); (1, "w"%char); (0, "x"%char)].

Definition spec_slot_char (mode : Z) (slot : Z * ascii) : ascii :=
  if Z.testbit mode (fst slot) then snd slot else "-"%char.

Definition spec_permission_string (mode : Z) : string :=
  String (spec_type_char mode)
         (string_of_list_ascii (List.map (spec_slot_char mode) spec_slots)).

(** ** Standard input

    [cin] as the program uses it: formatted extraction of an [int] and of
    a [std::string], [clear] and [ignore].  The stream is the text still to
    be read and the two state bits the operations set; the behaviour is the
    one the C++ standard and libstdc++ give these operations in the "C"
    locale with the default decimal base. *)

Module Cin.

Record istream : Set := Istream {
  pending : string;         (* what is left of the input *)
  eofbit : bool;
  failbit : bool
}.

Definition good (s : istream) : bool := negb (eofbit s) && negb (failbit s).

(** [isspace] and [isdigit] in the "C" locale. *)
Definition is_space (c : ascii) : bool :=
  let n := nat_of_ascii c in ((9 <=? n) && (n <=? 13) || (n =? 32))%nat.

Definition is_digit (c : ascii) : bool :=
  let n := nat_of_ascii c in ((48 <=? n) && (n <=? 57))%nat.

Definition digit_value (c : ascii) : Z := Z.of_nat (nat_of_ascii c) - 48.

Fixpoint skip_ws (s : string) : string :=
  match s with
  | String c s' => if is_space c then skip_ws s' else s
  | EmptyString => EmptyString
  end.

(** The sentry of a formatted extraction: a stream that is not good fails
    at once; otherwise leading white space is skipped, and the end of the
    input sets both bits. *)
Definition sentry (s : istream) : bool * istream :=
  if good s then
    let rest := skip_ws (pending s) in
    if String.eqb rest "" then (false, Istream "" true true)
    else (true, Istream rest false false)
  else (false, Istream (pending s) (eofbit s) true).

(** The digits at the head of [s], accumulated in base ten, and what
    follows them; [seen] tells whether there was a digit. *)
Fixpoint scan_digits (s : string) (acc : Z) (seen : bool)
    : Z * bool * string :=
  match s with
  | String c s' =>
      if is_digit c then scan_digits s' (10 * acc + digit_value c) true
      else (acc, seen, s)
  | EmptyString => (acc, seen, s)
  end.

Definition INT_MIN : Z := -2147483648.
Definition INT_MAX : Z := 2147483647.

(** [cin >> choice]: an optional sign and decimal digits.  Without a digit,
    or with a value an [int] cannot hold, the extraction fails; reaching
    the end of the input while scanning sets [eofbit]. *)
Definition read_int (s : istream) : option Z * istream :=
  match sentry s with
  | (false, s') => (None, s')
  | (true, s') =>
      let signed :=
        match pending s' with
        | String c r =>
            if Ascii.eqb c "-" then (-1, r)
            else if Ascii.eqb c "+" then (1, r)
            else (1, pending s')
        | EmptyString => (1, EmptyString)
        end in
      match scan_digits (snd signed) 0 false with
      | (magnitude, seen, rest) =>
          let value := fst signed * magnitude in
          let eof := String.eqb rest "" in
          if seen && (INT_MIN <=? value) && (value <=? INT_MAX)
          then (Some value, Istream rest eof false)
          else (None, Istream rest eof true)
      end
  end.

(** The characters up to the next white space, and what follows. *)
Fixpoint scan_word (s : string) : string * string :=
  match s with
  | String c s' =>
      if is_space c then (EmptyString, s)
      else (String c (fst (scan_word s')), snd (scan_word s'))
  | EmptyString => (EmptyString, EmptyString)
  end.

(** [cin >> name] on a string that holds [old]: when the sentry fails the
    string is left as it was. *)
Definition read_word (s : istream) (old : string) : string * istream :=
  match sentry s with
  | (false, s') => (old, s')
  | (true, s') =>
      let word := scan_word (pending s') in
      (fst word,
       Istream (snd word) (String.eqb (snd word) "") (String.eqb (fst word) ""))
  end.

(** The words of the input: not empty, free of white space. *)
Definition is_word (word : string) : Prop :=
  word <> "" /\ forall ch, In ch (list_ascii_of_string word) -> is_space ch = false.

(** A run of white space, possibly empty. *)
Definition all_space (s : string) : Prop :=
  forall ch, In ch (list_ascii_of_string s) -> is_space ch = true.

(** Text that does not go on with a digit. *)
Definition no_digit_first (s : string) : Prop :=
  match s with
  | String c _ => is_digit c = false
  | EmptyString => True
  end.

(** [cin.clear()]. *)
Definition clear (s : istream) : istream := Istream (pending s) false false.

(** Discard at most [n] characters, stopping after the first [delim]; the
    flag tells that the input ended first. *)
Fixpoint ignore_chars (n : N) (delim : ascii) (s : string) : string * bool :=
  match s with
  | String c s' =>
      if (n =? 0)%N then (s, false)
      else if Ascii.eqb c delim then (s', false)
      else ignore_chars (N.pred n) delim s'
  | EmptyString => (EmptyString, negb (n =? 0)%N)
  end.

(** [cin.ignore(n, delim)]. *)
Definition ignore (n : N) (delim : ascii) (s : istream) : istream :=
  if good s then
    let r := ignore_chars n delim (pending s) in
    Istream (fst r) (snd r) false
  else Istream (pending s) (eofbit s) true.

End Cin.

(** ** [main] *)

Section Main.

Context {W : Type} `{Kernel W}.

(** The bytes the source has between the spaces of its title line. *)
Definition title_glyph : string :=
  string_of_list_ascii
    (List.map ascii_of_nat
       [195; 176; 197; 184; 226; 128; 148; 226; 128; 154; 195; 175; 194;
        184]%nat).

Definition banner (p : proc W) : proc W :=
  let p := print_out (string_fill 37 "=" +:+ nl) p in
  let p := print_out (string_fill 8 " " +:+ title_glyph +:+ " File Explorer Tool"
                      +:+ string_fill 9 " " +:+ nl) p in
  print_out (string_fill 37 "=" +:+ nl) p.

(** What one turn of the loop prints before it reads the choice. *)
Definition menu (cwd : string) (p : proc W) : proc W :=
  let p := print_out (nl +:+ "Current Directory: " +:+ cwd +:+ nl) p in
  let p := print_out ("1. List files (names only)" +:+ nl) p in
  let p := print_out
             ("2. List files (detailed -> permissions, owner, size, mtime)"
              +:+ nl) p in
  let p := print_out ("3. Create file" +:+ nl) p in
  let p := print_out ("4. Delete file" +:+ nl) p in
  let p := print_out ("5. Change directory" +:+ nl) p in
  let p := print_out ("6. Search file (recursive)" +:+ nl) p in
  let p := print_out ("7. Exit" +:+ nl) p in
  print_out "Enter choice: " p.

(** The same lines, as the items they add to the output. *)
Definition menu_lines (cwd : string) : list string :=
  [nl +:+ "Current Directory: " +:+ cwd +:+ nl;
   "1. List files (names only)" +:+ nl;
   "2. List files (detailed -> permissions, owner, size, mtime)" +:+ nl;
   "3. Create file" +:+ nl;
   "4. Delete file" +:+ nl;
   "5. Change directory" +:+ nl;
   "6. Search file (recursive)" +:+ nl;
   "7. Exit" +:+ nl;
   "Enter choice: "].

(** How far a run of the loop got: it returned from [main] with a status,
    it is still at the menu after the turns it was given, or a search it
    started needs more depth than it was given. *)
Inductive outcome : Type :=
| Exited (status : Z) (cin : Cin.istream) (p : proc W)
| Running (cin : Cin.istream) (p : proc W)
| Searching.

(** [char cwd[512]; getcwd(cwd, sizeof(cwd));]: as in [changeDirectory],
    the result of the call is not tested. *)
Definition cwd_buffer (p : proc W) : string :=
  match sys_getcwd (world p) 512 with
  | inr text => text
  | inl _ => garbage p
  end.

(** A turn up to the point where the choice is read. *)
Definition prompt (p : proc W) : proc W :=
  let p := call (Getcwd 512) p in
  menu (cwd_buffer p) p.

(** The [while (true)] loop of [main]: [turns] bounds the number of turns
    and [depth] the recursion of a search started from the menu. *)
Fixpoint menu_loop (turns depth : nat) (cin : Cin.istream) (p : proc W)
    : outcome :=
  match turns with
  | O => Running cin p
  | S turns' =>
      let cwd := cwd_buffer (call (Getcwd 512) p) in
      let p := prompt p in
      match Cin.read_int cin with
      | (None, cin) =>
          let cin := Cin.clear cin in
          let cin := Cin.ignore 10000%N "010" cin in
          let p := print_out ("Invalid input" +:+ nl) p in
          menu_loop turns' depth cin p
      | (Some choice, cin) =>
          match choice with
          | 1 => menu_loop turns' depth cin (listFiles cwd false p)
          | 2 => menu_loop turns' depth cin (listFiles cwd true p)
          | 3 =>
              let p := print_out "Enter filename to create: " p in
              let r := Cin.read_word cin "" in
              menu_loop turns' depth (snd r) (createFile (fst r) p)
          | 4 =>
              let p := print_out "Enter filename to delete: " p in
              let r := Cin.read_word cin "" in
              menu_loop turns' depth (snd r) (deleteFile (fst r) p)
          | 5 =>
              let p := print_out
                         "Enter directory to change to (absolute or relative): "
                         p in
              let r := Cin.read_word cin "" in
              menu_loop turns' depth (snd r) (changeDirectory (fst r) p)
          | 6 =>
              let p := print_out "Enter filename to search for (exact name): "
                         p in
              let r := Cin.read_word cin "" in
              let p := print_out
                         ("Searching (this may take time for large trees)..."
                          +:+ nl) p in
              match searchFile depth cwd (fst r) p with
              | Some p' => menu_loop turns' depth (snd r) p'
              | None => Searching
              end
          | 7 => Exited 0 cin (print_out ("Goodbye!" +:+ nl) p)
          | _ =>
              menu_loop turns' depth cin (print_out ("Invalid choice" +:+ nl) p)
          end
      end
  end.

Definition main (turns depth : nat) (cin : Cin.istream) (p : proc W)
    : outcome :=
  menu_loop turns depth cin (banner p).

End Main.

(** ** What a search is expected to report

    Relations over the answers of [opendir] alone, against which the run of
    [searchFile] is compared. *)

Section SearchSpec.

Context {W : Type} `{Kernel W}.

(** The path the program builds for an entry [name] of [dirname]. *)
Definition full_path (dirname name : string) : string :=
  dirname +:+ "/" +:+ name.

Definition found_line (full : string) : string := "Found: " +:+ full +:+ nl.

(** [subdir w d q]: [q] is the path of an entry of [d], other than ["."]
    and [".."], whose type hint is [DT_DIR]. *)
Definition subdir (w : W) (d q : string) : Prop :=
  exists dir entry,
    sys_opendir w d = inr dir /\ In entry dir
    /\ is_dot (d_name entry) = false /\ d_type entry = DT_DIR
    /\ q = full_path d (d_name entry).

(** [hit w target d full]: below [d] there is an entry named [target]
    whose type hint is not [DT_DIR], reached through entries whose hint is
    [DT_DIR]; [full] is its path. *)
Inductive hit (w : W) (target : string) : string -> string -> Prop :=
| hit_here d dir entry :
    sys_opendir w d = inr dir -> In entry dir ->
    is_dot (d_name entry) = false -> d_type entry <> DT_DIR ->
    d_name entry = target ->
    hit w target d (full_path d (d_name entry))
| hit_below d dir entry full :
    sys_opendir w d = inr dir -> In entry dir ->
    is_dot (d_name entry) = false -> d_type entry = DT_DIR ->
    hit w target (full_path d (d_name entry)) full ->
    hit w target d full.

(** What one entry of [dirname] contributes to the matches. *)
Definition hit_entry (w : W) (target dirname : string) (entry : dirent)
    (full : string) : Prop :=
  is_dot (d_name entry) = false
  /\ ((d_type entry <> DT_DIR /\ d_name entry = target
       /\ full = full_path dirname (d_name entry))
      \/ (d_type entry = DT_DIR
          /\ hit w target (full_path dirname (d_name entry)) full)).

(** What the user sees of a process. *)
Definition console (p : proc W) : list string * list string :=
  (cout p, cerr p).

(** [effect w f r]: started in any process over the system [w], [f]
    either needs more fuel ([r = None]) or appends the lines and the
    [opendir] calls of [r] and changes nothing else. *)
Definition effect (w : W) (f : proc W -> option (proc W))
    (r : option (list string * list string)) : Prop :=
  forall p, world p = w ->
    f p = option_map
            (fun r => Proc w (cout p ++ fst r) (cerr p)
                           (calls p ++ List.map Opendir (snd r)) (garbage p))
            r.

(** *** A search, told entry by entry

    [scan w target d lines opened]: the search of [d] opens the
    directories [opened] and reports the paths [lines], both in the order
    of the traversal.  A directory that does not open contributes itself to
    [opened] and nothing else.  Otherwise its entries are taken in the
    order of the stream: ["."] and [".."] are passed over; an entry whose
    hint is [DT_DIR] is searched in turn, at once, and its name is not
    compared; any other entry is reported when it is called like the
    target, and is not opened. *)
Inductive scan (w : W) (target : string)
    : string -> list string -> list string -> Prop :=
| scan_closed d e :
    sys_opendir w d = inl e ->
    scan w target d [] [d]
| scan_open d dir lines opened :
    sys_opendir w d = inr dir ->
    scan_entries w target d dir lines opened ->
    scan w target d lines (d :: opened)
with scan_entries (w : W) (target : string)
    : string -> list dirent -> list string -> list string -> Prop :=
| scan_done d :
    scan_entries w target d [] [] []
| scan_dot d entry rest lines opened :
    is_dot (d_name entry) = true ->
    scan_entries w target d rest lines opened ->
    scan_entries w target d (entry :: rest) lines opened
| scan_dir d entry rest lines1 opened1 lines2 opened2 :
    is_dot (d_name entry) = false ->
    d_type entry = DT_DIR ->
    scan w target (full_path d (d_name entry)) lines1 opened1 ->
    scan_entries w target d rest lines2 opened2 ->
    scan_entries w target d (entry :: rest)
      (lines1 ++ lines2) (opened1 ++ opened2)
| scan_file d entry rest lines opened :
    is_dot (d_name entry) = false ->
    d_type entry <> DT_DIR ->
    scan_entries w target d rest lines opened ->
    scan_entries w target d (entry :: rest)
      ((if String.eqb (d_name entry) target
        then [full_path d (d_name entry)] else []) ++ lines)
      opened.

Scheme scan_both := Minimality for scan Sort Prop
  with scan_entries_both := Minimality for scan_entries Sort Prop.

(** The process after a search that reported [lines] and opened
    [opened]: nothing else has changed. *)
Definition searched (p : proc W) (lines opened : list string) : proc W :=
  Proc (world p) (cout p ++ List.map found_line lines) (cerr p)
       (calls p ++ List.map Opendir opened) (garbage p).

End SearchSpec.

(** ** What a detailed listing is expected to show *)

Section ListSpec.

Context {W : Type} `{Kernel W}.

Definition owner_text (w : W) (st : stat) : string :=
  match sys_getpwuid w (st_uid st) with
  | Some pw_name => pw_name
  | None => pretty (st_uid st)
  end.

Definition group_text (w : W) (st : stat) : string :=
  match sys_getgrgid w (st_gid st) with
  | Some gr_name => gr_name
  | None => pretty (st_gid st)
  end.

(** The row of a file whose status is [st]. *)
Definition detail_row (w : W) (st : stat) (name : string) : string :=
  setw_left 12 (formatPermissions (st_mode st))
  +:+ setw_left 8 (owner_text w st)
  +:+ setw_left 8 (group_text w st)
  +:+ setw_left 10 (pretty (st_size st))
  +:+ setw_left 20 (sys_strftime w (st_mtime st))
  +:+ " " +:+ name +:+ nl.

Definition stat_error_line (name : string) (e : errno) : string :=
  "  [stat error] " +:+ name +:+ " : " +:+ strerror e +:+ nl.

(** The row of [name] in [path], when its status can be read. *)
Definition row_of (w : W) (path name : string) : option string :=
  match sys_lstat w (path +:+ "/" +:+ name) with
  | inr st => Some (detail_row w st name)
  | inl _ => None
  end.

(** The error line of [name] in [path], when its status cannot be read. *)
Definition error_of (w : W) (path name : string) : option string :=
  match sys_lstat w (path +:+ "/" +:+ name) with
  | inr _ => None
  | inl e => Some (stat_error_line name e)
  end.

(** The names a listing of the stream [dir] shows, in the order shown. *)
Definition listed_names (dir : list dirent) : list string :=
  sort_names (List.filter (fun n => negb (is_dot n)) (List.map d_name dir)).

End ListSpec.

(** ** The shape of a [MemFS] tree *)

Module MemFSShape.

Import MemFS.

Fixpoint has_slash (s : string) : bool :=
  match s with
  | EmptyString => false
  | String c s' => Ascii.eqb c "/" || has_slash s'
  end.

(** What the name of an entry can be: not empty, free of slashes, and
    neither ["."] nor [".."]. *)
Definition is_name (c : string) : bool :=
  negb (String.eqb c "") && negb (has_slash c) && negb (is_dot c).

(** Every entry of the tree, and every component of the working
    directory, is such a name: the state every run starts from. *)
Definition tidy (fs : fsys) : Prop :=
  map_Forall (fun k _ => forallb is_name k = true) (files fs)
  /\ forallb is_name (cwd fs) = true.

(** How far [k] lies below [d]. *)
Definition below (d k : list string) : nat :=
  if decide (d `prefix_of` k) then (length k - length d)%nat else O.

(** The height of the tree below [d]. *)
Definition depth_below (f : gmap (list string) node) (d : list string) : nat :=
  list_max (List.map (fun kn => below d (fst kn)) (map_to_list f)).

Definition rank (fs : fsys) (path : string) : nat :=
  match resolve_dir fs path with
  | inr d => depth_below (files fs) d
  | inl _ => O
  end.

(** Two files with the same owner, group and permission bits. *)
Definition same_access (m m' : meta) : Prop :=
  m_perm m = m_perm m' /\ m_uid m = m_uid m' /\ m_gid m = m_gid m'.

(** [keeps f g]: the tree [g] has the directories and the symbolic links
    of [f], with the same permissions and targets, and no directory that
    [f] has not. *)
Definition keeps (f g : gmap (list string) node) : Prop :=
  (forall k m, node_at f k = Some (Dir m) ->
     exists m', node_at g k = Some (Dir m') /\ same_access m m')
  /\ (forall k m t, node_at f k = Some (Lnk m t) ->
        exists m', node_at g k = Some (Lnk m' t))
  /\ (forall k m', node_at g k = Some (Dir m') ->
        exists m, node_at f k = Some (Dir m) /\ same_access m m').

(** [opened_along fs q d cs]: [opendir] opens [q], which resolves to
    [d], and then, one after the other, each directory below it along the
    names [cs], every one of them a directory of the tree. *)
Fixpoint opened_along (fs : fsys) (q : string) (d cs : list string) : Prop :=
  (exists dir, opendir fs q = inr dir)
  /\ resolve_dir fs q = inr d
  /\ match cs with
     | [] => True
     | c :: cs' =>
         (exists m, files fs !! (d ++ [c]) = Some (Dir m))
         /\ opened_along fs (full_path q c) (d ++ [c]) cs'
     end.

End MemFSShape.

(** ** Sample systems *)

Module Examples.

Import MemFS.

Definition file_meta : meta := Meta 420 1000 1000 0.
Definition dir_meta : meta := Meta 493 1000 1000 0.

(** A system of user 1000 with umask 022 (18), one hour after the files
    were last changed. *)
Definition mkfs (l : list (list string * node)) (wd : list string) : fsys :=
  Fsys (list_to_map l) wd 1000 1000 18 3600
       {[1000 := "user"]} {[1000 := "users"]}
       (fun t => if t =? 0 then "1970-01-01 00:00:00"
                 else "1970-01-01 01:00:00").

(** A process that has printed and called nothing yet. *)
Definition boot (w : fsys) : proc fsys := Proc w [] [] [] "<uninitialised>".

(** The tree [root/{a.txt, sub/a.txt, sub/b.txt}] of the specification,
    seen from the directory that holds [root]. *)
Definition spec_tree : fsys :=
  mkfs [(["root"], Dir dir_meta);
        (["root"; "a.txt"], Reg file_meta "");
        (["root"; "sub"], Dir dir_meta);
        (["root"; "sub"; "a.txt"], Reg file_meta "");
        (["root"; "sub"; "b.txt"], Reg file_meta "")] [].

(** A home directory with a directory that may not be read, a symbolic
    link to a directory, an empty directory and a few files. *)
Definition home : fsys :=
  mkfs [(["home"], Dir dir_meta);
        (["home"; "notes.txt"], Reg file_meta "hello");
        (["home"; "vault"], Dir (Meta 0 1000 1000 0));
        (["home"; "vault"; "notes.txt"], Reg file_meta "");
        (["home"; "docs"], Dir dir_meta);
        (["home"; "docs"; "notes.txt"], Reg file_meta "");
        (["home"; "docs"; "Notes.txt"], Reg file_meta "");
        (["home"; "shortcut"], Lnk (Meta 511 1000 1000 0) "docs");
        (["home"; "empty"], Dir dir_meta)] ["home"].

(** What [opendir] yields for the working directory of [home]. *)
Definition home_entries : list dirent :=
  [Dirent "." DT_DIR; Dirent ".." DT_DIR; Dirent "empty" DT_DIR;
   Dirent "notes.txt" DT_REG; Dirent "shortcut" DT_LNK;
   Dirent "vault" DT_DIR; Dirent "docs" DT_DIR].

(** Three nested directories with names of 200 bytes (a name may have up
    to 255), seen from the second. *)
Definition deep : fsys :=
  let a := string_fill 200 "a" in
  let b := string_fill 200 "b" in
  let c := string_fill 200 "c" in
  mkfs [([a], Dir dir_meta); ([a; b], Dir dir_meta);
        ([a; b; c], Dir dir_meta)] [a; b].

(** A directory with links that lead back up: [loop] to the directory
    itself and [top] to the top of the tree. *)
Definition maze : fsys :=
  mkfs [(["maze"], Dir dir_meta);
        (["maze"; "loop"], Lnk (Meta 511 1000 1000 0) ".");
        (["maze"; "inner"], Dir dir_meta);
        (["maze"; "inner"; "top"], Lnk (Meta 511 1000 1000 0) "/maze");
        (["maze"; "inner"; "key"], Reg file_meta "")] ["maze"].

End Examples.

(** ** Proof automation *)

(** Closed statements about a sample system are settled by running the
    model: the conjuncts one at a time, each by evaluation. *)
Ltac evaluate :=
  cbv zeta;
  repeat match goal with |- _ /\ _ => split end;
  vm_compute; try reflexivity.

(** * Properties *)

(** ** [formatPermissions] *)

Lemma has_bits_pow2 (mode k : Z) :
  0 <= k -> has_bits mode (2 ^ k) = Z.testbit mode k.
Proof.
  intros Hk. unfold has_bits.
  destruct (Z.testbit mode k) eqn:Hbit.
  - apply negb_true_iff, Z.eqb_neq. intros Hz.
    assert (Hb : Z.testbit (Z.land mode (2 ^ k)) k = true).
    { rewrite Z.land_spec, Hbit, Z.pow2_bits_true by lia. reflexivity. }
    rewrite Hz, Z.bits_0 in Hb. discriminate.
  - apply negb_false_iff, Z.eqb_eq. apply Z.bits_inj'. intros n Hn.
    rewrite Z.land_spec, Z.bits_0.
    destruct (Z.eq_dec n k) as [->|Hne].
    + rewrite Hbit. reflexivity.
    + rewrite Z.pow2_bits_false by lia. apply andb_false_r.
Qed.

Lemma formatPermissions_spec (mode : Z) :
  formatPermissions mode = spec_permission_string mode.
Proof.
  unfold formatPermissions, spec_permission_string, spec_type_char.
  change S_IRUSR with (2 ^ 8). change S_IWUSR with (2 ^ 7).
  change S_IXUSR with (2 ^ 6). change S_IRGRP with (2 ^ 5).
  change S_IWGRP with (2 ^ 4). change S_IXGRP with (2 ^ 3).
  change S_IROTH with (2 ^ 2). change S_IWOTH with (2 ^ 1).
  change S_IXOTH with (2 ^ 0).
  rewrite !has_bits_pow2 by lia.
  unfold spec_slots, spec_slot_char. cbn [List.map fst snd].
  generalize (Z.testbit mode 8), (Z.testbit mode 7), (Z.testbit mode 6),
    (Z.testbit mode 5), (Z.testbit mode 4), (Z.testbit mode 3),
    (Z.testbit mode 2), (Z.testbit mode 1), (Z.testbit mode 0),
    (S_ISDIR mode), (S_ISLNK mode).
  intros b8 b7 b6 b5 b4 b3 b2 b1 b0 isdir islnk;
  destruct b8, b7, b6, b5, b4, b3, b2, b1, b0, isdir, islnk; reflexivity.
Qed.

Lemma spec_permission_string_length (mode : Z) :
  String.length (spec_permission_string mode) = 10%nat.
Proof. reflexivity. Qed.

(** C8: for every mode value the rendered string is the ten characters
    [<type><rwxrwxrwx>] of the specification: the type character is [d] for
    a directory, [l] for a symbolic link and [-] otherwise, and each of the
    nine positions shows its letter exactly when its bit is set; a regular
    file with bits rwxr-xr-- gives [-rwxr-xr--], a directory with the same
    bits [drwxr-xr--]. *)
Theorem formatPermissions_renders_mode :
  (forall mode : Z,
      formatPermissions mode = spec_permission_string mode
      /\ String.length (formatPermissions mode) = 10%nat
      /\ String.get 0 (formatPermissions mode)
         = Some (if S_ISDIR mode then "d"%char
                 else if S_ISLNK mode then "l"%char else "-"%char)
      /\ forall (i : nat) (bit : Z) (letter : ascii),
           nth_error spec_slots i = Some (bit, letter) ->
           String.get (S i) (formatPermissions mode)
           = Some (if Z.testbit mode bit then letter else "-"%char))
  /\ formatPermissions (Z.lor S_IFREG 492) = "-rwxr-xr--"
  /\ formatPermissions (Z.lor S_IFDIR 492) = "drwxr-xr--".
Proof.
  split; [|split; reflexivity].
  intros mode. rewrite formatPermissions_spec.
  split; [reflexivity|]. split; [reflexivity|]. split; [reflexivity|].
  intros i bit letter Hslot.
  do 9 (destruct i as [|i]; [injection Hslot as <- <-; reflexivity|]).
  destruct i; discriminate.
Qed.

(** C9: the function is total, and whatever the mode value (unknown type
    bits included) its result has ten characters, the first among [d], [l],
    [-], and position [i] from 1 to 9 either the [i]-th letter of
    [rwxrwxrwx] or [-]. *)
Theorem formatPermissions_shape (mode : Z) :
  exists s : string,
    formatPermissions mode = s
    /\ String.length s = 10%nat
    /\ (String.get 0 s = Some "d"%char \/ String.get 0 s = Some "l"%char
        \/ String.get 0 s = Some "-"%char)
    /\ forall i : nat, (1 <= i <= 9)%nat ->
         String.get i s = String.get (i - 1) "rwxrwxrwx"
         \/ String.get i s = Some "-"%char.
Proof.
  exists (formatPermissions mode). split; [reflexivity|].
  rewrite formatPermissions_spec. split; [reflexivity|]. split.
  - unfold spec_permission_string, spec_type_char. cbn [String.get].
    destruct (S_ISDIR mode); [|destruct (S_ISLNK mode)]; auto.
  - intros i Hi.
    unfold spec_permission_string, spec_slots, spec_slot_char.
    cbn [List.map fst snd string_of_list_ascii].
    destruct i as [|i]; [lia|].
    do 9 (destruct i as [|i];
          [cbn [String.get Nat.sub];
           match goal with |- context [Z.testbit ?m ?k] =>
             destruct (Z.testbit m k) end; auto|]).
    lia.
Qed.

(** ** Tests the program makes on names and type hints *)

Lemma is_dot_spec (name : string) :
  is_dot name = true <-> name = "." \/ name = "..".
Proof.
  unfold is_dot. rewrite orb_true_iff, !String.eqb_eq. reflexivity.
Qed.

Lemma dtype_eqb_eq (a b : dtype) : dtype_eqb a b = true <-> a = b.
Proof. destruct a, b; simpl; split; congruence. Qed.

Lemma dtype_eqb_neq (a b : dtype) : dtype_eqb a b = false <-> a <> b.
Proof. destruct a, b; simpl; split; congruence. Qed.

Lemma string_length_app (a b : string) :
  String.length (a +:+ b) = (String.length a + String.length b)%nat.
Proof. induction a as [|c a IH]; simpl; [reflexivity|]. rewrite IH. reflexivity. Qed.

Lemma string_app_assoc (a b c : string) : (a +:+ b) +:+ c = a +:+ (b +:+ c).
Proof.
  induction a as [|x a IH]; [reflexivity|].
  change ((String x a +:+ b) +:+ c) with (String x ((a +:+ b) +:+ c)).
  rewrite IH. reflexivity.
Qed.


(** ** [listFiles] *)

(** *** The order of [std::string] *)

Lemma string_lt_bytewise (a b : string) :
  string_lt a b <-> OrderedTypeEx.String_as_OT.lt a b.
Proof.
  unfold string_lt, String.ltb.
  rewrite <- OrderedTypeEx.String_as_OT.cmp_lt.
  unfold OrderedTypeEx.String_as_OT.cmp.
  destruct (String.compare a b); split; congruence.
Qed.

Lemma string_le_lt_eq (a b : string) :
  string_le a b <-> string_lt a b \/ a = b.
Proof.
  unfold string_le, string_lt, String.leb, String.ltb.
  pose proof (OrderedTypeEx.String_as_OT.cmp_eq a b) as Heq.
  unfold OrderedTypeEx.String_as_OT.cmp in Heq.
  destruct (String.compare a b); split; auto; try congruence.
  - intros _. right. apply Heq. reflexivity.
  - intros [Hlt|Hab]; [discriminate|]. apply Heq in Hab. discriminate.
Qed.

Lemma string_lt_irrefl (a : string) : ~ string_lt a a.
Proof.
  rewrite string_lt_bytewise.
  intros Hlt. exact (OrderedTypeEx.String_as_OT.lt_not_eq _ _ Hlt eq_refl).
Qed.

Lemma string_lt_trans (a b c : string) :
  string_lt a b -> string_lt b c -> string_lt a c.
Proof.
  rewrite !string_lt_bytewise. apply OrderedTypeEx.String_as_OT.lt_trans.
Qed.

#[local] Instance string_le_trans : Transitive string_le.
Proof.
  intros a b c. rewrite !string_le_lt_eq.
  intros [Hab| ->] [Hbc| ->]; eauto using string_lt_trans.
Qed.

#[local] Instance string_le_total : Total string_le.
Proof. intros a b. apply String.leb_total. Qed.

#[local] Instance string_le_antisym : AntiSymm (=) string_le.
Proof. intros a b. apply String.leb_antisym. Qed.

Lemma sort_names_sorted (names : list string) :
  StronglySorted string_le (sort_names names).
Proof. apply StronglySorted_merge_sort; apply _. Qed.

Lemma sort_names_perm (names : list string) :
  Permutation (sort_names names) names.
Proof. apply merge_sort_Permutation. Qed.

(** Whatever algorithm [std::sort] runs, its result is this one. *)
Lemma sort_names_unique (names sorted : list string) :
  Permutation sorted names -> StronglySorted string_le sorted ->
  sorted = sort_names names.
Proof.
  intros Hperm Hsorted.
  apply (StronglySorted_unique string_le); auto using sort_names_sorted.
  rewrite Hperm. symmetry. apply sort_names_perm.
Qed.

Lemma strictly_sorted (names : list string) :
  StronglySorted string_le names -> List.NoDup names ->
  StronglySorted string_lt names.
Proof.
  induction 1 as [|a l Hl IH Hall]; intros Hnd; constructor.
  - apply IH. inversion Hnd; assumption.
  - inversion Hnd as [|? ? Hnotin _]; subst.
    rewrite List.Forall_forall in *. intros x Hx.
    destruct (proj1 (string_le_lt_eq a x) (Hall x Hx)) as [Hlt| ->];
      [exact Hlt|contradiction].
Qed.

Section ListFacts.

Context {W : Type} `{Kernel W}.

Implicit Types (p : proc W).

Lemma read_names_filter (dir : list dirent) (names : list string) :
  read_names dir names
  = names ++ List.filter (fun n => negb (is_dot n)) (List.map d_name dir).
Proof.
  revert names. induction dir as [|e dir IH]; intros names; simpl.
  - rewrite app_nil_r. reflexivity.
  - destruct (is_dot (d_name e)); simpl; rewrite IH; [reflexivity|].
    rewrite <- app_assoc. reflexivity.
Qed.

Lemma print_names (names : list string) p :
  fold_left (fun q name => print_out (name_line name) q) names p
  = Proc (world p) (cout p ++ List.map name_line names) (cerr p) (calls p)
         (garbage p).
Proof.
  revert p. induction names as [|n names IH]; intros p; simpl.
  - rewrite app_nil_r. destruct p; reflexivity.
  - rewrite IH. simpl. rewrite <- app_assoc. reflexivity.
Qed.

(** The plain listing of a directory that opens. *)
Lemma listFiles_plain_opened (path : string) (dir : list dirent) p :
  sys_opendir (world p) path = inr dir ->
  exists names,
    cout (listFiles path false p)
    = cout p ++ (nl +:+ "Contents of " +:+ path +:+ ":" +:+ nl)
                :: List.map name_line names
    /\ cerr (listFiles path false p) = cerr p
    /\ Permutation names
         (List.filter (fun n => negb (is_dot n)) (List.map d_name dir))
    /\ (forall name,
           In name names
           <-> (exists entry, In entry dir /\ d_name entry = name)
               /\ name <> "." /\ name <> "..")
    /\ StronglySorted string_le names
    /\ (List.NoDup (List.map d_name dir) ->
        List.NoDup names /\ StronglySorted string_lt names).
Proof.
  intros Hopen.
  exists (sort_names (read_names dir [])).
  unfold listFiles. cbn [call world]. rewrite Hopen.
  rewrite print_names. cbn [cout cerr print_out call].
  rewrite read_names_filter. cbn [app].
  set (kept := List.filter (fun n => negb (is_dot n)) (List.map d_name dir)).
  assert (Hperm : Permutation (sort_names kept) kept)
    by apply sort_names_perm.
  split; [rewrite <- app_assoc; reflexivity|].
  split; [reflexivity|]. split; [exact Hperm|].
  split; [|split; [apply sort_names_sorted|]].
  - intros name. split.
    + intros Hin. apply (Permutation_in _ Hperm) in Hin.
      apply List.filter_In in Hin. destruct Hin as [Hin Hdot].
      apply List.in_map_iff in Hin. destruct Hin as (entry & Hname & Hin).
      split; [eauto|].
      apply negb_true_iff in Hdot.
      split; intros ->; discriminate.
    + intros ((entry & Hin & Hname) & Hd1 & Hd2).
      apply (Permutation_in _ (Permutation_sym Hperm)).
      apply List.filter_In. split.
      * apply List.in_map_iff. eauto.
      * apply negb_true_iff.
        destruct (is_dot name) eqn:Hdot; [|reflexivity].
        apply is_dot_spec in Hdot. tauto.
  - intros Hnodup.
    assert (Hnd : List.NoDup (sort_names kept)).
    { eapply Permutation_NoDup; [symmetry; exact Hperm|].
      apply List.NoDup_filter. exact Hnodup. }
    split; [exact Hnd|].
    apply strictly_sorted; [apply sort_names_sorted|exact Hnd].
Qed.

(** C3: when the directory opens, the plain listing prints its title and
    then one line per name; the names are those the directory yields other
    than ["."] and [".."], as many times as it yields them, in ascending
    byte-wise order: each once and strictly ascending, since a directory
    yields a name once.  When the directory does not open, the error goes to
    the error stream and no name is printed. *)
Theorem listFiles_plain_sorted_children (path : string) p :
  (forall dir,
      sys_opendir (world p) path = inr dir ->
      exists names,
        cout (listFiles path false p)
        = cout p ++ (nl +:+ "Contents of " +:+ path +:+ ":" +:+ nl)
                    :: List.map name_line names
        /\ cerr (listFiles path false p) = cerr p
        /\ Permutation names
             (List.filter (fun n => negb (is_dot n)) (List.map d_name dir))
        /\ (forall name,
               In name names
               <-> (exists entry, In entry dir /\ d_name entry = name)
                   /\ name <> "." /\ name <> "..")
        /\ StronglySorted string_le names
        /\ (List.NoDup (List.map d_name dir) ->
            List.NoDup names /\ StronglySorted string_lt names))
  /\ (forall err,
        sys_opendir (world p) path = inl err ->
        cout (listFiles path false p) = cout p
        /\ cerr (listFiles path false p)
           = cerr p ++ ["opendir failed for " +:+ path +:+ " : "
                        +:+ strerror err +:+ nl]).
Proof.
  split.
  - intros dir. apply listFiles_plain_opened.
  - intros err Hopen. unfold listFiles. cbn [call world].
    rewrite Hopen. split; reflexivity.
Qed.

End ListFacts.

(** ** [searchFile] *)

Section SearchFacts.

Context {W : Type} `{Kernel W}.

Implicit Types (p : proc W) (w : W).

Lemma readdir_loop_app body (l1 l2 : list dirent) p :
  readdir_loop body (l1 ++ l2) p
  = match readdir_loop body l1 p with
    | Some p1 => readdir_loop body l2 p1
    | None => None
    end.
Proof.
  revert p. induction l1 as [|e l1 IH]; intros p; simpl; [reflexivity|].
  destruct (body e p); [apply IH|reflexivity].
Qed.

(** *** A run is a function of the system alone *)

Lemma effect_ret w : effect w Some (Some ([], [])).
Proof.
  intros [w' o e c g] Hw. simpl in *. subst. rewrite !app_nil_r. reflexivity.
Qed.

Lemma effect_seq w f g r1 :
  effect w f r1 ->
  (exists r2, effect w g r2) ->
  exists r, effect w (fun p => match f p with Some p1 => g p1 | None => None end) r.
Proof.
  intros Hf [r2 Hg]. destruct r1 as [[o1 c1]|].
  - destruct r2 as [[o2 c2]|].
    + exists (Some (o1 ++ o2, c1 ++ c2)). intros p Hw.
      rewrite (Hf p Hw). simpl. rewrite Hg by reflexivity. simpl.
      rewrite map_app, !app_assoc. reflexivity.
    + exists None. intros p Hw. rewrite (Hf p Hw). simpl.
      rewrite Hg by reflexivity. reflexivity.
  - exists None. intros p Hw. rewrite (Hf p Hw). reflexivity.
Qed.

Lemma readdir_loop_effect w body (dir : list dirent) :
  (forall entry, In entry dir -> exists r, effect w (body entry) r) ->
  exists r, effect w (readdir_loop body dir) r.
Proof.
  induction dir as [|e dir IH]; intros Hbody.
  - exists (Some ([], [])). apply effect_ret.
  - destruct (Hbody e (or_introl eq_refl)) as [r1 Hr1].
    apply (effect_seq w (body e) (readdir_loop body dir) r1 Hr1).
    apply IH. intros entry Hin. apply Hbody. right. exact Hin.
Qed.

Lemma search_entry_effect w recurse dirname target entry :
  (forall d, exists r, effect w (recurse d target) r) ->
  exists r, effect w (search_entry recurse dirname target entry) r.
Proof.
  intros Hrec. unfold search_entry.
  destruct (is_dot (d_name entry)); [exists (Some ([], [])); apply effect_ret|].
  destruct (dtype_eqb (d_type entry) DT_DIR); [apply Hrec|].
  destruct (String.eqb (d_name entry) target).
  - exists (Some (["Found: " +:+ (dirname +:+ "/" +:+ d_name entry) +:+ nl], [])).
    intros [w' o e c g] Hw. simpl in *. subst. rewrite app_nil_r. reflexivity.
  - exists (Some ([], [])). apply effect_ret.
Qed.

Lemma searchFile_effect w fuel dirname target :
  exists r, effect w (searchFile fuel dirname target) r.
Proof.
  revert dirname. induction fuel as [|fuel IH]; intros dirname.
  - exists None. intros p _. reflexivity.
  - simpl. destruct (sys_opendir w dirname) as [e|dir] eqn:Hopen.
    + exists (Some ([], [dirname])). intros [w' o e' c g] Hw.
      simpl in *. subst. rewrite Hopen, app_nil_r. reflexivity.
    + destruct (readdir_loop_effect w
                  (search_entry (searchFile fuel) dirname target) dir)
        as [r Hr].
      { intros entry _. apply search_entry_effect. intros d. apply IH. }
      destruct r as [[o1 c1]|].
      * exists (Some (o1, dirname :: c1)). intros [w' o e' c g] Hw.
        simpl in *. subst. rewrite Hopen.
        rewrite Hr by reflexivity. simpl.
        rewrite <- app_assoc. reflexivity.
      * exists None. intros [w' o e' c g] Hw. simpl in *. subst.
        rewrite Hopen. rewrite Hr by reflexivity. reflexivity.
Qed.

Lemma effect_frame w f r p p' :
  effect w f r -> world p = w -> f p = Some p' ->
  world p' = world p /\ cerr p' = cerr p /\ garbage p' = garbage p
  /\ exists lines opened,
       cout p' = cout p ++ lines
       /\ calls p' = calls p ++ List.map Opendir opened.
Proof.
  intros Hf Hw Hrun. rewrite (Hf p Hw) in Hrun.
  destruct r as [[o c]|]; [|discriminate].
  injection Hrun as <-. simpl. repeat split; eauto.
Qed.

Lemma effect_console w f r p q :
  effect w f r -> world p = w -> world q = w -> console p = console q ->
  option_map console (f p) = option_map console (f q).
Proof.
  intros Hf Hp Hq Hc. rewrite (Hf p Hp), (Hf q Hq).
  unfold console in *. injection Hc as Ho He.
  destruct r as [[o c]|]; simpl; [|reflexivity]. rewrite Ho, He. reflexivity.
Qed.

End SearchFacts.

Section SearchTheorems.

Context {W : Type} `{Kernel W}.

Implicit Types (p : proc W) (w : W).

(** *** More fuel changes nothing *)

Lemma readdir_loop_mono (body1 body2 : dirent -> proc W -> option (proc W))
    (dir : list dirent) p p' :
  (forall entry q q', body1 entry q = Some q' -> body2 entry q = Some q') ->
  readdir_loop body1 dir p = Some p' ->
  readdir_loop body2 dir p = Some p'.
Proof.
  intros Hbody. revert p. induction dir as [|e dir IH]; intros p; simpl.
  - auto.
  - destruct (body1 e p) as [q|] eqn:Hb; [|discriminate].
    rewrite (Hbody _ _ _ Hb). apply IH.
Qed.

Lemma searchFile_mono (n m : nat) dirname target p p' :
  (n <= m)%nat ->
  searchFile n dirname target p = Some p' ->
  searchFile m dirname target p = Some p'.
Proof.
  revert m dirname p p'. induction n as [|n IH]; intros m dirname p p' Hle.
  - discriminate.
  - destruct m as [|m]; [lia|]. simpl.
    destruct (sys_opendir (world p) dirname); [auto|].
    apply readdir_loop_mono. intros entry q q'. unfold search_entry.
    destruct (is_dot (d_name entry)); [auto|].
    destruct (dtype_eqb (d_type entry) DT_DIR); [|auto].
    apply IH. lia.
Qed.

(** *** Termination on well-founded trees *)

Lemma search_entries_terminate w dirname target (dir : list dirent) :
  (forall entry, In entry dir -> is_dot (d_name entry) = false ->
     d_type entry = DT_DIR ->
     exists fuel, forall p, world p = w ->
       exists p', searchFile fuel (full_path dirname (d_name entry)) target p
                  = Some p') ->
  exists fuel, forall p, world p = w ->
    exists p', readdir_loop (search_entry (searchFile fuel) dirname target)
                 dir p = Some p'.
Proof.
  induction dir as [|e dir IH]; intros Hsub.
  - exists O. intros p _. exists p. reflexivity.
  - destruct IH as [n1 Hn1].
    { intros entry Hin. apply Hsub. right. exact Hin. }
    assert (He : exists n2, forall p, world p = w ->
               exists p', search_entry (searchFile n2) dirname target e p
                          = Some p' /\ world p' = w).
    { unfold search_entry.
      destruct (is_dot (d_name e)) eqn:Hdot; [exists O; eauto|].
      destruct (dtype_eqb (d_type e) DT_DIR) eqn:Hty.
      - apply dtype_eqb_eq in Hty.
        destruct (Hsub e (or_introl eq_refl) Hdot Hty) as [n2 Hn2].
        exists n2. intros p Hw. destruct (Hn2 p Hw) as [p' Hp'].
        exists p'. split; [exact Hp'|].
        destruct (searchFile_effect w n2 (full_path dirname (d_name e)) target)
          as [r Hr].
        destruct (effect_frame _ _ _ _ _ Hr Hw Hp') as [Hw' _]. congruence.
      - exists O. intros p Hw.
        destruct (String.eqb (d_name e) target); eauto. }
    destruct He as [n2 Hn2].
    exists (Nat.max n1 n2). intros p Hw. simpl.
    destruct (Hn2 p Hw) as [p1 [Hp1 Hw1]].
    assert (Hstep : search_entry (searchFile (Nat.max n1 n2)) dirname target e p
                    = Some p1).
    { revert Hp1. unfold search_entry.
      destruct (is_dot (d_name e)); [auto|].
      destruct (dtype_eqb (d_type e) DT_DIR); [|auto].
      apply searchFile_mono. lia. }
    rewrite Hstep. destruct (Hn1 p1 Hw1) as [p2 Hp2]. exists p2.
    revert Hp2. apply readdir_loop_mono. intros entry q q'.
    unfold search_entry.
    destruct (is_dot (d_name entry)); [auto|].
    destruct (dtype_eqb (d_type entry) DT_DIR); [|auto].
    apply searchFile_mono. lia.
Qed.

Lemma searchFile_terminates_from w dirname target :
  Acc (fun q d => subdir w d q) dirname ->
  exists fuel, forall p, world p = w ->
    exists p', searchFile fuel dirname target p = Some p'.
Proof.
  induction 1 as [dirname _ IH].
  destruct (sys_opendir w dirname) as [e|dir] eqn:Hopen.
  - exists 1%nat. intros p Hw. simpl. rewrite Hw, Hopen. eauto.
  - destruct (search_entries_terminate w dirname target dir) as [n Hn].
    { intros entry Hin Hdot Hty. apply IH.
      exists dir, entry. auto. }
    exists (S n). intros p Hw. simpl. rewrite Hw, Hopen.
    apply Hn. exact Hw.
Qed.

(** C10: on a tree whose [DT_DIR] entries are well founded below
    [dirname] (finite and free of cycles), the search returns: some depth
    of recursion is enough, and any larger one gives the same final
    state. *)
Theorem searchFile_terminates (dirname target : string) p :
  Acc (fun q d => subdir (world p) d q) dirname ->
  exists fuel p',
    searchFile fuel dirname target p = Some p'
    /\ forall more, searchFile (fuel + more) dirname target p = Some p'.
Proof.
  intros Hacc.
  destruct (searchFile_terminates_from (world p) dirname target Hacc)
    as [fuel Hfuel].
  destruct (Hfuel p eq_refl) as [p' Hp'].
  exists fuel, p'. split; [exact Hp'|].
  intros more. apply (searchFile_mono fuel); [lia|exact Hp'].
Qed.

(** *** Skipping what cannot be opened *)

(** C4: a directory that cannot be opened, the root of the search or any
    directory met below it, adds nothing to either stream and changes
    nothing, and the entries listed before and after it are processed
    as if it were not there. *)
Theorem searchFile_skips_unopenable (fuel : nat) (d target : string) p err :
  sys_opendir (world p) d = inl err ->
  (exists p',
      searchFile (S fuel) d target p = Some p'
      /\ cout p' = cout p /\ cerr p' = cerr p /\ world p' = world p)
  /\ forall dirname entry before after,
       d = full_path dirname (d_name entry) ->
       is_dot (d_name entry) = false ->
       d_type entry = DT_DIR ->
       option_map console
         (readdir_loop (search_entry (searchFile (S fuel)) dirname target)
            (before ++ entry :: after) p)
       = option_map console
           (readdir_loop (search_entry (searchFile (S fuel)) dirname target)
              (before ++ after) p).
Proof.
  intros Hopen. split.
  - exists (call (Opendir d) p). simpl. rewrite Hopen. auto.
  - intros dirname entry before after Hd Hdot Hty.
    rewrite !readdir_loop_app.
    destruct (readdir_loop_effect (world p)
                (search_entry (searchFile (S fuel)) dirname target) before)
      as [r1 Hr1].
    { intros e _. apply search_entry_effect. intros x.
      apply searchFile_effect. }
    destruct (readdir_loop (search_entry (searchFile (S fuel)) dirname target)
                before p) as [p1|] eqn:Hbefore; [|reflexivity].
    destruct (effect_frame _ _ _ _ _ Hr1 eq_refl Hbefore) as [Hw1 _].
    cbn [readdir_loop]. unfold search_entry at 1. rewrite Hdot.
    apply dtype_eqb_eq in Hty. rewrite Hty.
    unfold full_path in Hd. rewrite <- Hd.
    cbn [searchFile]. cbn [call world]. rewrite Hw1, Hopen.
    destruct (readdir_loop_effect (world p)
                (search_entry (searchFile (S fuel)) dirname target) after)
      as [r2 Hr2].
    { intros e _. apply search_entry_effect. intros x.
      apply searchFile_effect. }
    apply (effect_console _ _ _ _ _ Hr2); auto.
Qed.

End SearchTheorems.

Section SearchHits.

Context {W : Type} `{Kernel W}.

Implicit Types (p : proc W) (w : W).

Lemma hit_unfold w target d full :
  hit w target d full
  <-> exists dir entry,
        sys_opendir w d = inr dir /\ In entry dir
        /\ hit_entry w target d entry full.
Proof.
  split.
  - intros Hhit. destruct Hhit as [d dir entry Ho Hin Hdot Hty Hname
                                  |d dir entry full Ho Hin Hdot Hty Hsub].
    + exists dir, entry. repeat split; auto.
    + exists dir, entry. repeat split; auto.
  - intros (dir & entry & Ho & Hin & Hdot & [(Hty & Hname & ->)|(Hty & Hsub)]).
    + eapply hit_here; eauto.
    + eapply hit_below; eauto.
Qed.

Lemma readdir_loop_hits w fuel dirname target :
  (forall d p p', world p = w -> searchFile fuel d target p = Some p' ->
     exists fulls, cout p' = cout p ++ List.map found_line fulls
                   /\ forall f, In f fulls <-> hit w target d f) ->
  forall (dir : list dirent) p p', world p = w ->
    readdir_loop (search_entry (searchFile fuel) dirname target) dir p
    = Some p' ->
    exists fulls, cout p' = cout p ++ List.map found_line fulls
      /\ forall f, In f fulls
                   <-> exists entry, In entry dir
                                     /\ hit_entry w target dirname entry f.
Proof.
  intros IH. induction dir as [|e dir IHdir]; intros p p' Hw Hrun.
  - injection Hrun as <-. exists []. split; [simpl; now rewrite app_nil_r|].
    intros f. split; [intros []|intros (entry & [] & _)].
  - simpl in Hrun.
    destruct (search_entry (searchFile fuel) dirname target e p)
      as [p1|] eqn:Hstep; [|discriminate].
    assert (Hone : world p1 = w
              /\ exists fs1, cout p1 = cout p ++ List.map found_line fs1
                   /\ forall f, In f fs1 <-> hit_entry w target dirname e f).
    { revert Hstep. unfold search_entry, hit_entry.
      destruct (is_dot (d_name e)) eqn:Hdot.
      - intros [= <-]. split; [exact Hw|]. exists [].
        split; [simpl; now rewrite app_nil_r|].
        intros f. split; [intros []|intros [? _]; discriminate].
      - destruct (dtype_eqb (d_type e) DT_DIR) eqn:Hty.
        + apply dtype_eqb_eq in Hty. intros Hrec. split.
          * destruct (searchFile_effect w fuel
                        (dirname +:+ "/" +:+ d_name e) target) as [r Hr].
            destruct (effect_frame _ _ _ _ _ Hr Hw Hrec) as [Hw1 _].
            congruence.
          * destruct (IH _ _ _ Hw Hrec) as (fs1 & Hout & Hfs1).
            exists fs1. split; [exact Hout|]. intros f. rewrite Hfs1.
            unfold full_path. split.
            -- intros Hh. split; [reflexivity|]. right. auto.
            -- intros [_ [(Hno & _)|(_ & Hh)]]; [contradiction|exact Hh].
        + apply dtype_eqb_neq in Hty.
          destruct (String.eqb (d_name e) target) eqn:Hname.
          * apply String.eqb_eq in Hname. intros [= <-].
            split; [exact Hw|].
            exists [full_path dirname (d_name e)]. split; [reflexivity|].
            intros f. simpl. split.
            -- intros [<-|[]]. split; [reflexivity|]. left. auto.
            -- intros [_ [(_ & _ & ->)|(Hd & _)]]; [auto|contradiction].
          * apply String.eqb_neq in Hname. intros [= <-].
            split; [exact Hw|]. exists [].
            split; [simpl; now rewrite app_nil_r|].
            intros f. split; [intros []|].
            intros [_ [(_ & Heq & _)|(Hd & _)]]; contradiction. }
    destruct Hone as (Hw1 & fs1 & Hout1 & Hfs1).
    destruct (IHdir p1 p' Hw1 Hrun) as (fs2 & Hout2 & Hfs2).
    exists (fs1 ++ fs2). split.
    + rewrite Hout2, Hout1, map_app, app_assoc. reflexivity.
    + intros f. rewrite in_app_iff, Hfs1, Hfs2. split.
      * intros [Hh|(entry & Hin & Hh)].
        -- exists e. split; [left; reflexivity|exact Hh].
        -- exists entry. split; [right; exact Hin|exact Hh].
      * intros (entry & [<-|Hin] & Hh); [left; exact Hh|].
        right. exists entry. auto.
Qed.

Lemma searchFile_hits (fuel : nat) (d target : string) p p' :
  searchFile fuel d target p = Some p' ->
  exists fulls,
    cout p' = cout p ++ List.map found_line fulls
    /\ forall f, In f fulls <-> hit (world p) target d f.
Proof.
  remember (world p) as w eqn:Hw. symmetry in Hw.
  revert d p p' Hw. induction fuel as [|fuel IH]; intros d p p' Hw Hrun.
  - discriminate.
  - simpl in Hrun. rewrite Hw in Hrun.
    destruct (sys_opendir w d) as [e|dir] eqn:Hopen.
    + injection Hrun as <-. exists []. split; [simpl; now rewrite app_nil_r|].
      intros f. split; [intros []|]. rewrite hit_unfold.
      intros (dir & _ & Ho & _). congruence.
    + destruct (readdir_loop_hits w fuel d target IH dir (call (Opendir d) p) p' Hw Hrun)
        as (fulls & Hout & Hfulls).
      exists fulls. split; [exact Hout|].
      intros f. rewrite Hfulls, hit_unfold. split.
      * intros (entry & Hin & Hh). exists dir, entry. auto.
      * intros (dir' & entry & Ho & Hin & Hh).
        assert (dir' = dir) as -> by congruence. exists entry. auto.
Qed.

Lemma readdir_loop_repeats recurse (dirname target : string) (n : nat) p :
  is_dot target = false ->
  readdir_loop (search_entry recurse dirname target)
    (repeat (Dirent target DT_REG) n) p
  = Some (Proc (world p)
               (cout p ++ repeat (found_line (full_path dirname target)) n)
               (cerr p) (calls p) (garbage p)).
Proof.
  intros Hdot. revert p. induction n as [|n IH]; intros p.
  - simpl. rewrite app_nil_r. destruct p; reflexivity.
  - cbn [repeat readdir_loop]. unfold search_entry at 1.
    cbn [d_name d_type dtype_eqb]. rewrite Hdot, String.eqb_refl.
    rewrite IH. cbn [print_out world cout cerr calls garbage].
    rewrite <- app_assoc. reflexivity.
Qed.

End SearchHits.


(** ** A run of [searchFile], entry by entry *)

Section ScanFacts.

Context {W : Type} `{Kernel W}.

Implicit Types (p : proc W) (w : W).

Lemma searched_nothing p : searched p [] [] = p.
Proof. destruct p. unfold searched. cbn. rewrite !app_nil_r. reflexivity. Qed.

Lemma searched_twice p (l1 o1 l2 o2 : list string) :
  searched (searched p l1 o1) l2 o2 = searched p (l1 ++ l2) (o1 ++ o2).
Proof.
  unfold searched. cbn [world cout cerr calls garbage].
  rewrite !List.map_app, <- !app_assoc. reflexivity.
Qed.

Lemma searched_opendir p (d : string) (lines opened : list string) :
  searched (call (Opendir d) p) lines opened = searched p lines (d :: opened).
Proof.
  unfold searched, call. cbn [world cout cerr calls garbage List.map].
  rewrite <- app_assoc. reflexivity.
Qed.

Lemma searched_line p (full : string) :
  print_out (found_line full) p = searched p [full] [].
Proof.
  unfold searched, print_out. cbn [List.map]. rewrite app_nil_r. reflexivity.
Qed.

Lemma search_entry_mono (n m : nat) (dirname target : string) (entry : dirent)
    p p' :
  (n <= m)%nat ->
  search_entry (searchFile n) dirname target entry p = Some p' ->
  search_entry (searchFile m) dirname target entry p = Some p'.
Proof.
  intros Hle. unfold search_entry.
  destruct (is_dot (d_name entry)); [auto|].
  destruct (dtype_eqb (d_type entry) DT_DIR); [|auto].
  apply searchFile_mono. exact Hle.
Qed.

(** What a run did is a scan. *)
Lemma searchFile_scan w (target : string) (fuel : nat) :
  forall (d : string) p p',
    world p = w -> searchFile fuel d target p = Some p' ->
    exists lines opened,
      scan w target d lines opened /\ p' = searched p lines opened.
Proof.
  induction fuel as [|fuel IH]; intros d p p' Hw Hrun; [discriminate|].
  assert (Hloop : forall (dir : list dirent) q q',
            world q = w ->
            readdir_loop (search_entry (searchFile fuel) d target) dir q
            = Some q' ->
            exists lines opened,
              scan_entries w target d dir lines opened
              /\ q' = searched q lines opened).
  { induction dir as [|e dir IHdir]; intros q q' Hq Hloop.
    - injection Hloop as <-. exists [], []. split; [constructor|].
      symmetry. apply searched_nothing.
    - cbn [readdir_loop] in Hloop.
      destruct (search_entry (searchFile fuel) d target e q) as [q1|] eqn:Hstep;
        [|discriminate].
      unfold search_entry in Hstep.
      destruct (is_dot (d_name e)) eqn:Hdot.
      + injection Hstep as <-.
        destruct (IHdir q q' Hq Hloop) as (lines & opened & Hscan & ->).
        exists lines, opened. split; [|reflexivity].
        apply scan_dot; assumption.
      + destruct (dtype_eqb (d_type e) DT_DIR) eqn:Hty.
        * apply dtype_eqb_eq in Hty.
          destruct (IH _ _ _ Hq Hstep) as (l1 & o1 & Hsub & ->).
          destruct (IHdir (searched q l1 o1) q' Hq Hloop)
            as (l2 & o2 & Hrest & ->).
          exists (l1 ++ l2), (o1 ++ o2). split; [|apply searched_twice].
          apply scan_dir; assumption.
        * apply dtype_eqb_neq in Hty.
          assert (Hq1 : q1 = searched q
                           (if String.eqb (d_name e) target
                            then [full_path d (d_name e)] else []) []).
          { destruct (String.eqb (d_name e) target); injection Hstep as <-.
            - apply searched_line.
            - symmetry. apply searched_nothing. }
          assert (Hw1 : world q1 = w) by (rewrite Hq1; exact Hq).
          destruct (IHdir q1 q' Hw1 Hloop) as (l2 & o2 & Hrest & ->).
          exists ((if String.eqb (d_name e) target
                   then [full_path d (d_name e)] else []) ++ l2), o2.
          split; [apply scan_file; assumption|].
          rewrite Hq1, searched_twice. reflexivity. }
  cbn [searchFile] in Hrun. cbn [call world] in Hrun. rewrite Hw in Hrun.
  destruct (sys_opendir w d) as [e|dir] eqn:Hopen.
  - injection Hrun as <-. exists [], [d]. split; [eapply scan_closed; eauto|].
    rewrite <- searched_opendir, searched_nothing. reflexivity.
  - destruct (Hloop dir (call (Opendir d) p) p' Hw Hrun)
      as (lines & opened & Hscan & ->).
    exists lines, (d :: opened). split; [|apply searched_opendir].
    eapply scan_open; eauto.
Qed.

(** A scan is what a run does, given depth enough. *)
Lemma scan_searchFile w (target d : string) (lines opened : list string) :
  scan w target d lines opened ->
  exists fuel, forall p,
    world p = w -> searchFile fuel d target p = Some (searched p lines opened).
Proof.
  revert d lines opened.
  apply (scan_both w target
           (fun d lines opened =>
              exists fuel, forall p, world p = w ->
                searchFile fuel d target p = Some (searched p lines opened))
           (fun d dir lines opened =>
              exists fuel, forall p, world p = w ->
                readdir_loop (search_entry (searchFile fuel) d target) dir p
                = Some (searched p lines opened))).
  - intros d e Hopen. exists 1%nat. intros p Hw. cbn [searchFile call world].
    rewrite Hw, Hopen, <- searched_opendir, searched_nothing. reflexivity.
  - intros d dir lines opened Hopen _ [fuel Hfuel]. exists (S fuel).
    intros p Hw. cbn [searchFile call world]. rewrite Hw, Hopen.
    rewrite (Hfuel (call (Opendir d) p) Hw). f_equal. apply searched_opendir.
  - intros d. exists O. intros p _. cbn [readdir_loop].
    rewrite searched_nothing. reflexivity.
  - intros d entry rest lines opened Hdot _ [fuel Hfuel]. exists fuel.
    intros p Hw. cbn [readdir_loop]. unfold search_entry at 1. rewrite Hdot.
    apply Hfuel. exact Hw.
  - intros d entry rest l1 o1 l2 o2 Hdot Hty _ [n1 Hn1] _ [n2 Hn2].
    exists (Nat.max n1 n2). intros p Hw. cbn [readdir_loop].
    assert (Hstep : search_entry (searchFile (Nat.max n1 n2)) d target entry p
                    = Some (searched p l1 o1)).
    { apply (search_entry_mono n1); [lia|]. unfold search_entry.
      rewrite Hdot. apply dtype_eqb_eq in Hty. rewrite Hty. apply Hn1.
      exact Hw. }
    rewrite Hstep, <- searched_twice.
    apply (readdir_loop_mono (search_entry (searchFile n2) d target)).
    + intros e q q'. apply search_entry_mono. lia.
    + apply Hn2. exact Hw.
  - intros d entry rest lines opened Hdot Hty _ [fuel Hfuel]. exists fuel.
    intros p Hw. cbn [readdir_loop]. unfold search_entry at 1. rewrite Hdot.
    apply dtype_eqb_neq in Hty. rewrite Hty.
    rewrite <- (app_nil_l opened), <- searched_twice.
    destruct (String.eqb (d_name entry) target).
    + rewrite <- searched_line. apply Hfuel. exact Hw.
    + rewrite searched_nothing. apply Hfuel. exact Hw.
Qed.

Lemma found_line_inj (a b : string) : found_line a = found_line b -> a = b.
Proof.
  unfold found_line. intros Heq. cbn in Heq. injection Heq as Heq.
  revert b Heq. induction a as [|x a IH]; intros [|y b] Heq; cbn in Heq.
  - reflexivity.
  - destruct b; discriminate.
  - destruct a; discriminate.
  - injection Heq as -> Heq. f_equal. apply IH. exact Heq.
Qed.

Lemma map_inj {A B : Type} (f : A -> B) (l1 l2 : list A) :
  (forall a b, f a = f b -> a = b) ->
  List.map f l1 = List.map f l2 -> l1 = l2.
Proof.
  intros Hf. revert l2. induction l1 as [|a l1 IH]; intros [|b l2] Heq;
    cbn in Heq; try discriminate; [reflexivity|].
  injection Heq as Hab Heq. f_equal; auto.
Qed.

(** The system leaves one scan possible. *)
Lemma scan_unique w (target d : string) (l1 o1 l2 o2 : list string) :
  scan w target d l1 o1 -> scan w target d l2 o2 -> l1 = l2 /\ o1 = o2.
Proof.
  intros H1 H2.
  destruct (scan_searchFile _ _ _ _ _ H1) as [n1 Hn1].
  destruct (scan_searchFile _ _ _ _ _ H2) as [n2 Hn2].
  pose (p := Proc w [] [] [] "").
  pose proof (searchFile_mono n1 (Nat.max n1 n2) d target p _
                ltac:(lia) (Hn1 p eq_refl)) as Ha.
  pose proof (searchFile_mono n2 (Nat.max n1 n2) d target p _
                ltac:(lia) (Hn2 p eq_refl)) as Hb.
  rewrite Ha in Hb. injection Hb as Hl Ho. split.
  - apply (map_inj found_line); [apply found_line_inj|exact Hl].
  - apply (map_inj Opendir); [|exact Ho]. intros a b [= ->]. reflexivity.
Qed.

(** A well-founded tree has a scan. *)
Lemma scan_exists w (target d : string) :
  Acc (fun q d => subdir w d q) d ->
  exists lines opened, scan w target d lines opened.
Proof.
  intros Hacc.
  destruct (searchFile_terminates_from w d target Hacc) as [fuel Hfuel].
  destruct (Hfuel (Proc w [] [] [] "") eq_refl) as [p' Hp'].
  destruct (searchFile_scan w target fuel d (Proc w [] [] [] "") p' eq_refl Hp')
    as (lines & opened & Hscan & _).
  eauto.
Qed.

End ScanFacts.

Section SearchRuns.

Context {W : Type} `{Kernel W}.

Implicit Types (p : proc W) (w : W).



(** *** Branching on the type hint *)


End SearchRuns.

(** C6: a run prints one line per match, with the full path, in the
    order of a depth-first traversal that takes the entries of each
    directory as the stream yields them, and with every repetition the
    streams hold: the lines are those of the scan, which the system fixes,
    and they are the paths of exactly the entries below the root that are
    named like the target (byte for byte) and are reached through
    directories.  Whenever there is a scan (on a well-founded tree there
    is one) the run produces this result, at any depth of recursion large
    enough.  A stream that yields the same match [n] times gives [n]
    lines.  On the tree [root/{a.txt, sub/a.txt, sub/b.txt}] the search
    for [a.txt] prints [root/a.txt] and [root/sub/a.txt] and nothing else,
    and the search for a name that is nowhere, or that differs in case,
    prints nothing. *)
Theorem searchFile_reports_every_match :
  (forall (W : Type) (K : Kernel W) (fuel : nat) (d target : string)
          (p p' : proc W),
      searchFile fuel d target p = Some p' ->
      exists lines opened,
        scan (world p) target d lines opened
        /\ cout p' = cout p ++ List.map found_line lines
        /\ (forall lines' opened',
              scan (world p) target d lines' opened' -> lines' = lines)
        /\ forall f, In f lines <-> hit (world p) target d f)
  /\ (forall (W : Type) (K : Kernel W) (d target : string)
             (lines opened : list string) (p : proc W),
        scan (world p) target d lines opened ->
        exists fuel,
          forall more,
            searchFile (fuel + more) d target p
            = Some (searched p lines opened))
  /\ (forall (W : Type) (K : Kernel W) (d target : string) (p : proc W),
        Acc (fun q d => subdir (world p) d q) d ->
        exists lines opened, scan (world p) target d lines opened)
  /\ (forall (W : Type) (K : Kernel W) (fuel : nat) (d target : string)
             (n : nat) (p : proc W),
        is_dot target = false ->
        sys_opendir (world p) d = inr (repeat (Dirent target DT_REG) n) ->
        option_map cout (searchFile (S fuel) d target p)
        = Some (cout p ++ repeat (found_line (full_path d target)) n))
  /\ option_map console
       (searchFile 2 "root" "a.txt" (Examples.boot Examples.spec_tree))
     = Some ([found_line "root/a.txt"; found_line "root/sub/a.txt"], [])
  /\ option_map console
       (searchFile 2 "root" "c.txt" (Examples.boot Examples.spec_tree))
     = Some ([], [])
  /\ option_map console
       (searchFile 2 "root" "A.TXT" (Examples.boot Examples.spec_tree))
     = Some ([], []).
Proof.
  split; [|split; [|split; [|split; [|split; [|split]]]]].
  - intros W K fuel d target p p' Hrun.
    destruct (searchFile_scan (world p) target fuel d p p' eq_refl Hrun)
      as (lines & opened & Hscan & Hp').
    destruct (searchFile_hits fuel d target p p' Hrun)
      as (fulls & Hout & Hfulls).
    exists lines, opened. split; [exact Hscan|].
    split; [rewrite Hp'; reflexivity|]. split.
    + intros lines' opened' Hscan'.
      exact (proj1 (scan_unique _ _ _ _ _ _ _ Hscan' Hscan)).
    + assert (Heq : lines = fulls).
      { rewrite Hp' in Hout. cbn [searched cout] in Hout.
        apply app_inv_head in Hout.
        exact (map_inj found_line _ _ found_line_inj Hout). }
      rewrite Heq. exact Hfulls.
  - intros W K d target lines opened p Hscan.
    destruct (scan_searchFile _ _ _ _ _ Hscan) as [fuel Hfuel].
    exists fuel. intros more.
    apply (searchFile_mono fuel); [lia|]. apply Hfuel. reflexivity.
  - intros W K d target p. apply scan_exists.
  - intros W K fuel d target n p Hdot Hopen.
    cbn [searchFile]. cbn [call world]. rewrite Hopen.
    rewrite readdir_loop_repeats by exact Hdot. reflexivity.
  - vm_compute. reflexivity.
  - vm_compute. reflexivity.
  - vm_compute. reflexivity.
Qed.

(** ** Creating, deleting and changing directory over [MemFS] *)

Section CallFacts.

Context {W : Type} `{Kernel W}.

Implicit Types (p : proc W).


Lemma deleteFile_calls (name : string) p :
  calls (deleteFile name p) = calls p ++ [Remove name].
Proof.
  unfold deleteFile. cbn [call world].
  destruct (sys_remove (world p) name); reflexivity.
Qed.


Lemma changeDirectory_failure (path : string) p (e : errno) :
  sys_chdir (world p) path = inl e ->
  changeDirectory path p
  = print_err ("chdir failed: " +:+ strerror e +:+ nl)
              (call (Chdir path) p).
Proof.
  intros Hch. unfold changeDirectory. cbn [call world]. rewrite Hch.
  reflexivity.
Qed.

End CallFacts.

Module MemFSFacts.

Import MemFS MemFSShape.

Implicit Types (fs : fsys) (p : proc fsys).

(** *** The table *)

Lemma node_at_snoc (f : gmap (list string) node) (d : list string) (c : string) :
  node_at f (d ++ [c]) = f !! (d ++ [c]).
Proof.
  unfold node_at. destruct (f !! (d ++ [c])); [reflexivity|].
  destruct d; reflexivity.
Qed.

Lemma node_at_lookup (f : gmap (list string) node) (k : list string) (n : node) :
  f !! k = Some n -> node_at f k = Some n.
Proof. unfold node_at. intros ->. reflexivity. Qed.

Lemma node_at_None (f : gmap (list string) node) (k : list string) :
  node_at f k = None -> f !! k = None /\ k <> [].
Proof.
  unfold node_at. destruct (f !! k); [discriminate|].
  destruct k; [discriminate|]. split; [reflexivity|discriminate].
Qed.

Lemma node_at_insert_ne (f : gmap (list string) node) (k q : list string)
    (v : node) :
  k <> q -> node_at (<[k := v]> f) q = node_at f q.
Proof. intros Hne. unfold node_at. rewrite lookup_insert_ne by exact Hne. reflexivity. Qed.

Lemma node_at_insert_eq (f : gmap (list string) node) (k : list string)
    (v : node) :
  node_at (<[k := v]> f) k = Some v.
Proof. unfold node_at. rewrite lookup_insert_eq. reflexivity. Qed.

Lemma node_at_delete_ne (f : gmap (list string) node) (k q : list string) :
  k <> q -> q <> [] -> node_at (delete k f) q = node_at f q.
Proof. intros Hne _. unfold node_at. rewrite lookup_delete_ne by exact Hne. reflexivity. Qed.

Lemma snoc_ne (d : list string) (c : string) : d ++ [c] <> d.
Proof.
  intros Heq. apply (f_equal (@length string)) in Heq.
  rewrite length_app in Heq. cbn [length] in Heq. lia.
Qed.

Lemma snoc_not_nil (d : list string) (c : string) : d ++ [c] <> [].
Proof. destruct d; discriminate. Qed.

(** [touch] changes the time of one directory and nothing else. *)
Lemma touch_lookup_ne (d k : list string) (t : Z)
    (f : gmap (list string) node) :
  k <> d -> touch d t f !! k = f !! k.
Proof.
  intros Hne. unfold touch.
  destruct (node_at f d) as [[?|?|m]|]; try reflexivity.
  apply lookup_insert_ne. congruence.
Qed.

Lemma touch_node_at_ne (d k : list string) (t : Z)
    (f : gmap (list string) node) :
  k <> d -> node_at (touch d t f) k = node_at f k.
Proof.
  intros Hne. unfold node_at. rewrite touch_lookup_ne by exact Hne.
  reflexivity.
Qed.

Lemma touch_node_at (d : list string) (t : Z) (f : gmap (list string) node)
    (m : meta) :
  node_at f d = Some (Dir m) ->
  node_at (touch d t f) d
  = Some (Dir (Meta (m_perm m) (m_uid m) (m_gid m) t)).
Proof. intros Hd. unfold touch. rewrite Hd. apply node_at_insert_eq. Qed.

(** What [touch] leaves at any place is what was there, up to the time
    of a directory. *)
Lemma touch_node_at_any (d k : list string) (t : Z)
    (f : gmap (list string) node) :
  node_at (touch d t f) k = node_at f k
  \/ exists m, node_at f k = Some (Dir m)
               /\ node_at (touch d t f) k
                  = Some (Dir (Meta (m_perm m) (m_uid m) (m_gid m) t)).
Proof.
  destruct (decide (k = d)) as [->|Hne].
  - destruct (node_at f d) as [[?|?|m]|] eqn:Hd.
    + left. unfold touch. rewrite Hd. exact Hd.
    + left. unfold touch. rewrite Hd. exact Hd.
    + right. exists m. split; [reflexivity|]. apply touch_node_at. exact Hd.
    + left. unfold touch. rewrite Hd. exact Hd.
  - left. apply touch_node_at_ne. exact Hne.
Qed.

(** *** Permissions *)

Lemma permitted_same (who : cred) (m m' : meta) (want : Z) :
  same_access m m' -> permitted who m want = permitted who m' want.
Proof.
  intros (Hp & Hu & Hg). unfold permitted, class_bits.
  rewrite Hp, Hu, Hg. reflexivity.
Qed.

Lemma same_access_refl (m : meta) : same_access m m.
Proof. repeat split. Qed.

Lemma keeps_refl (f : gmap (list string) node) : keeps f f.
Proof.
  split; [|split].
  - intros k m Hk. exists m. split; [exact Hk|apply same_access_refl].
  - intros k m t Hk. exists m. exact Hk.
  - intros k m Hk. exists m. split; [exact Hk|apply same_access_refl].
Qed.

Lemma keeps_trans (f g h : gmap (list string) node) :
  keeps f g -> keeps g h -> keeps f h.
Proof.
  intros (Hd1 & Hl1 & Hb1) (Hd2 & Hl2 & Hb2). split; [|split].
  - intros k m Hk. destruct (Hd1 k m Hk) as (m1 & Hk1 & (? & ? & ?)).
    destruct (Hd2 k m1 Hk1) as (m2 & Hk2 & (? & ? & ?)).
    exists m2. split; [exact Hk2|]. repeat split; congruence.
  - intros k m t Hk. destruct (Hl1 k m t Hk) as (m1 & Hk1).
    exact (Hl2 k m1 t Hk1).
  - intros k m2 Hk. destruct (Hb2 k m2 Hk) as (m1 & Hk1 & (? & ? & ?)).
    destruct (Hb1 k m1 Hk1) as (m & Hk0 & (? & ? & ?)).
    exists m. split; [exact Hk0|]. repeat split; congruence.
Qed.

Lemma keeps_touch (f : gmap (list string) node) (d : list string) (t : Z) :
  keeps f (touch d t f).
Proof.
  split; [|split].
  - intros k m Hk.
    destruct (touch_node_at_any d k t f) as [Heq|(m0 & Hm0 & Heq)].
    + exists m. split; [congruence|apply same_access_refl].
    + rewrite Hk in Hm0. injection Hm0 as <-. eexists. split; [exact Heq|].
      repeat split.
  - intros k m t' Hk.
    destruct (touch_node_at_any d k t f) as [Heq|(m0 & Hm0 & _)];
      [|congruence].
    exists m. congruence.
  - intros k m' Hk.
    destruct (touch_node_at_any d k t f) as [Heq|(m0 & Hm0 & Heq)].
    + exists m'. split; [congruence|apply same_access_refl].
    + exists m0. split; [exact Hm0|]. rewrite Hk in Heq.
      injection Heq as ->. repeat split.
Qed.

Lemma keeps_insert_file (f : gmap (list string) node) (k : list string)
    (m : meta) (data : string) :
  node_at f k = None -> keeps f (<[k := Reg m data]> f).
Proof.
  intros Hk.
  assert (Hother : forall q n, node_at f q = Some n ->
                     node_at (<[k := Reg m data]> f) q = Some n).
  { intros q n Hq. rewrite node_at_insert_ne; [exact Hq|]. congruence. }
  split; [|split].
  - intros q mq Hq. exists mq. split; [auto|apply same_access_refl].
  - intros q mq t Hq. exists mq. auto.
  - intros q mq Hq. exists mq. split; [|apply same_access_refl].
    destruct (decide (k = q)) as [->|Hne].
    + rewrite node_at_insert_eq in Hq. discriminate.
    + rewrite node_at_insert_ne in Hq by exact Hne. exact Hq.
Qed.

Lemma keeps_delete_file (f : gmap (list string) node) (k : list string)
    (m : meta) (data : string) :
  f !! k = Some (Reg m data) -> k <> [] -> keeps f (delete k f).
Proof.
  intros Hk Hnil.
  assert (Hat : node_at f k = Some (Reg m data)) by (apply node_at_lookup; exact Hk).
  assert (Hgone : node_at (delete k f) k = None).
  { unfold node_at. rewrite lookup_delete_eq. destruct k; [contradiction|reflexivity]. }
  assert (Hother : forall q, q <> k -> node_at (delete k f) q = node_at f q).
  { intros q Hq. unfold node_at. rewrite lookup_delete_ne by congruence.
    reflexivity. }
  split; [|split].
  - intros q mq Hq. exists mq. split; [|apply same_access_refl].
    rewrite Hother; [exact Hq|]. intros ->. congruence.
  - intros q mq t Hq. exists mq. rewrite Hother; [exact Hq|].
    intros ->. congruence.
  - intros q mq Hq. exists mq. split; [|apply same_access_refl].
    destruct (decide (q = k)) as [->|Hne]; [congruence|].
    rewrite Hother in Hq by exact Hne. exact Hq.
Qed.

Lemma searchable_keeps (who : cred) (f g : gmap (list string) node)
    (d : list string) :
  keeps f g -> searchable who f d = true -> searchable who g d = true.
Proof.
  intros (_ & _ & Hback). unfold searchable.
  destruct (node_at g d) as [[?|?|m']|] eqn:Hg; try reflexivity.
  destruct (Hback d m' Hg) as (m & -> & Hsame).
  rewrite (permitted_same who m m' 1 Hsame). auto.
Qed.

(** *** Path resolution *)

Lemma walk_nil (links : nat) (who : cred) (f : gmap (list string) node)
    (cur : list string) :
  walk links who f cur [] = inr cur.
Proof. destruct links; reflexivity. Qed.

Lemma walk_cons (links : nat) (who : cred) (f : gmap (list string) node)
    (cur : list string) (c : string) (rest : list string) :
  walk links who f cur (c :: rest)
  = if negb (searchable who f cur) then inl EACCES
    else if name_too_long c then inl ENAMETOOLONG
    else if String.eqb c "." then walk links who f cur rest
    else if String.eqb c ".." then walk links who f (removelast cur) rest
    else
      match node_at f (cur ++ [c]) with
      | None => inl ENOENT
      | Some (Reg _ _) => inl ENOTDIR
      | Some (Dir _) => walk links who f (cur ++ [c]) rest
      | Some (Lnk _ target) =>
          match links with
          | O => inl ELOOP
          | S links' =>
              if String.eqb target "" then inl ENOENT
              else walk links' who f
                     (if is_absolute target then [] else cur)
                     (components target ++ rest)
          end
      end.
Proof. destruct links; reflexivity. Qed.

(** A walk that succeeds went through directories and links only, so it
    is the same in a tree that keeps them. *)
Lemma walk_keeps (links : nat) (who : cred) (f g : gmap (list string) node)
    (cur todo d : list string) :
  keeps f g ->
  walk links who f cur todo = inr d ->
  walk links who g cur todo = inr d.
Proof.
  intros Hfg. pose proof Hfg as (Hdirs & Hlinks & _). revert cur todo.
  induction links as [|links IHlinks]; intros cur todo; revert cur;
    induction todo as [|c rest IHtodo]; intros cur;
    rewrite ?walk_nil, ?walk_cons; auto.
  all: destruct (searchable who f cur) eqn:Hsearch; [|discriminate].
  all: rewrite (searchable_keeps who f g cur Hfg Hsearch); cbn [negb].
  all: destruct (name_too_long c); [discriminate|].
  all: destruct (String.eqb c "."); auto.
  all: destruct (String.eqb c ".."); auto.
  all: destruct (node_at f (cur ++ [c])) as [[m data|m target|m]|] eqn:Hn;
    try discriminate.
  all: first [destruct (Hlinks _ _ _ Hn) as (m' & ->)
             |destruct (Hdirs _ _ Hn) as (m' & -> & _)]; auto.
  all: try discriminate.
  destruct (String.eqb target ""); [discriminate|]. apply IHlinks.
Qed.

Lemma locate_keeps fs (g : gmap (list string) node) (name : string)
    (loc : option (list string * string)) :
  keeps (files fs) g ->
  locate fs name = inr loc ->
  locate (set_files fs g) name = inr loc.
Proof.
  intros Hfg. unfold locate.
  change (cred_of (set_files fs g)) with (cred_of fs).
  change (start (set_files fs g) name) with (start fs name).
  change (files (set_files fs g)) with g.
  destruct (String.eqb name ""); [discriminate|].
  destruct (path_too_long name); [discriminate|].
  destruct (rev (components name)) as [|last rinit]; [auto|].
  destruct (walk MAXSYMLINKS (cred_of fs) (files fs) _ (rev rinit))
    as [e|d] eqn:Hwalk; [discriminate|].
  rewrite (walk_keeps _ _ _ g _ _ _ Hfg Hwalk).
  destruct (searchable (cred_of fs) (files fs) d) eqn:Hsearch; [|discriminate].
  rewrite (searchable_keeps _ _ g d Hfg Hsearch). auto.
Qed.

Lemma resolve_dir_keeps fs (g : gmap (list string) node) (path : string)
    (d : list string) :
  keeps (files fs) g ->
  resolve_dir fs path = inr d ->
  resolve_dir (set_files fs g) path = inr d.
Proof.
  intros Hfg. pose proof Hfg as (Hdirs & _). unfold resolve_dir.
  change (cred_of (set_files fs g)) with (cred_of fs).
  change (start (set_files fs g) path) with (start fs path).
  change (files (set_files fs g)) with g.
  destruct (String.eqb path ""); [discriminate|].
  destruct (path_too_long path); [discriminate|].
  destruct (walk MAXSYMLINKS (cred_of fs) (files fs) _ (components path))
    as [e|d'] eqn:Hwalk; [discriminate|].
  rewrite (walk_keeps _ _ _ g _ _ _ Hfg Hwalk).
  destruct (node_at (files fs) d') as [[?|?|m]|] eqn:Hn; try discriminate.
  destruct (Hdirs _ _ Hn) as (m' & -> & _). auto.
Qed.

Lemma is_dot_false_split (name : string) :
  is_dot name = false ->
  String.eqb name "." = false /\ String.eqb name ".." = false.
Proof. unfold is_dot. apply orb_false_iff. Qed.

(** One more component, the name of a directory, after a walk. *)
Lemma walk_snoc_dir (links : nat) (who : cred) (f : gmap (list string) node)
    (c : string) (m : meta) (d : list string) (cur todo : list string) :
  is_dot c = false ->
  f !! (d ++ [c]) = Some (Dir m) ->
  walk links who f cur todo = inr d ->
  walk links who f cur (todo ++ [c])
  = if negb (searchable who f d) then inl EACCES
    else if name_too_long c then inl ENAMETOOLONG
    else inr (d ++ [c]).
Proof.
  intros Hdot Hdir. destruct (is_dot_false_split _ Hdot) as [Hd1 Hd2].
  revert cur todo.
  induction links as [|links IHlinks]; intros cur todo; revert cur;
    induction todo as [|c0 rest IHtodo]; intros cur;
    cbn [app]; rewrite ?walk_nil, ?(walk_cons _ _ _ _ c0).
  1, 3: intros [= ->]; rewrite walk_cons, Hd1, Hd2, node_at_snoc, Hdir,
          walk_nil; reflexivity.
  all: destruct (negb (searchable who f cur)); [discriminate|].
  all: destruct (name_too_long c0); [discriminate|].
  all: destruct (String.eqb c0 "."); [apply IHtodo|].
  all: destruct (String.eqb c0 ".."); [apply IHtodo|].
  all: destruct (node_at f (cur ++ [c0])) as [[m0 data|m0 target|m0]|];
    try discriminate; try apply IHtodo.
  destruct (String.eqb target ""); [discriminate|].
  rewrite app_assoc. apply IHlinks.
Qed.

Lemma locate_components fs (name : string) (d : list string) (last : string) :
  locate fs name = inr (Some (d, last)) ->
  String.eqb name "" = false /\ path_too_long name = false
  /\ exists init,
       components name = init ++ [last]
       /\ walk MAXSYMLINKS (cred_of fs) (files fs) (start fs name) init = inr d
       /\ searchable (cred_of fs) (files fs) d = true
       /\ name_too_long last = false.
Proof.
  unfold locate. destruct (String.eqb name ""); [discriminate|].
  destruct (path_too_long name); [discriminate|].
  destruct (rev (components name)) as [|l rinit] eqn:Hrev; [discriminate|].
  destruct (walk MAXSYMLINKS (cred_of fs) (files fs) (start fs name) (rev rinit))
    as [e|d'] eqn:Hwalk; [discriminate|].
  destruct (searchable (cred_of fs) (files fs) d') eqn:Hsearch; [|discriminate].
  destruct (name_too_long l) eqn:Hlong; [discriminate|].
  cbn [negb]. intros [= -> ->]. split; [reflexivity|]. split; [reflexivity|].
  exists (rev rinit). repeat split; auto.
  rewrite <- (rev_involutive (components name)), Hrev. reflexivity.
Qed.

(** A path that names a directory entry resolves to it. *)
Lemma resolve_dir_of_locate fs (name : string) (d : list string)
    (last : string) (m : meta) :
  locate fs name = inr (Some (d, last)) ->
  is_dot last = false ->
  files fs !! (d ++ [last]) = Some (Dir m) ->
  resolve_dir fs name = inr (d ++ [last]).
Proof.
  intros Hloc Hdot Hdir.
  destruct (locate_components fs name d last Hloc)
    as (Hne & Hlen & init & Hcomp & Hwalk & Hsearch & Hlong).
  unfold resolve_dir. rewrite Hne, Hlen, Hcomp.
  rewrite (walk_snoc_dir _ _ _ last m d _ _ Hdot Hdir Hwalk).
  rewrite Hsearch, Hlong. cbn [negb]. rewrite node_at_snoc, Hdir. reflexivity.
Qed.



(** What a plain path names. *)
Lemma named_of_locate fs (name : string) (d : list string) (last : string) :
  locate fs name = inr (Some (d, last)) ->
  is_dot last = false -> ends_slash name = false ->
  named fs name = inr (d ++ [last]).
Proof.
  intros Hloc Hdot Hslash. unfold named. rewrite Hslash, Hloc.
  destruct (is_dot_false_split _ Hdot) as [-> ->]. reflexivity.
Qed.

(** *** The entries of a directory *)

Lemma child_name_spec (d k : list string) (name : string) :
  child_name d k = Some name <-> k = d ++ [name].
Proof.
  revert k. induction d as [|x d IH]; intros k.
  - destruct k as [|y [|z k]]; simpl; split; congruence.
  - destruct k as [|y k]; simpl; [split; congruence|].
    destruct (String.eqb x y) eqn:Hxy.
    + apply String.eqb_eq in Hxy. subst y. rewrite IH. split; congruence.
    + apply String.eqb_neq in Hxy. split; congruence.
Qed.

(** The entries of a directory are the files one component below it. *)
Lemma children_spec (f : gmap (list string) node) (d : list string)
    (name : string) (n : node) :
  In (name, n) (children f d) <-> f !! (d ++ [name]) = Some n.
Proof.
  unfold children. rewrite <- list_elem_of_In, list_elem_of_omap. split.
  - intros ([k v] & Hin & Hsome). apply elem_of_map_to_list in Hin.
    cbn [fst snd] in Hsome.
    destruct (child_name d k) as [c|] eqn:Hc; [|discriminate].
    injection Hsome as -> ->. apply child_name_spec in Hc. subst k. exact Hin.
  - intros Hlook. exists (d ++ [name], n). split.
    + apply elem_of_map_to_list. exact Hlook.
    + cbn [fst snd].
      rewrite (proj2 (child_name_spec d (d ++ [name]) name) eq_refl).
      reflexivity.
Qed.

Lemma children_none (f : gmap (list string) node) (d : list string) :
  children f d = [] -> forall c, f !! (d ++ [c]) = None.
Proof.
  intros Hnone c. destruct (f !! (d ++ [c])) as [n|] eqn:Hn; [|reflexivity].
  apply children_spec in Hn. rewrite Hnone in Hn. destruct Hn.
Qed.

(** *** What a successful call did *)

Lemma fopen_wx_inr fs (name : string) fs1 :
  fopen_wx fs name = inr fs1 ->
  exists d last dm,
    locate fs name = inr (Some (d, last))
    /\ is_dot last = false /\ ends_slash name = false
    /\ files fs !! (d ++ [last]) = None
    /\ node_at (files fs) d = Some (Dir dm)
    /\ permitted (cred_of fs) dm 2 = true
    /\ fs1 = set_files fs
               (touch d (now fs)
                  (<[d ++ [last] := new_file fs dm]> (files fs))).
Proof.
  unfold fopen_wx.
  destruct (locate fs name) as [e|[[d last]|]] eqn:Hloc; try discriminate.
  destruct (String.eqb last "." || String.eqb last "..") eqn:Hdot;
    [discriminate|].
  destruct (ends_slash name) eqn:Hslash; [discriminate|].
  rewrite node_at_snoc.
  destruct (files fs !! (d ++ [last])) eqn:Hfree; [discriminate|].
  destruct (node_at (files fs) d) as [[?|?|dm]|] eqn:Hdir; try discriminate.
  destruct (permitted (cred_of fs) dm 2) eqn:Hperm; [|discriminate].
  intros [= <-]. exists d, last, dm. repeat split; auto.
Qed.

Lemma remove_inr fs (name : string) fs1 :
  remove fs name = inr fs1 ->
  exists d last n dm,
    locate fs name = inr (Some (d, last))
    /\ is_dot last = false
    /\ files fs !! (d ++ [last]) = Some n
    /\ (dtype_of n = DT_DIR \/ ends_slash name = false)
    /\ (dtype_of n = DT_DIR -> children (files fs) (d ++ [last]) = [])
    /\ node_at (files fs) d = Some (Dir dm)
    /\ permitted (cred_of fs) dm 2 = true
    /\ may_unlink (cred_of fs) dm n = true
    /\ fs1 = set_files fs
               (touch d (now fs) (delete (d ++ [last]) (files fs))).
Proof.
  unfold remove.
  destruct (locate fs name) as [e|[[d last]|]] eqn:Hloc; try discriminate.
  destruct (String.eqb last ".") eqn:Hd1; [discriminate|].
  destruct (String.eqb last "..") eqn:Hd2; [discriminate|].
  rewrite node_at_snoc.
  destruct (files fs !! (d ++ [last])) as [n|] eqn:Hn; [|discriminate].
  destruct (negb (dtype_eqb (dtype_of n) DT_DIR) && ends_slash name) eqn:Hkind;
    [discriminate|].
  destruct (node_at (files fs) d) as [[?|?|dm]|] eqn:Hdir; try discriminate.
  destruct (permitted (cred_of fs) dm 2) eqn:Hperm; [|discriminate].
  destruct (may_unlink (cred_of fs) dm n) eqn:Hsticky; [|discriminate].
  cbn [negb]. intros Hrm.
  assert (Hdot : is_dot last = false)
    by (unfold is_dot; rewrite Hd1, Hd2; reflexivity).
  exists d, last, n, dm.
  split; [reflexivity|]. split; [exact Hdot|]. split; [exact Hn|].
  split.
  { apply andb_false_iff in Hkind. destruct Hkind as [Hkind|Hkind]; [|auto].
    left. apply negb_false_iff, dtype_eqb_eq in Hkind. exact Hkind. }
  split.
  { intros Hty. destruct n as [?|?|m]; try discriminate.
    destruct (children (files fs) (d ++ [last])); [reflexivity|discriminate]. }
  split; [first [reflexivity|exact Hdir]|].
  split; [first [reflexivity|exact Hperm]|].
  split; [first [reflexivity|exact Hsticky]|].
  destruct n as [?|?|m]; try (injection Hrm as <-; reflexivity).
  destruct (children (files fs) (d ++ [last])); [|discriminate].
  injection Hrm as <-. reflexivity.
Qed.

Lemma chdir_inr fs (path : string) fs1 :
  chdir fs path = inr fs1 ->
  exists d,
    resolve_dir fs path = inr d
    /\ searchable (cred_of fs) (files fs) d = true
    /\ fs1 = set_cwd fs d.
Proof.
  unfold chdir. destruct (resolve_dir fs path) as [e|d]; [discriminate|].
  destruct (searchable (cred_of fs) (files fs) d) eqn:Hs; [|discriminate].
  intros [= <-]. eauto.
Qed.





(** *** [deleteFile] *)

(** A directory that has an entry is not removed, whatever the path that
    names it. *)
Lemma remove_directory_with_entry fs (name : string) (k : list string)
    (m : meta) (c : string) (n : node) :
  named fs name = inr k ->
  node_at (files fs) k = Some (Dir m) ->
  files fs !! (k ++ [c]) = Some n ->
  exists e, remove fs name = inl e.
Proof.
  intros Hnamed Hdir Hentry. unfold remove.
  destruct (locate fs name) as [e|[[d last]|]] eqn:Hloc; [eauto| |eauto].
  destruct (String.eqb last ".") eqn:Hd1; [eauto|].
  destruct (String.eqb last "..") eqn:Hd2; [eauto|].
  assert (Hdot : is_dot last = false)
    by (unfold is_dot; rewrite Hd1, Hd2; reflexivity).
  rewrite node_at_snoc.
  destruct (files fs !! (d ++ [last])) as [n0|] eqn:Hn0; [|eauto].
  destruct (negb (dtype_eqb (dtype_of n0) DT_DIR) && ends_slash name) eqn:Hkind;
    [eauto|].
  destruct (node_at (files fs) d) as [[?|?|dm]|]; eauto.
  destruct (negb (permitted (cred_of fs) dm 2)); [eauto|].
  destruct (negb (may_unlink (cred_of fs) dm n0)); [eauto|].
  assert (Hk : k = d ++ [last]).
  { destruct (ends_slash name) eqn:Hslash.
    - rewrite andb_true_r in Hkind. apply negb_false_iff, dtype_eqb_eq in Hkind.
      destruct n0 as [?|?|m0]; try discriminate.
      unfold named in Hnamed. rewrite Hslash in Hnamed.
      rewrite (resolve_dir_of_locate fs name d last m0 Hloc Hdot Hn0) in Hnamed.
      congruence.
    - rewrite (named_of_locate fs name d last Hloc Hdot Hslash) in Hnamed.
      congruence. }
  subst k. rewrite node_at_snoc, Hn0 in Hdir. injection Hdir as ->.
  apply children_spec in Hentry.
  destruct (children (files fs) (d ++ [last])); [destruct Hentry|eauto].
Qed.

(** C1, as amended: [deleteFile] makes one [remove] call and nothing
    else, and reports by its outcome: when the call fails the system is
    left as it was and the failure text goes to the error stream in place
    of the confirmation; when it succeeds the confirmation is printed.
    For a name that denotes a directory with an entry the call fails, so
    neither the directory nor anything below it is removed.  A call that
    succeeds has removed one entry, the one the name denotes, a final
    symbolic link not followed; when that entry is a directory, which
    [remove] takes away with [rmdir], it had no entries.  Nothing else has
    changed but the modification time of the directory that held the
    entry. *)
Theorem deleteFile_directory fs (name : string) p :
  world p = fs ->
  let p1 := deleteFile name p in
  calls p1 = calls p ++ [Remove name]
  /\ (forall e, remove fs name = inl e ->
        world p1 = fs
        /\ cout p1 = cout p
        /\ cerr p1 = cerr p ++ ["remove failed: " +:+ strerror e +:+ nl])
  /\ (forall fs', remove fs name = inr fs' ->
        world p1 = fs'
        /\ cout p1 = cout p ++ ["Deleted: " +:+ name +:+ nl]
        /\ cerr p1 = cerr p)
  /\ (forall k m c n,
        named fs name = inr k ->
        node_at (files fs) k = Some (Dir m) ->
        files fs !! (k ++ [c]) = Some n ->
        exists e, remove fs name = inl e)
  /\ (forall fs', remove fs name = inr fs' ->
        exists d last n,
          named fs name = inr (d ++ [last])
          /\ files fs !! (d ++ [last]) = Some n
          /\ files fs' = touch d (now fs) (delete (d ++ [last]) (files fs))
          /\ files fs' !! (d ++ [last]) = None
          /\ (forall k, k <> d ++ [last] -> k <> d ->
                files fs' !! k = files fs !! k)
          /\ cwd fs' = cwd fs
          /\ (dtype_of n = DT_DIR ->
              forall c, files fs !! ((d ++ [last]) ++ [c]) = None)).
Proof.
  intros Hw p1. split; [apply deleteFile_calls|].
  split; [|split; [|split]].
  - intros e Hrm. unfold p1, deleteFile. cbn [call world sys_remove kernel].
    rewrite Hw, Hrm. cbn. rewrite Hw. auto.
  - intros fs' Hrm. unfold p1, deleteFile. cbn [call world sys_remove kernel].
    rewrite Hw, Hrm. cbn. auto.
  - apply remove_directory_with_entry.
  - intros fs' Hrm.
    destruct (remove_inr fs name fs' Hrm)
      as (d & last & n & dm & Hloc & Hdot & Hn & Hkind & Hempty & _ & _ & _
          & Hfs').
    exists d, last, n. split.
    { destruct Hkind as [Hty|Hslash].
      - destruct n as [?|?|m]; try discriminate.
        destruct (ends_slash name) eqn:Hslash.
        + unfold named. rewrite Hslash.
          exact (resolve_dir_of_locate fs name d last m Hloc Hdot Hn).
        + exact (named_of_locate fs name d last Hloc Hdot Hslash).
      - exact (named_of_locate fs name d last Hloc Hdot Hslash). }
    split; [exact Hn|]. split; [rewrite Hfs'; reflexivity|]. split.
    { rewrite Hfs'. cbn [set_files files].
      rewrite touch_lookup_ne by apply snoc_ne. apply lookup_delete_eq. }
    split.
    { intros k Hk Hkd. rewrite Hfs'. cbn [set_files files].
      rewrite touch_lookup_ne by exact Hkd.
      apply lookup_delete_ne. congruence. }
    split; [rewrite Hfs'; reflexivity|].
    intros Hty. apply children_none. exact (Hempty Hty).
Qed.

(** *** [changeDirectory] *)

(** X1: what holds of [changeDirectory] whatever the length of the path.
    A failing [chdir] leaves the system, the working directory with it, as
    it was and is reported on the error stream; a successful one moves to
    the directory the path resolves to, from the previous working directory
    when the path is relative.  That directory is printed when its text and
    the final zero byte fit the 512 bytes of the buffer; otherwise the line
    shows what the buffer held before.  The call fails when the path does
    not resolve to a directory, with the reason of that, and when the
    directory it resolves to may not be searched; it succeeds otherwise. *)
Theorem changeDirectory_atomic fs (path : string) p :
  world p = fs ->
  (forall e, chdir fs path = inl e ->
     world (changeDirectory path p) = fs
     /\ cout (changeDirectory path p) = cout p
     /\ cerr (changeDirectory path p)
        = cerr p ++ ["chdir failed: " +:+ strerror e +:+ nl])
  /\ (forall fs', chdir fs path = inr fs' ->
        exists d,
          resolve_dir fs path = inr d
          /\ fs' = set_cwd fs d
          /\ world (changeDirectory path p) = set_cwd fs d
          /\ cerr (changeDirectory path p) = cerr p
          /\ ((String.length (cwd_text (set_cwd fs d)) < 512)%nat ->
              cout (changeDirectory path p)
              = cout p ++ ["Changed directory to: "
                           +:+ cwd_text (set_cwd fs d) +:+ nl])
          /\ ((512 <= String.length (cwd_text (set_cwd fs d)))%nat ->
              cout (changeDirectory path p)
              = cout p ++ ["Changed directory to: " +:+ garbage p +:+ nl]))
  /\ (forall e, resolve_dir fs path = inl e -> chdir fs path = inl e)
  /\ (forall d, resolve_dir fs path = inr d ->
        chdir fs path
        = if searchable (cred_of fs) (files fs) d then inr (set_cwd fs d)
          else inl EACCES).
Proof.
  intros Hw. split; [|split; [|split]].
  3: { intros e Hres. unfold chdir. rewrite Hres. reflexivity. }
  3: { intros d Hres. unfold chdir. rewrite Hres. reflexivity. }
  - intros e Hch. unfold changeDirectory.
    cbn [call world sys_chdir kernel]. rewrite Hw, Hch.
    cbn. rewrite Hw. auto.
  - intros fs' Hch.
    destruct (chdir_inr fs path fs' Hch) as (d & Hres & _ & ->).
    exists d. split; [exact Hres|]. split; [reflexivity|].
    unfold changeDirectory.
    cbn [call world sys_chdir kernel]. rewrite Hw, Hch.
    cbn [set_world call world print_out cout cerr sys_getcwd kernel garbage].
    split; [reflexivity|]. split; [reflexivity|].
    unfold getcwd. cbn [set_cwd files cwd].
    unfold resolve_dir in Hres.
    destruct (String.eqb path ""); [discriminate|].
    destruct (path_too_long path); [discriminate|].
    destruct (walk MAXSYMLINKS (cred_of fs) (files fs) (start fs path)
                (components path)) as [e|d']; [discriminate|].
    destruct (node_at (files fs) d') as [[?|?|?]|] eqn:Hnode; try discriminate.
    injection Hres as ->. rewrite Hnode. cbn [set_cwd]. split.
    + intros Hlen. apply Nat.ltb_lt in Hlen. rewrite Hlen. reflexivity.
    + intros Hlen. apply Nat.ltb_ge in Hlen. rewrite Hlen. reflexivity.
Qed.

(** C7, at a directory whose path does not fit the buffer: [chdir]
    succeeds and the working directory is the new one, but [getcwd] fails
    with [ERANGE], its result is not looked at, and the line printed shows
    whatever the uninitialised buffer held ([junk], at most 511 bytes
    before a zero byte when the read stays inside the buffer), not the
    working directory. *)
Theorem changeDirectory_long_path_prints_buffer (junk : string) :
  let p := changeDirectory (string_fill 200 "c")
             (Proc Examples.deep [] [] [] junk) in
  cwd (world p)
  = [string_fill 200 "a"; string_fill 200 "b"; string_fill 200 "c"]
  /\ String.length (cwd_text (world p)) = 603%nat
  /\ sys_getcwd (world p) 512 = inl ERANGE
  /\ cerr p = []
  /\ cout p = ["Changed directory to: " +:+ junk +:+ nl]
  /\ ((String.length junk < 512)%nat ->
      cout p <> ["Changed directory to: " +:+ cwd_text (world p) +:+ nl]).
Proof.
  cbv zeta.
  set (p := changeDirectory (string_fill 200 "c")
              (Proc Examples.deep [] [] [] junk)).
  assert (Hlen : String.length (cwd_text (world p)) = 603%nat)
    by (vm_compute; reflexivity).
  assert (Hout : cout p = ["Changed directory to: " +:+ junk +:+ nl])
    by (vm_compute; reflexivity).
  split; [vm_compute; reflexivity|]. split; [exact Hlen|].
  split; [vm_compute; reflexivity|]. split; [vm_compute; reflexivity|].
  split; [exact Hout|].
  intros Hjunk. rewrite Hout. clearbody p.
  generalize (cwd_text (world p)) Hlen. intros text Htext [= Heq].
  apply (f_equal String.length) in Heq.
  rewrite !string_length_app, Htext in Heq. simpl in Heq. lia.
Qed.

(** *** Where the wording of the specification fails *)

(** C1 as stated fails: [empty] is a directory, and [deleteFile] removes
    it and prints the confirmation. *)
Lemma deleteFile_removes_empty_directory :
  let p := deleteFile "empty" (Examples.boot Examples.home) in
  (exists st, sys_lstat Examples.home "empty" = inr st
              /\ S_ISDIR (st_mode st) = true)
  /\ cout p = ["Deleted: empty" +:+ nl]
  /\ cerr p = []
  /\ sys_lstat (world p) "empty" = inl ENOENT.
Proof.
  cbv zeta. split; [|evaluate].
  eexists. split; vm_compute; reflexivity.
Qed.


End MemFSFacts.

(** ** The entries [MemFS] lists *)

Module MemFSNames.

Import MemFS MemFSShape MemFSFacts.

Implicit Types (fs : fsys) (p : proc fsys).

Lemma plain_names_removelast (k : list string) :
  plain_names k -> plain_names (removelast k).
Proof.
  unfold plain_names. induction k as [|c k IH]; intros Hk; [exact Hk|].
  simpl. destruct k as [|c' k]; [constructor|].
  inversion Hk; subst. constructor; auto.
Qed.

Lemma walk_plain_names (links : nat) (who : cred)
    (f : gmap (list string) node) (cur todo d : list string) :
  (forall k n, f !! k = Some n -> plain_names k) ->
  plain_names cur ->
  walk links who f cur todo = inr d ->
  plain_names d.
Proof.
  intros Hf. revert cur todo.
  induction links as [|links IHlinks]; intros cur todo; revert cur;
    induction todo as [|c rest IHtodo]; intros cur Hcur;
    rewrite ?walk_nil, ?walk_cons; try (intros [= <-]; exact Hcur).
  all: destruct (negb (searchable who f cur)); [discriminate|].
  all: destruct (name_too_long c); [discriminate|].
  all: destruct (String.eqb c "."); [apply IHtodo; exact Hcur|].
  all: destruct (String.eqb c "..");
    [apply IHtodo, plain_names_removelast; exact Hcur|].
  all: rewrite node_at_snoc.
  all: destruct (f !! (cur ++ [c])) as [[m data|m target|m]|] eqn:Hn;
    try discriminate; try (apply IHtodo; exact (Hf _ _ Hn)).
  destruct (String.eqb target ""); [discriminate|].
  apply IHlinks. destruct (is_absolute target); [constructor|exact Hcur].
Qed.

Lemma locate_plain_names fs (name : string) (d : list string) (last : string) :
  well_named fs -> locate fs name = inr (Some (d, last)) -> plain_names d.
Proof.
  intros [Hf Hcwd] Hloc.
  destruct (locate_components fs name d last Hloc)
    as (_ & _ & init & _ & Hwalk & _).
  eapply walk_plain_names; [exact Hf| |exact Hwalk].
  unfold start. destruct (is_absolute name); [constructor|exact Hcwd].
Qed.

(** [touch] adds no name. *)
Lemma touch_lookup_Some (d k : list string) (t : Z)
    (f : gmap (list string) node) (n : node) :
  touch d t f !! k = Some n -> k = d \/ f !! k = Some n.
Proof.
  destruct (decide (k = d)) as [->|Hne]; [auto|].
  rewrite touch_lookup_ne by exact Hne. auto.
Qed.

(** The three calls that change the system keep the names plain. *)
Lemma fopen_wx_well_named fs fs' (name : string) :
  well_named fs -> fopen_wx fs name = inr fs' -> well_named fs'.
Proof.
  intros Hwf Hcall.
  destruct (fopen_wx_inr fs name fs' Hcall)
    as (d & last & dm & Hloc & Hdot & _ & _ & _ & _ & ->).
  pose proof (locate_plain_names fs name d last Hwf Hloc) as Hd.
  destruct Hwf as [Hf Hcwd]. split; [|exact Hcwd].
  cbn [set_files files]. intros k n Hk.
  apply touch_lookup_Some in Hk. destruct Hk as [->|Hk]; [exact Hd|].
  destruct (decide (k = d ++ [last])) as [->|Hne].
  - apply Forall_app. split; [exact Hd|]. constructor; [exact Hdot|constructor].
  - rewrite lookup_insert_ne in Hk by congruence. exact (Hf _ _ Hk).
Qed.

Lemma remove_well_named fs fs' (name : string) :
  well_named fs -> remove fs name = inr fs' -> well_named fs'.
Proof.
  intros Hwf Hcall.
  destruct (remove_inr fs name fs' Hcall)
    as (d & last & n & dm & Hloc & _ & _ & _ & _ & _ & _ & _ & ->).
  pose proof (locate_plain_names fs name d last Hwf Hloc) as Hd.
  destruct Hwf as [Hf Hcwd]. split; [|exact Hcwd].
  cbn [set_files files]. intros k n' Hk.
  apply touch_lookup_Some in Hk. destruct Hk as [->|Hk]; [exact Hd|].
  apply lookup_delete_Some in Hk. destruct Hk as [_ Hk]. exact (Hf _ _ Hk).
Qed.

Lemma chdir_well_named fs fs' (path : string) :
  well_named fs -> chdir fs path = inr fs' -> well_named fs'.
Proof.
  intros [Hf Hcwd] Hcall.
  destruct (chdir_inr fs path fs' Hcall) as (d & Hres & _ & ->).
  split; [exact Hf|]. cbn [set_cwd cwd].
  revert Hres. unfold resolve_dir, start.
  destruct (String.eqb path ""); [discriminate|].
  destruct (path_too_long path); [discriminate|].
  destruct (walk MAXSYMLINKS (cred_of fs) (files fs) _ (components path))
    as [e|d'] eqn:Hwalk; [discriminate|].
  destruct (node_at (files fs) d') as [[?|?|?]|]; try discriminate.
  intros [= <-]. eapply walk_plain_names; [exact Hf| |exact Hwalk].
  destruct (is_absolute path); [constructor|exact Hcwd].
Qed.

(** A directory holds a name once. *)
Lemma children_names_distinct (f : gmap (list string) node) (d : list string) :
  List.NoDup (List.map fst (children f d)).
Proof.
  unfold children. pose proof (NoDup_fst_map_to_list f) as Hkeys.
  apply NoDup_ListNoDup in Hkeys.
  induction (map_to_list f) as [|[k v] l IH]; [constructor|].
  cbn [fmap list_fmap fst] in Hkeys. inversion Hkeys as [|? ? Hk Hl]; subst.
  cbn [omap list_omap fst snd].
  destruct (child_name d k) as [name|] eqn:Hname; [|apply IH; exact Hl].
  cbn [List.map fst]. constructor; [|apply IH; exact Hl].
  intros Hin. apply Hk. apply List.in_map_iff in Hin.
  destruct Hin as ([name' v'] & Heq & Hin). cbn [fst] in Heq. subst name'.
  apply list_elem_of_In, list_elem_of_omap in Hin.
  destruct Hin as ([k' v''] & Hin' & Hsome). cbn [fst snd] in Hsome.
  destruct (child_name d k') as [name'|] eqn:Hname'; [|discriminate].
  injection Hsome as -> ->.
  apply child_name_spec in Hname, Hname'. subst k k'.
  apply List.in_map_iff. exists (d ++ [name], v'). split; [reflexivity|].
  apply list_elem_of_In. exact Hin'.
Qed.

(** What [opendir] yields for a directory that opens: ["."], [".."] and
    the entries of the tree one component below it, each once. *)
Lemma opendir_entries fs (path : string) (dir : list dirent) :
  well_named fs ->
  opendir fs path = inr dir ->
  exists d,
    resolve_dir fs path = inr d
    /\ List.NoDup (List.map d_name dir)
    /\ forall name,
         (In name (List.map d_name dir) /\ is_dot name = false)
         <-> is_Some (files fs !! (d ++ [name])).
Proof.
  intros [Hf Hcwd]. unfold opendir.
  destruct (resolve_dir fs path) as [e|d] eqn:Hres; [discriminate|].
  destruct (node_at (files fs) d) as [[?|?|m]|]; try discriminate.
  destruct (permitted (cred_of fs) m 4); [|discriminate]. intros [= <-].
  exists d. split; [reflexivity|].
  assert (Hchild : forall name,
             In name (List.map fst (children (files fs) d))
             <-> is_Some (files fs !! (d ++ [name]))).
  { intros name. rewrite List.in_map_iff. split.
    - intros ([name' n] & Heq & Hin). cbn [fst] in Heq. subst name'.
      apply children_spec in Hin. eauto.
    - intros [n Hn]. exists (name, n). split; [reflexivity|].
      apply children_spec. exact Hn. }
  assert (Hplain : forall name,
             is_Some (files fs !! (d ++ [name])) -> is_dot name = false).
  { intros name [n Hn]. apply Hf in Hn. apply Forall_app in Hn.
    destruct Hn as [_ Hn]. inversion Hn; assumption. }
  cbn [List.map d_name]. rewrite List.map_map. cbn [d_name].
  split.
  - constructor.
    { intros [Heq|Hin]; [discriminate|].
      apply Hchild, Hplain in Hin. discriminate. }
    constructor; [|apply children_names_distinct].
    intros Hin. apply Hchild, Hplain in Hin. discriminate.
  - intros name. rewrite <- Hchild. split.
    + intros [[<-|[<-|Hin]] Hdot]; try discriminate. exact Hin.
    + intros Hin. split; [right; right; exact Hin|].
      apply Hplain, Hchild. exact Hin.
Qed.

(** X2: the plain listing over [MemFS]: the names printed are the entries
    the file tree holds one component below the directory the path resolves
    to, each once, in strictly ascending byte-wise order. *)
Theorem listFiles_prints_the_entries fs (path : string) (dir : list dirent) p :
  world p = fs ->
  well_named fs ->
  opendir fs path = inr dir ->
  exists d names,
    resolve_dir fs path = inr d
    /\ cout (listFiles path false p)
       = cout p ++ (nl +:+ "Contents of " +:+ path +:+ ":" +:+ nl)
                   :: List.map name_line names
    /\ (forall name, In name names <-> is_Some (files fs !! (d ++ [name])))
    /\ List.NoDup names
    /\ StronglySorted string_lt names.
Proof.
  intros Hw Hwf Hopen.
  destruct (opendir_entries fs path dir Hwf Hopen) as (d & Hres & Hnd & Hnames).
  destruct (listFiles_plain_opened path dir p)
    as (names & Hout & _ & _ & Hin & _ & Hstrict).
  { rewrite Hw. exact Hopen. }
  exists d, names. split; [exact Hres|]. split; [exact Hout|].
  split; [|exact (Hstrict Hnd)].
  intros name. rewrite Hin, <- Hnames, List.in_map_iff. split.
  - intros (Hentry & Hd1 & Hd2). split; [destruct Hentry as (e & ? & ?); eauto|].
    destruct (is_dot name) eqn:Hdot; [|reflexivity].
    apply is_dot_spec in Hdot. tauto.
  - intros [(e & Hname & Hentry) Hdot]. split; [eauto|].
    split; intros ->; discriminate.
Qed.

End MemFSNames.

(** ** The theorems at work on the sample systems *)

Module Witnesses.

Import MemFS Examples.

Lemma home_opens : sys_opendir home "." = inr home_entries.
Proof. vm_compute. reflexivity. Qed.

Lemma home_entries_distinct : List.NoDup (List.map d_name home_entries).
Proof.
  apply NoDup_ListNoDup.
  apply (bool_decide_unpack (NoDup (List.map d_name home_entries))).
  vm_compute. exact I.
Qed.

(** The plain listing of [home]: five names, sorted. *)
Lemma listFiles_plain_sorted_children_witness :
  exists names,
    cout (listFiles "." false (boot home))
    = (nl +:+ "Contents of " +:+ "." +:+ ":" +:+ nl) :: List.map name_line names
    /\ List.NoDup names
    /\ StronglySorted string_lt names.
Proof.
  destruct (proj1 (listFiles_plain_sorted_children "." (boot home))
              home_entries home_opens)
    as (names & Hout & _ & _ & _ & _ & Hstrict).
  exists names. split; [exact Hout|]. exact (Hstrict home_entries_distinct).
Defined.

(** [vault] may not be read: the search leaves it without a trace, and
    [docs], listed after it, is searched all the same. *)
Lemma searchFile_skips_unopenable_witness :
  (exists p',
      searchFile 1 "./vault" "notes.txt" (boot home) = Some p'
      /\ cout p' = [] /\ cerr p' = [] /\ world p' = home)
  /\ option_map console
       (readdir_loop (search_entry (searchFile 1) "." "notes.txt")
          ([Dirent "." DT_DIR; Dirent ".." DT_DIR; Dirent "empty" DT_DIR;
            Dirent "notes.txt" DT_REG; Dirent "shortcut" DT_LNK]
           ++ Dirent "vault" DT_DIR :: [Dirent "docs" DT_DIR])
          (boot home))
     = option_map console
         (readdir_loop (search_entry (searchFile 1) "." "notes.txt")
            ([Dirent "." DT_DIR; Dirent ".." DT_DIR; Dirent "empty" DT_DIR;
              Dirent "notes.txt" DT_REG; Dirent "shortcut" DT_LNK]
             ++ [Dirent "docs" DT_DIR])
            (boot home)).
Proof.
  assert (Hopen : sys_opendir (world (boot home)) "./vault" = inl EACCES)
    by (vm_compute; reflexivity).
  destruct (searchFile_skips_unopenable 0 "./vault" "notes.txt" (boot home)
              EACCES Hopen) as [Hroot Hsiblings].
  split; [exact Hroot|].
  apply (Hsiblings "." (Dirent "vault" DT_DIR)); reflexivity.
Defined.


(** Every line of a run over [home] is a match, and the run is the
    scan of [home]. *)
Lemma searchFile_reports_every_match_witness :
  exists lines opened,
    scan home "notes.txt" "." lines opened
    /\ option_map cout (searchFile 2 "." "notes.txt" (boot home))
       = Some (List.map found_line lines)
    /\ forall f, In f lines <-> hit home "notes.txt" "." f.
Proof.
  destruct (searchFile 2 "." "notes.txt" (boot home)) as [p'|] eqn:Hrun;
    [|vm_compute in Hrun; discriminate].
  destruct (proj1 searchFile_reports_every_match fsys kernel 2%nat "."
              "notes.txt" (boot home) p' Hrun)
    as (lines & opened & Hscan & Hout & _ & Hhits).
  exists lines, opened. split; [exact Hscan|]. split; [|exact Hhits].
  simpl. rewrite Hout. reflexivity.
Defined.

Lemma spec_tree_well_founded :
  Acc (fun q d => subdir spec_tree d q) "root".
Proof.
  constructor. intros q (dir & entry & Hopen & Hin & Hdot & Hty & ->).
  vm_compute in Hopen. injection Hopen as <-.
  destruct Hin as [<-|[<-|[<-|[<-|[]]]]]; try discriminate.
  clear Hdot Hty.
  constructor. intros q (dir & entry & Hopen & Hin & Hdot & Hty & ->).
  vm_compute in Hopen. injection Hopen as <-.
  destruct Hin as [<-|[<-|[<-|[<-|[]]]]]; discriminate.
Qed.

(** The tree of the specification is searched to the end. *)
Lemma searchFile_terminates_witness :
  exists fuel p',
    searchFile fuel "root" "a.txt" (boot spec_tree) = Some p'
    /\ forall more,
         searchFile (fuel + more) "root" "a.txt" (boot spec_tree) = Some p'.
Proof.
  exact (searchFile_terminates "root" "a.txt" (boot spec_tree)
           spec_tree_well_founded).
Defined.

(** [docs] has entries and stays; the failure is reported. *)
Lemma deleteFile_directory_witness :
  exists e,
    world (deleteFile "docs" (boot home)) = home
    /\ cout (deleteFile "docs" (boot home)) = []
    /\ cerr (deleteFile "docs" (boot home))
       = ["remove failed: " +:+ strerror e +:+ nl].
Proof.
  assert (Hnamed : named home "docs" = inr (["home"] ++ ["docs"]))
    by (vm_compute; reflexivity).
  assert (Hdir : node_at (files home) (["home"] ++ ["docs"])
                 = Some (Dir dir_meta))
    by (vm_compute; reflexivity).
  assert (Hentry : files home !! ((["home"] ++ ["docs"]) ++ ["notes.txt"])
                   = Some (Reg file_meta ""))
    by (vm_compute; reflexivity).
  pose proof (MemFSFacts.deleteFile_directory home "docs" (boot home) eq_refl)
    as Hdel.
  cbv zeta in Hdel. destruct Hdel as (_ & Hfail & _ & Hfull & _).
  destruct (Hfull _ _ _ _ Hnamed Hdir Hentry) as [e He].
  exists e. exact (Hfail e He).
Defined.


Lemma home_well_named : well_named home.
Proof.
  split.
  - assert (Hall : map_Forall (fun k _ => plain_names k) (files home)).
    { apply (bool_decide_unpack
               (map_Forall (fun k _ => plain_names k) (files home))).
      vm_compute. exact I. }
    intros k n Hk. exact (Hall k n Hk).
  - apply (bool_decide_unpack (plain_names (cwd home))). vm_compute. exact I.
Qed.

(** From [home], [docs] is entered and [nowhere] is not. *)
Lemma changeDirectory_atomic_witness :
  cwd (world (changeDirectory "docs" (boot home))) = ["home"; "docs"]
  /\ cout (changeDirectory "docs" (boot home))
     = ["Changed directory to: /home/docs" +:+ nl]
  /\ world (changeDirectory "nowhere" (boot home)) = home
  /\ cerr (changeDirectory "nowhere" (boot home))
     = ["chdir failed: " +:+ strerror ENOENT +:+ nl].
Proof.
  destruct (MemFSFacts.changeDirectory_atomic home "docs" (boot home) eq_refl)
    as (_ & Hok & _).
  destruct (MemFSFacts.changeDirectory_atomic home "nowhere" (boot home) eq_refl)
    as (Hfail & _).
  assert (Hdocs : chdir home "docs" = inr (set_cwd home ["home"; "docs"]))
    by (vm_compute; reflexivity).
  assert (Hnowhere : chdir home "nowhere" = inl ENOENT)
    by (vm_compute; reflexivity).
  destruct (Hok _ Hdocs) as (d & Hres & Hset & Hworld & _ & Hout & _).
  assert (Hd : d = ["home"; "docs"]).
  { assert (Hr : resolve_dir home "docs" = inr ["home"; "docs"])
      by (vm_compute; reflexivity).
    congruence. }
  subst d.
  destruct (Hfail _ Hnowhere) as (Hsame & _ & Herr).
  split; [rewrite Hworld; reflexivity|].
  split; [apply Hout; vm_compute; lia|].
  split; [exact Hsame|exact Herr].
Defined.

(** The listing of [home] shows the five entries of [/home]. *)
Lemma listFiles_prints_the_entries_witness :
  exists names,
    cout (listFiles "." false (boot home))
    = (nl +:+ "Contents of " +:+ "." +:+ ":" +:+ nl) :: List.map name_line names
    /\ (forall name, In name names <-> is_Some (files home !! (["home"] ++ [name])))
    /\ StronglySorted string_lt names.
Proof.
  destruct (MemFSNames.listFiles_prints_the_entries home "." home_entries
              (boot home) eq_refl home_well_named home_opens)
    as (d & names & Hres & Hout & Hin & _ & Hsorted).
  assert (Hd : d = ["home"]).
  { assert (Hhome : resolve_dir home "." = inr ["home"])
      by (vm_compute; reflexivity).
    congruence. }
  subst d. exists names. split; [exact Hout|]. split; [exact Hin|exact Hsorted].
Defined.

End Witnesses.

(** ** Standard input *)

Module CinFacts.

Import Cin.

Lemma is_digit_not_space (c : ascii) : is_digit c = true -> is_space c = false.
Proof.
  unfold is_digit, is_space. generalize (nat_of_ascii c). intros n Hd.
  apply andb_true_iff in Hd. destruct Hd as [H1 H2].
  apply Nat.leb_le in H1. apply Nat.leb_le in H2.
  apply orb_false_iff. split.
  - apply andb_false_iff. right. apply Nat.leb_gt. lia.
  - apply Nat.eqb_neq. lia.
Qed.

Lemma is_space_not_digit (c : ascii) : is_space c = true -> is_digit c = false.
Proof.
  intros Hs. destruct (is_digit c) eqn:Hd; [|reflexivity].
  apply is_digit_not_space in Hd. congruence.
Qed.

Lemma is_digit_not_sign (c : ascii) :
  is_digit c = true -> Ascii.eqb c "-" = false /\ Ascii.eqb c "+" = false.
Proof.
  intros Hd. split; apply Ascii.eqb_neq; intros ->; discriminate.
Qed.

Lemma digit_value_range (c : ascii) :
  is_digit c = true -> 0 <= digit_value c <= 9.
Proof.
  unfold is_digit, digit_value. generalize (nat_of_ascii c). intros n Hd.
  apply andb_true_iff in Hd. destruct Hd as [H1 H2].
  apply Nat.leb_le in H1. apply Nat.leb_le in H2. lia.
Qed.

Lemma skip_ws_exhausted_cons (c : ascii) (s : string) :
  skip_ws (String c s) = "" -> is_space c = true /\ skip_ws s = "".
Proof.
  simpl. destruct (is_space c); [auto|discriminate].
Qed.

(** An extraction from a stream with nothing but white space left fails,
    whatever the state bits. *)
Lemma sentry_exhausted (s : istream) :
  skip_ws (pending s) = "" ->
  exists s', sentry s = (false, s') /\ skip_ws (pending s') = ""
             /\ failbit s' = true.
Proof.
  intros Hws. unfold sentry. destruct (good s).
  - rewrite Hws. cbn. eauto.
  - eexists. split; [reflexivity|]. cbn. auto.
Qed.

Lemma read_int_exhausted (s : istream) :
  skip_ws (pending s) = "" ->
  exists s', read_int s = (None, s') /\ skip_ws (pending s') = "".
Proof.
  intros Hws. destruct (sentry_exhausted s Hws) as (s' & Hs & Hws' & _).
  exists s'. unfold read_int. rewrite Hs. auto.
Qed.

Lemma read_word_exhausted (s : istream) (old : string) :
  skip_ws (pending s) = "" ->
  exists s', read_word s old = (old, s') /\ skip_ws (pending s') = ""
             /\ failbit s' = true.
Proof.
  intros Hws. destruct (sentry_exhausted s Hws) as (s' & Hs & Hws' & Hfail).
  exists s'. unfold read_word. rewrite Hs. auto.
Qed.

Lemma ignore_chars_exhausted (n : N) (delim : ascii) (s : string) :
  skip_ws s = "" -> skip_ws (fst (ignore_chars n delim s)) = "".
Proof.
  revert n. induction s as [|c s IH]; intros n Hws; [reflexivity|].
  destruct (skip_ws_exhausted_cons c s Hws) as [Hc Hs].
  cbn [ignore_chars]. destruct (n =? 0)%N; [exact Hws|].
  destruct (Ascii.eqb c delim); [exact Hs|]. apply IH. exact Hs.
Qed.

Lemma ignore_exhausted (n : N) (delim : ascii) (s : istream) :
  skip_ws (pending s) = "" -> skip_ws (pending (ignore n delim s)) = "".
Proof.
  intros Hws. unfold ignore. destruct (good s); cbn [pending]; [|exact Hws].
  apply ignore_chars_exhausted. exact Hws.
Qed.

(** A digit followed by something that is no digit is read as its value,
    and the stream stays good. *)
Lemma read_int_digit (c next : ascii) (rest : string) :
  is_digit c = true -> is_digit next = false ->
  read_int (Istream (String c (String next rest)) false false)
  = (Some (digit_value c), Istream (String next rest) false false).
Proof.
  intros Hc Hnext. unfold read_int, sentry. cbn [good eofbit failbit negb andb pending].
  cbn [skip_ws]. rewrite (is_digit_not_space c Hc). cbn [String.eqb pending].
  destruct (is_digit_not_sign c Hc) as [-> ->]. cbn [snd fst scan_digits].
  rewrite Hc. cbn [scan_digits]. rewrite Hnext. cbn [String.eqb andb].
  pose proof (digit_value_range c Hc) as Hr.
  replace (1 * (10 * 0 + digit_value c)) with (digit_value c) by lia.
  assert (Hlo : (INT_MIN <=? digit_value c) = true)
    by (apply Z.leb_le; unfold INT_MIN; lia).
  assert (Hhi : (digit_value c <=? INT_MAX) = true)
    by (apply Z.leb_le; unfold INT_MAX; lia).
  rewrite Hlo, Hhi. reflexivity.
Qed.

(** A digit with only white space after it, or nothing, is read too;
    [eofbit] is set when the input ended right after it. *)
Lemma read_int_last_digit (c : ascii) (tail : string) :
  is_digit c = true -> skip_ws tail = "" ->
  exists s',
    read_int (Istream (String c tail) false false) = (Some (digit_value c), s')
    /\ skip_ws (pending s') = "" /\ failbit s' = false.
Proof.
  intros Hc Htail. destruct tail as [|next rest].
  - exists (Istream "" true false). split; [|split; reflexivity].
    unfold read_int, sentry. cbn [good eofbit failbit negb andb pending].
    cbn [skip_ws]. rewrite (is_digit_not_space c Hc). cbn [String.eqb pending].
    destruct (is_digit_not_sign c Hc) as [-> ->]. cbn [snd fst scan_digits].
    rewrite Hc. cbn [scan_digits String.eqb andb].
    pose proof (digit_value_range c Hc) as Hr.
    replace (1 * (10 * 0 + digit_value c)) with (digit_value c) by lia.
    assert (Hlo : (INT_MIN <=? digit_value c) = true)
      by (apply Z.leb_le; unfold INT_MIN; lia).
    assert (Hhi : (digit_value c <=? INT_MAX) = true)
      by (apply Z.leb_le; unfold INT_MAX; lia).
    rewrite Hlo, Hhi. reflexivity.
  - destruct (skip_ws_exhausted_cons next rest Htail) as [Hnext _].
    eexists. split; [apply read_int_digit;
                     [exact Hc|apply is_space_not_digit; exact Hnext]|].
    split; [exact Htail|reflexivity].
Qed.

(** What does not start a number makes the extraction fail, with nothing
    consumed. *)
Lemma read_int_no_number (c : ascii) (rest : string) :
  is_space c = false -> is_digit c = false -> c <> "-"%char -> c <> "+"%char ->
  read_int (Istream (String c rest) false false)
  = (None, Istream (String c rest) false true).
Proof.
  intros Hs Hd Hminus Hplus. unfold read_int, sentry.
  cbn [good eofbit failbit negb andb pending skip_ws]. rewrite Hs.
  cbn [String.eqb pending].
  apply Ascii.eqb_neq in Hminus, Hplus. rewrite Hminus, Hplus.
  cbn [snd fst scan_digits]. rewrite Hd. reflexivity.
Qed.

Lemma scan_word_word (word : string) (sep : ascii) (rest : string) :
  (forall ch, In ch (list_ascii_of_string word) -> is_space ch = false) ->
  is_space sep = true ->
  scan_word (word +:+ String sep rest) = (word, String sep rest).
Proof.
  intros Hword Hsep. induction word as [|c word IH].
  - simpl. rewrite Hsep. reflexivity.
  - change (String c word +:+ String sep rest)
      with (String c (word +:+ String sep rest)).
    cbn [scan_word].
    rewrite (Hword c (or_introl eq_refl)), IH; [reflexivity|].
    intros ch Hch. apply Hword. right. exact Hch.
Qed.

Lemma skip_ws_word (word : string) (rest : string) :
  is_word word -> skip_ws (word +:+ rest) = word +:+ rest.
Proof.
  intros [Hne Hword]. destruct word as [|c word]; [contradiction|].
  change (String c word +:+ rest) with (String c (word +:+ rest)).
  cbn [skip_ws]. rewrite (Hword c (or_introl eq_refl)).
  reflexivity.
Qed.

(** A word between two white-space characters is read whole; the second
    one stays in the stream. *)
Lemma read_word_word (sep : ascii) (word : string) (sep' : ascii)
    (rest old : string) :
  is_space sep = true -> is_word word -> is_space sep' = true ->
  read_word (Istream (String sep (word +:+ String sep' rest)) false false) old
  = (word, Istream (String sep' rest) false false).
Proof.
  intros Hsep Hw Hsep'. unfold read_word, sentry.
  cbn [good eofbit failbit negb andb pending skip_ws]. rewrite Hsep.
  rewrite (skip_ws_word word _ Hw).
  destruct Hw as [Hne Hword].
  destruct word as [|c word]; [contradiction|].
  change (String c word +:+ String sep' rest)
    with (String c (word +:+ String sep' rest)).
  cbn [String.eqb pending].
  change (String c (word +:+ String sep' rest))
    with (String c word +:+ String sep' rest).
  rewrite (scan_word_word _ _ _ Hword Hsep'). reflexivity.
Qed.

(** A line without a line feed, shorter than the limit, is discarded with
    its line feed and nothing more. *)
Lemma ignore_chars_line (n : N) (line rest : string) :
  ~ In "010"%char (list_ascii_of_string line) ->
  (N.of_nat (String.length line) < n)%N ->
  ignore_chars n "010" (line +:+ nl +:+ rest) = (rest, false).
Proof.
  revert n. induction line as [|c line IH]; intros n Hnl Hlen.
  - simpl. destruct (n =? 0)%N eqn:Hn; [apply N.eqb_eq in Hn; simpl in Hlen; lia|].
    reflexivity.
  - change (String c line +:+ nl +:+ rest)
      with (String c (line +:+ nl +:+ rest)).
    cbn [ignore_chars].
    destruct (n =? 0)%N eqn:Hn; [apply N.eqb_eq in Hn; lia|].
    destruct (Ascii.eqb c "010") eqn:Hc.
    + apply Ascii.eqb_eq in Hc. subst c. exfalso. apply Hnl. left. reflexivity.
    + apply IH.
      * intros Hin. apply Hnl. right. exact Hin.
      * cbn [String.length] in Hlen. lia.
Qed.

(** [ignore] never discards more characters than its limit. *)
Lemma ignore_chars_bound (n : N) (delim : ascii) (s : string) :
  (String.length s
   <= N.to_nat n + String.length (fst (ignore_chars n delim s)))%nat.
Proof.
  revert n. induction s as [|c s IH]; intros n; [simpl; lia|].
  cbn [ignore_chars]. destruct (n =? 0)%N eqn:Hn; [simpl; lia|].
  apply N.eqb_neq in Hn.
  destruct (Ascii.eqb c delim); cbn [fst String.length].
  - lia.
  - specialize (IH (N.pred n)). cbn [String.length]. lia.
Qed.

Lemma skip_ws_blank (ws s : string) :
  all_space ws -> skip_ws (ws +:+ s) = skip_ws s.
Proof.
  induction ws as [|c ws IH]; intros Hws; [reflexivity|].
  change (String c ws +:+ s) with (String c (ws +:+ s)). cbn [skip_ws].
  rewrite (Hws c (or_introl eq_refl)). apply IH.
  intros ch Hch. apply Hws. right. exact Hch.
Qed.

(** A word is read whatever white space stands before it. *)
Lemma read_word_blank (ws word : string) (sep : ascii) (rest old : string) :
  all_space ws -> is_word word -> is_space sep = true ->
  read_word (Istream (ws +:+ word +:+ String sep rest) false false) old
  = (word, Istream (String sep rest) false false).
Proof.
  intros Hws Hword Hsep. unfold read_word, sentry.
  cbn [good eofbit failbit negb andb pending].
  rewrite (skip_ws_blank ws _ Hws), (skip_ws_word word _ Hword).
  destruct Hword as [Hne Hchars].
  destruct word as [|x word]; [contradiction|].
  change (String x word +:+ String sep rest)
    with (String x (word +:+ String sep rest)).
  cbn [String.eqb pending].
  change (String x (word +:+ String sep rest))
    with (String x word +:+ String sep rest).
  rewrite (scan_word_word (String x word) sep rest Hchars Hsep).
  reflexivity.
Qed.

(** One digit, and what follows it is no digit. *)
Lemma read_int_one_digit (c : ascii) (tail : string) :
  is_digit c = true -> no_digit_first tail ->
  read_int (Istream (String c tail) false false)
  = (Some (digit_value c), Istream tail (String.eqb tail "") false).
Proof.
  intros Hc Htail. unfold read_int, sentry.
  cbn [good eofbit failbit negb andb pending skip_ws].
  rewrite (is_digit_not_space c Hc). cbn [String.eqb pending].
  destruct (is_digit_not_sign c Hc) as [-> ->]. cbn [snd fst scan_digits].
  rewrite Hc.
  assert (Hscan : scan_digits tail (10 * 0 + digit_value c) true
                  = (10 * 0 + digit_value c, true, tail)).
  { destruct tail as [|n tail]; [reflexivity|]. cbn [scan_digits].
    cbn [no_digit_first] in Htail. rewrite Htail. reflexivity. }
  rewrite Hscan. pose proof (digit_value_range c Hc) as Hrange.
  replace (1 * (10 * 0 + digit_value c)) with (digit_value c) by lia.
  assert (Hmin : (INT_MIN <=? digit_value c) = true)
    by (apply Z.leb_le; unfold INT_MIN; lia).
  assert (Hmax : (digit_value c <=? INT_MAX) = true)
    by (apply Z.leb_le; unfold INT_MAX; lia).
  rewrite Hmin, Hmax. reflexivity.
Qed.

Lemma no_digit_first_app (a b : string) :
  a <> "" -> no_digit_first a -> no_digit_first (a +:+ b).
Proof. destruct a; [contradiction|]. intros _ Ha. exact Ha. Qed.

End CinFacts.

(** ** [main] *)

Section MainFacts.

Context {W : Type} `{Kernel W}.

Implicit Types (p : proc W) (cin : Cin.istream).

Lemma prompt_frame p :
  world (prompt p) = world p /\ cerr (prompt p) = cerr p
  /\ calls (prompt p) = calls p ++ [Getcwd 512].
Proof. repeat split. Qed.

Lemma banner_frame p :
  world (banner p) = world p /\ cerr (banner p) = cerr p
  /\ calls (banner p) = calls p.
Proof. repeat split. Qed.

(** *** Leaving the program *)

(** A run is its turns, one after the other. *)
Lemma menu_loop_step (turns depth : nat) cin p :
  menu_loop (S turns) depth cin p
  = match menu_loop 1 depth cin p with
    | Running cin1 p1 => menu_loop turns depth cin1 p1
    | other => other
    end.
Proof.
  cbn [menu_loop].
  destruct (Cin.read_int cin) as [[choice|] cin1]; [|reflexivity].
  destruct choice as [|c|c]; [reflexivity| |reflexivity].
  destruct c as [c|c|];
    [destruct c as [c|c|]; [destruct c|destruct c|]
    |destruct c as [c|c|]; [destruct c|destruct c|]
    |]; try reflexivity.
  destruct (searchFile depth _ _ _); reflexivity.
Qed.

(** The one turn that leaves. *)
Lemma menu_loop_last_turn (depth : nat) cin p (status : Z) cin' p' :
  menu_loop 1 depth cin p = Exited status cin' p' ->
  status = 0
  /\ Cin.read_int cin = (Some 7, cin')
  /\ p' = print_out ("Goodbye!" +:+ nl) (prompt p).
Proof.
  cbn [menu_loop].
  destruct (Cin.read_int cin) as [[choice|] cin1]; [|discriminate].
  destruct choice as [|c|c]; [discriminate| |discriminate].
  destruct c as [c|c|];
    [destruct c as [c|c|]; [destruct c|destruct c|]
    |destruct c as [c|c|]; [destruct c|destruct c|]
    |]; try discriminate.
  - intros [= <- <- <-]. auto.
  - destruct (searchFile depth _ _ _); discriminate.
Qed.

(** X3: [main] returns in one way only.  A run that has returned took
    some turns at the menu without leaving, then read the choice 7 from
    the input as those turns left it, printed the farewell after the menu
    of that turn and returned 0.  No error of an operation and no
    malformed input ends the program. *)
Theorem main_exits_only_by_choice_7 (turns depth : nat) cin p (status : Z)
    cin' p' :
  main turns depth cin p = Exited status cin' p' ->
  status = 0
  /\ exists (n : nat) cin0 q,
       (n < turns)%nat
       /\ main n depth cin p = Running cin0 q
       /\ Cin.read_int cin0 = (Some 7, cin')
       /\ p' = print_out ("Goodbye!" +:+ nl) (prompt q).
Proof.
  unfold main. generalize (banner p) as q0. clear p. revert cin.
  induction turns as [|turns IH]; intros cin q0 Hrun; [discriminate|].
  rewrite menu_loop_step in Hrun.
  destruct (menu_loop 1 depth cin q0) as [s c1 p1|c1 p1|] eqn:Hturn;
    [| |discriminate].
  - injection Hrun as -> -> ->.
    destruct (menu_loop_last_turn depth cin q0 status cin' p' Hturn)
      as (Hs & Hread & Hp').
    split; [exact Hs|]. exists O, cin, q0.
    split; [lia|]. split; [reflexivity|]. split; [exact Hread|exact Hp'].
  - destruct (IH c1 p1 Hrun) as (Hs & n & cin0 & q & Hn & Hmid & Hread & Hp').
    split; [exact Hs|]. exists (S n), cin0, q.
    split; [lia|]. split; [|split; [exact Hread|exact Hp']].
    rewrite menu_loop_step, Hturn. exact Hmid.
Qed.

(** *** The end of the input *)

Lemma cout_print_out (s : string) p : cout (print_out s p) = cout p ++ [s].
Proof. reflexivity. Qed.

Lemma menu_cout (cwd : string) p :
  cout (menu cwd p) = cout p ++ menu_lines cwd.
Proof.
  unfold menu. cbv zeta. rewrite !cout_print_out. unfold menu_lines.
  rewrite <- !app_assoc. reflexivity.
Qed.

Lemma menu_loop_exhausted (turns depth : nat) cin p :
  Cin.skip_ws (Cin.pending cin) = "" ->
  exists cin' p',
    menu_loop turns depth cin p = Running cin' p'
    /\ Cin.skip_ws (Cin.pending cin') = ""
    /\ world p' = world p /\ garbage p' = garbage p /\ cerr p' = cerr p
    /\ calls p' = calls p ++ repeat (Getcwd 512) turns
    /\ cout p' = cout p
                 ++ concat (repeat (menu_lines (cwd_buffer p)
                                    ++ ["Invalid input" +:+ nl]) turns).
Proof.
  revert cin p. induction turns as [|turns IH]; intros cin p Hws.
  - exists cin, p. cbn [menu_loop repeat concat]. rewrite !app_nil_r.
    repeat split; auto.
  - cbn [menu_loop].
    destruct (CinFacts.read_int_exhausted cin Hws) as (s' & -> & Hs').
    destruct (IH (Cin.ignore 10000 "010" (Cin.clear s'))
                (print_out ("Invalid input" +:+ nl) (prompt p)))
      as (cin' & p' & Hrun & Hws' & Hw & Hg & He & Hc & Ho).
    { apply CinFacts.ignore_exhausted. exact Hs'. }
    exists cin', p'. split; [exact Hrun|]. split; [exact Hws'|].
    split; [exact Hw|]. split; [exact Hg|]. split; [exact He|]. split.
    + rewrite Hc. cbn [repeat]. cbn. rewrite <- app_assoc. reflexivity.
    + rewrite Ho. cbn [repeat concat].
      change (cwd_buffer (print_out ("Invalid input" +:+ nl) (prompt p)))
        with (cwd_buffer p).
      cbn [print_out cout]. unfold prompt. rewrite menu_cout.
      change (cout (call (Getcwd 512) p)) with (cout p).
      change (cwd_buffer (call (Getcwd 512) p)) with (cwd_buffer p).
      rewrite <- !app_assoc. reflexivity.
Qed.

(** X4: when nothing but white space is left of the input, the program
    does not stop: every further turn asks for the working directory,
    prints the menu, fails to read a choice and prints the notice, and
    touches nothing; so a run whose input ends without the choice 7 never
    returns.  The output of [turns] turns is the menu and the notice,
    [turns] times over (after the banner, for [main]). *)
Theorem main_spins_at_end_of_input (turns depth : nat) cin p :
  Cin.skip_ws (Cin.pending cin) = "" ->
  let turn := menu_lines (cwd_buffer p) ++ ["Invalid input" +:+ nl] in
  (exists cin' p',
      menu_loop turns depth cin p = Running cin' p'
      /\ Cin.skip_ws (Cin.pending cin') = ""
      /\ world p' = world p /\ cerr p' = cerr p
      /\ calls p' = calls p ++ repeat (Getcwd 512) turns
      /\ cout p' = cout p ++ concat (repeat turn turns))
  /\ (exists cin' p',
        main turns depth cin p = Running cin' p'
        /\ world p' = world p /\ cerr p' = cerr p
        /\ calls p' = calls p ++ repeat (Getcwd 512) turns
        /\ cout p' = cout (banner p) ++ concat (repeat turn turns)).
Proof.
  intros Hws turn. split.
  - destruct (menu_loop_exhausted turns depth cin p Hws)
      as (cin' & p' & Hrun & Hws' & Hw & _ & He & Hc & Ho).
    exists cin', p'. split; [exact Hrun|]. split; [exact Hws'|].
    split; [exact Hw|]. split; [exact He|]. split; [exact Hc|exact Ho].
  - destruct (menu_loop_exhausted turns depth cin (banner p) Hws)
      as (cin' & p' & Hrun & _ & Hw & _ & He & Hc & Ho).
    exists cin', p'. unfold main. split; [exact Hrun|].
    split; [exact Hw|]. split; [exact He|]. split; [exact Hc|exact Ho].
Qed.

(** *** Malformed input *)

(** X5: a line that does not start with a number (its first character is
    no white space, digit or sign), shorter than 10000 characters, costs
    one turn: the notice is printed, the line is discarded up to and
    including its line feed, no operation runs, and the loop goes on with
    the next line.  Of a longer line at most 10000 characters are
    discarded. *)
Theorem menu_loop_discards_bad_line (turns depth : nat) (c : ascii)
    (line rest : string) p :
  Cin.is_space c = false -> Cin.is_digit c = false ->
  c <> "-"%char -> c <> "+"%char ->
  ~ In "010"%char (list_ascii_of_string (String c line)) ->
  (N.of_nat (String.length (String c line)) < 10000)%N ->
  menu_loop (S turns) depth
    (Cin.Istream (String c line +:+ nl +:+ rest) false false) p
  = menu_loop turns depth (Cin.Istream rest false false)
      (print_out ("Invalid input" +:+ nl) (prompt p))
  /\ forall s : string,
       (N.of_nat (String.length s)
        <= 10000 + N.of_nat (String.length
                               (Cin.pending
                                  (Cin.ignore 10000 "010"
                                     (Cin.Istream s false false)))))%N.
Proof.
  intros Hs Hd Hminus Hplus Hline Hlen. split.
  - cbn [menu_loop].
    change (String c line +:+ nl +:+ rest)
      with (String c (line +:+ nl +:+ rest)).
    rewrite (CinFacts.read_int_no_number c _ Hs Hd Hminus Hplus).
    unfold Cin.clear, Cin.ignore.
    cbn [Cin.pending Cin.good Cin.eofbit Cin.failbit negb andb].
    change (String c (line +:+ nl +:+ rest))
      with (String c line +:+ nl +:+ rest).
    rewrite (CinFacts.ignore_chars_line _ _ _ Hline Hlen). reflexivity.
  - intros s. unfold Cin.ignore.
    cbn [Cin.pending Cin.good Cin.eofbit Cin.failbit negb andb].
    pose proof (CinFacts.ignore_chars_bound 10000 "010" s) as Hb. lia.
Qed.

(** *** Commands *)

(** X6: a command line runs its operation once.  The choices 1 and 2,
    followed by anything but a digit, list the directory [getcwd] gave;
    3, 4, 5 and 6 read one word, however much white space or how many line
    feeds stand before it (none at all, when the word does not begin with
    a digit), and create, delete, enter or search for exactly that word;
    any other number in the range of [int] only prints a notice.  Each
    time the loop goes on with the input that follows, unread. *)
Theorem menu_loop_runs_command (turns depth : nat) (tail ws word : string)
    (sep : ascii) (rest : string) p :
  Cin.no_digit_first tail ->
  Cin.all_space ws -> Cin.is_word word -> Cin.no_digit_first (ws +:+ word) ->
  Cin.is_space sep = true ->
  let cwd := cwd_buffer (call (Getcwd 512) p) in
  let bare digit := Cin.Istream (String digit tail) false false in
  let left := Cin.Istream tail (String.eqb tail "") false in
  let input digit :=
    Cin.Istream (String digit (ws +:+ word +:+ String sep rest))
                false false in
  let after := Cin.Istream (String sep rest) false false in
  menu_loop (S turns) depth (bare "1"%char) p
  = menu_loop turns depth left (listFiles cwd false (prompt p))
  /\ menu_loop (S turns) depth (bare "2"%char) p
     = menu_loop turns depth left (listFiles cwd true (prompt p))
  /\ menu_loop (S turns) depth (input "3"%char) p
     = menu_loop turns depth after
         (createFile word (print_out "Enter filename to create: " (prompt p)))
  /\ menu_loop (S turns) depth (input "4"%char) p
     = menu_loop turns depth after
         (deleteFile word (print_out "Enter filename to delete: " (prompt p)))
  /\ menu_loop (S turns) depth (input "5"%char) p
     = menu_loop turns depth after
         (changeDirectory word
            (print_out "Enter directory to change to (absolute or relative): "
               (prompt p)))
  /\ menu_loop (S turns) depth (input "6"%char) p
     = match searchFile depth cwd word
               (print_out
                  ("Searching (this may take time for large trees)..." +:+ nl)
                  (print_out "Enter filename to search for (exact name): "
                     (prompt p))) with
       | Some p' => menu_loop turns depth after p'
       | None => Searching
       end
  /\ forall (choice : Z) cin cin',
       Cin.read_int cin = (Some choice, cin') ->
       choice < 1 \/ 7 < choice ->
       menu_loop (S turns) depth cin p
       = menu_loop turns depth cin'
           (print_out ("Invalid choice" +:+ nl) (prompt p)).
Proof.
  intros Htail Hws Hword Hfirst Hsep cwd bare left input after.
  unfold bare, left, input, after.
  assert (Hnext : Cin.no_digit_first (ws +:+ word +:+ String sep rest)).
  { rewrite <- string_app_assoc. apply CinFacts.no_digit_first_app.
    - destruct Hword as [Hne _]. destruct ws; [exact Hne|discriminate].
    - exact Hfirst. }
  assert (Hmore : String.eqb (ws +:+ word +:+ String sep rest) "" = false).
  { destruct ws; [|reflexivity]. destruct Hword as [Hne _].
    destruct word; [contradiction|reflexivity]. }
  repeat match goal with |- _ /\ _ => split end.
  - cbn [menu_loop].
    rewrite (CinFacts.read_int_one_digit "1"%char _ eq_refl Htail).
    reflexivity.
  - cbn [menu_loop].
    rewrite (CinFacts.read_int_one_digit "2"%char _ eq_refl Htail).
    reflexivity.
  - cbn [menu_loop].
    rewrite (CinFacts.read_int_one_digit "3"%char _ eq_refl Hnext), Hmore.
    change (Cin.digit_value "3"%char) with 3. cbv iota.
    rewrite (CinFacts.read_word_blank ws word sep rest "" Hws Hword Hsep).
    reflexivity.
  - cbn [menu_loop].
    rewrite (CinFacts.read_int_one_digit "4"%char _ eq_refl Hnext), Hmore.
    change (Cin.digit_value "4"%char) with 4. cbv iota.
    rewrite (CinFacts.read_word_blank ws word sep rest "" Hws Hword Hsep).
    reflexivity.
  - cbn [menu_loop].
    rewrite (CinFacts.read_int_one_digit "5"%char _ eq_refl Hnext), Hmore.
    change (Cin.digit_value "5"%char) with 5. cbv iota.
    rewrite (CinFacts.read_word_blank ws word sep rest "" Hws Hword Hsep).
    reflexivity.
  - cbn [menu_loop].
    rewrite (CinFacts.read_int_one_digit "6"%char _ eq_refl Hnext), Hmore.
    change (Cin.digit_value "6"%char) with 6. cbv iota.
    rewrite (CinFacts.read_word_blank ws word sep rest "" Hws Hword Hsep).
    reflexivity.
  - intros choice cin cin' Hread Hrange. cbn [menu_loop]. rewrite Hread.
    destruct choice as [|c|c]; [reflexivity| |reflexivity].
    destruct c as [c|c|];
      [destruct c as [c|c|]; [destruct c|destruct c|]
      |destruct c as [c|c|]; [destruct c|destruct c|]
      |]; try reflexivity; lia.
Qed.

(** X7: the word of a command is not checked for having been read.  When
    the input ends after the choice, the operation runs all the same, on
    the empty name, and the stream is left failed. *)
Theorem menu_loop_runs_without_argument (depth : nat) (tail : string) p :
  Cin.skip_ws tail = "" ->
  let input digit := Cin.Istream (String digit tail) false false in
  (exists cin',
      menu_loop 1 depth (input "3"%char) p
      = Running cin'
          (createFile "" (print_out "Enter filename to create: " (prompt p)))
      /\ Cin.failbit cin' = true)
  /\ (exists cin',
        menu_loop 1 depth (input "4"%char) p
        = Running cin'
            (deleteFile "" (print_out "Enter filename to delete: " (prompt p)))
        /\ Cin.failbit cin' = true)
  /\ (exists cin',
        menu_loop 1 depth (input "5"%char) p
        = Running cin'
            (changeDirectory ""
               (print_out
                  "Enter directory to change to (absolute or relative): "
                  (prompt p)))
        /\ Cin.failbit cin' = true).
Proof.
  intros Htail input. unfold input.
  repeat match goal with |- _ /\ _ => split end.
  all: cbn [menu_loop].
  - destruct (CinFacts.read_int_last_digit "3"%char tail eq_refl Htail)
      as (s1 & -> & Hs1 & _).
    destruct (CinFacts.read_word_exhausted s1 "" Hs1) as (s2 & Hword & _ & Hfail).
    exists s2. change (Cin.digit_value "3"%char) with 3. cbv iota.
    rewrite Hword. auto.
  - destruct (CinFacts.read_int_last_digit "4"%char tail eq_refl Htail)
      as (s1 & -> & Hs1 & _).
    destruct (CinFacts.read_word_exhausted s1 "" Hs1) as (s2 & Hword & _ & Hfail).
    exists s2. change (Cin.digit_value "4"%char) with 4. cbv iota.
    rewrite Hword. auto.
  - destruct (CinFacts.read_int_last_digit "5"%char tail eq_refl Htail)
      as (s1 & -> & Hs1 & _).
    destruct (CinFacts.read_word_exhausted s1 "" Hs1) as (s2 & Hword & _ & Hfail).
    exists s2. change (Cin.digit_value "5"%char) with 5. cbv iota.
    rewrite Hword. auto.
Qed.

End MainFacts.

(** ** [formatPermissions]: what a string tells of a mode *)

Lemma spec_slot_char_inj (m1 m2 bit : Z) (letter : ascii) :
  letter <> "-"%char ->
  spec_slot_char m1 (bit, letter) = spec_slot_char m2 (bit, letter) ->
  Z.testbit m1 bit = Z.testbit m2 bit.
Proof.
  unfold spec_slot_char. cbn [fst snd].
  destruct (Z.testbit m1 bit), (Z.testbit m2 bit); congruence.
Qed.

Lemma spec_type_char_lor (mode extra : Z) :
  Z.land extra S_IFMT = 0 ->
  spec_type_char (Z.lor mode extra) = spec_type_char mode.
Proof.
  intros Hextra. unfold spec_type_char, S_ISDIR, S_ISLNK.
  rewrite Z.land_lor_distr_l, Hextra, Z.lor_0_r. reflexivity.
Qed.

(** X8: two modes are drawn alike exactly when they agree on the nine
    permission bits and on being a directory, a symbolic link or neither.
    Nothing else of a mode shows: the set-user-id, set-group-id and sticky
    bits (and any bit outside the type field and the nine) leave the
    string as it is, and so do the types other than directory and link,
    all drawn as [-]. *)
Theorem formatPermissions_same_iff (m1 m2 : Z) :
  (formatPermissions m1 = formatPermissions m2
   <-> spec_type_char m1 = spec_type_char m2
       /\ forall k, 0 <= k < 9 -> Z.testbit m1 k = Z.testbit m2 k)
  /\ (forall extra,
        Z.land extra (Z.lor S_IFMT 511) = 0 ->
        formatPermissions (Z.lor m1 extra) = formatPermissions m1).
Proof.
  assert (Hiff : forall a b,
             formatPermissions a = formatPermissions b
             <-> spec_type_char a = spec_type_char b
                 /\ forall k, 0 <= k < 9 -> Z.testbit a k = Z.testbit b k).
  { intros a b. rewrite !formatPermissions_spec.
    unfold spec_permission_string, spec_slots.
    cbn [List.map string_of_list_ascii]. split.
    - intros Heq.
      injection Heq as Ht H8 H7 H6 H5 H4 H3 H2 H1 H0.
      split; [exact Ht|]. intros k Hk.
      assert (Hcases : k = 0 \/ k = 1 \/ k = 2 \/ k = 3 \/ k = 4 \/ k = 5
                       \/ k = 6 \/ k = 7 \/ k = 8) by lia.
      destruct Hcases as [->|[->|[->|[->|[->|[->|[->|[->| ->]]]]]]]];
        eapply spec_slot_char_inj; try eassumption; discriminate.
    - intros [Ht Hbits]. unfold spec_slot_char. cbn [fst snd].
      rewrite Ht, (Hbits 8), (Hbits 7), (Hbits 6), (Hbits 5), (Hbits 4),
        (Hbits 3), (Hbits 2), (Hbits 1), (Hbits 0) by lia.
      reflexivity. }
  split; [apply Hiff|].
  intros extra Hextra. apply Hiff.
  rewrite Z.land_lor_distr_r in Hextra.
  apply Z.lor_eq_0_iff in Hextra. destruct Hextra as [Htype Hperm].
  split; [apply spec_type_char_lor; exact Htype|].
  intros k Hk. rewrite Z.lor_spec.
  assert (Hbit : Z.testbit extra k = false).
  { assert (Hland : Z.testbit (Z.land extra 511) k = false)
      by (rewrite Hperm; apply Z.bits_0).
    rewrite Z.land_spec in Hland.
    assert (Hones : Z.testbit 511 k = true).
    { assert (Hcases : k = 0 \/ k = 1 \/ k = 2 \/ k = 3 \/ k = 4 \/ k = 5
                       \/ k = 6 \/ k = 7 \/ k = 8) by lia.
      destruct Hcases as [->|[->|[->|[->|[->|[->|[->|[->| ->]]]]]]]];
        reflexivity. }
    rewrite Hones, andb_true_r in Hland. exact Hland. }
  rewrite Hbit. apply orb_false_r.
Qed.

(** ** Detailed listing *)

Lemma string_fill_length (n : nat) (c : ascii) :
  String.length (string_fill n c) = n.
Proof. induction n as [|n IH]; [reflexivity|]. simpl. rewrite IH. reflexivity. Qed.

(** [setw] pads and never cuts. *)
Lemma setw_left_length (w : nat) (s : string) :
  String.length (setw_left w s) = Nat.max w (String.length s).
Proof.
  unfold setw_left. rewrite string_length_app, string_fill_length. lia.
Qed.

Lemma substring_app_head (a b : string) :
  substring 0 (String.length a) (a +:+ b) = a.
Proof.
  induction a as [|x a IH]; [destruct b; reflexivity|].
  change (String x a +:+ b) with (String x (a +:+ b)).
  cbn [String.length substring]. rewrite IH. reflexivity.
Qed.

Lemma substring_app_skip (a b : string) (k n : nat) :
  substring (String.length a + k) n (a +:+ b) = substring k n b.
Proof.
  induction a as [|x a IH]; [reflexivity|].
  change (String x a +:+ b) with (String x (a +:+ b)).
  cbn [String.length Nat.add substring]. exact IH.
Qed.

(** A field that fits its column is found at the head of the padded
    text. *)
Lemma substring_setw_left (w : nat) (s rest : string) :
  substring 0 (String.length s) (setw_left w s +:+ rest) = s.
Proof.
  unfold setw_left. rewrite string_app_assoc. apply substring_app_head.
Qed.

Section DetailFacts.

Context {W : Type} `{Kernel W}.

Implicit Types (p : proc W).

(** One entry of a detailed listing: one [lstat], then a row or an error
    line. *)
Lemma showFileDetails_effect (path name : string) p :
  showFileDetails path name p
  = Proc (world p)
         (cout p ++ option_list (row_of (world p) path name))
         (cerr p ++ option_list (error_of (world p) path name))
         (calls p ++ [Lstat (path +:+ "/" +:+ name)])
         (garbage p).
Proof.
  unfold showFileDetails, row_of, error_of. cbn [call world].
  destruct (sys_lstat (world p) (path +:+ "/" +:+ name)) as [e|st];
    cbn [option_list print_err print_out call world cout cerr calls garbage];
    rewrite app_nil_r; reflexivity.
Qed.

Lemma detailed_rows (path : string) (names : list string) p :
  fold_left (fun q name => showFileDetails path name q) names p
  = Proc (world p)
         (cout p ++ omap (row_of (world p) path) names)
         (cerr p ++ omap (error_of (world p) path) names)
         (calls p ++ List.map (fun n => Lstat (path +:+ "/" +:+ n)) names)
         (garbage p).
Proof.
  revert p. induction names as [|n names IH]; intros p.
  - cbn. rewrite !app_nil_r. destruct p; reflexivity.
  - cbn [fold_left]. rewrite IH, showFileDetails_effect.
    cbn [world cout cerr calls garbage omap list_omap List.map].
    rewrite <- !app_assoc. f_equal.
    + f_equal. destruct (row_of (world p) path n); reflexivity.
    + f_equal. destruct (error_of (world p) path n); reflexivity.
Qed.

(** X9: a detailed listing of a directory that opens prints the header
    and the rule, then takes the names of the plain listing in the same
    sorted order and calls [lstat] once on each: a name whose status is
    read gets its row on the output stream, one whose status cannot be
    read gets an error line on the error stream, and the listing goes on
    with the next name either way.  Nothing is changed. *)
Theorem listFiles_detailed_rows (path : string) (dir : list dirent) p :
  sys_opendir (world p) path = inr dir ->
  let names := listed_names dir in
  let q := listFiles path true p in
  world q = world p
  /\ calls q = calls p ++ Opendir path
               :: List.map (fun n => Lstat (path +:+ "/" +:+ n)) names
  /\ cout q = cout p ++ list_header :: (string_fill 80 "-" +:+ nl)
              :: omap (row_of (world p) path) names
  /\ cerr q = cerr p ++ omap (error_of (world p) path) names
  /\ (length (omap (row_of (world p) path) names)
      + length (omap (error_of (world p) path) names))%nat = length names.
Proof.
  intros Hopen names q. unfold q, listFiles. cbn [call world]. rewrite Hopen.
  rewrite read_names_filter. cbn [app]. fold (listed_names dir). fold names.
  rewrite (detailed_rows path names).
  cbn [world cout cerr calls print_out call].
  repeat split.
  - rewrite <- app_assoc. reflexivity.
  - rewrite <- !app_assoc. reflexivity.
  - clear. induction names as [|n names IH]; [reflexivity|].
    cbn [omap list_omap length]. unfold row_of, error_of in *.
    destruct (sys_lstat (world p) (path +:+ "/" +:+ n)); cbn [length]; lia.
Qed.

(** The columns of a row. *)
Lemma detail_row_layout (w : W) (st : stat) (name : string) :
  let perms := formatPermissions (st_mode st) in
  let owner := owner_text w st in
  let group := group_text w st in
  let size := pretty (st_size st) in
  let time := sys_strftime w (st_mtime st) in
  let row := detail_row w st name in
  String.length row
  = (12 + Nat.max 8 (String.length owner) + Nat.max 8 (String.length group)
     + Nat.max 10 (String.length size) + Nat.max 20 (String.length time)
     + 1 + String.length name + 1)%nat
  /\ ((String.length owner <= 8)%nat -> (String.length group <= 8)%nat ->
      (String.length size <= 10)%nat -> (String.length time <= 20)%nat ->
      substring 0 10 row = perms
      /\ substring 12 (String.length owner) row = owner
      /\ substring 20 (String.length group) row = group
      /\ substring 28 (String.length size) row = size
      /\ substring 38 (String.length time) row = time
      /\ substring 59 (String.length name) row = name).
Proof.
  intros perms owner group size time row.
  assert (Hperms : String.length perms = 10%nat).
  { unfold perms. rewrite formatPermissions_spec. reflexivity. }
  assert (Hcol1 : String.length (setw_left 12 perms) = 12%nat)
    by (rewrite setw_left_length, Hperms; reflexivity).
  unfold row, detail_row. fold perms owner group size time. split.
  - rewrite !string_length_app, !setw_left_length, Hperms.
    change (String.length nl) with 1%nat. change (String.length " ") with 1%nat.
    lia.
  - intros Ho Hg Hs Ht.
    assert (Hcol2 : String.length (setw_left 8 owner) = 8%nat)
      by (rewrite setw_left_length; lia).
    assert (Hcol3 : String.length (setw_left 8 group) = 8%nat)
      by (rewrite setw_left_length; lia).
    assert (Hcol4 : String.length (setw_left 10 size) = 10%nat)
      by (rewrite setw_left_length; lia).
    assert (Hcol5 : String.length (setw_left 20 time) = 20%nat)
      by (rewrite setw_left_length; lia).
    set (c1 := setw_left 12 perms) in *. set (c2 := setw_left 8 owner) in *.
    set (c3 := setw_left 8 group) in *. set (c4 := setw_left 10 size) in *.
    set (c5 := setw_left 20 time) in *.
    repeat split.
    + rewrite <- Hperms. apply substring_setw_left.
    + change 12%nat with (12 + 0)%nat. rewrite <- Hcol1.
      rewrite substring_app_skip. apply substring_setw_left.
    + change 20%nat with (12 + (8 + 0))%nat. rewrite <- Hcol1 at 1.
      rewrite substring_app_skip. rewrite <- Hcol2 at 1.
      rewrite substring_app_skip. apply substring_setw_left.
    + change 28%nat with (12 + (8 + (8 + 0)))%nat. rewrite <- Hcol1 at 1.
      rewrite substring_app_skip. rewrite <- Hcol2 at 1.
      rewrite substring_app_skip. rewrite <- Hcol3 at 1.
      rewrite substring_app_skip. apply substring_setw_left.
    + change 38%nat with (12 + (8 + (8 + (10 + 0))))%nat. rewrite <- Hcol1 at 1.
      rewrite substring_app_skip. rewrite <- Hcol2 at 1.
      rewrite substring_app_skip. rewrite <- Hcol3 at 1.
      rewrite substring_app_skip. rewrite <- Hcol4 at 1.
      rewrite substring_app_skip. apply substring_setw_left.
    + change 59%nat with (12 + (8 + (8 + (10 + (20 + 1)))))%nat.
      rewrite <- Hcol1 at 1. rewrite substring_app_skip.
      rewrite <- Hcol2 at 1. rewrite substring_app_skip.
      rewrite <- Hcol3 at 1. rewrite substring_app_skip.
      rewrite <- Hcol4 at 1. rewrite substring_app_skip.
      rewrite <- Hcol5 at 1. rewrite substring_app_skip.
      change 1%nat with (String.length " " + 0)%nat at 1.
      rewrite substring_app_skip. apply substring_app_head.
Qed.

(** X10: what [showFileDetails] prints for one name.  When [lstat]
    fails, a line with the name and the reason on the error stream and
    nothing on the output.  Otherwise one row on the output stream, whose
    length is that of the five columns, each at least as wide as set (12,
    8, 8, 10 and 20) and as wide as its text when that is longer, plus the
    space, the name and the line feed: no field is ever cut.  When owner,
    group, size and time fit their columns, every field starts at a fixed
    place: 0, 12, 20, 28, 38, and the name at 59. *)
Theorem showFileDetails_row_columns (path name : string) p :
  (forall e,
     sys_lstat (world p) (path +:+ "/" +:+ name) = inl e ->
     cout (showFileDetails path name p) = cout p
     /\ cerr (showFileDetails path name p)
        = cerr p ++ ["  [stat error] " +:+ name +:+ " : " +:+ strerror e
                     +:+ nl])
  /\ (forall st,
        sys_lstat (world p) (path +:+ "/" +:+ name) = inr st ->
        let perms := formatPermissions (st_mode st) in
        let owner := owner_text (world p) st in
        let group := group_text (world p) st in
        let size := pretty (st_size st) in
        let time := sys_strftime (world p) (st_mtime st) in
        exists row,
          cout (showFileDetails path name p) = cout p ++ [row]
          /\ cerr (showFileDetails path name p) = cerr p
          /\ String.length row
             = (12 + Nat.max 8 (String.length owner)
                + Nat.max 8 (String.length group)
                + Nat.max 10 (String.length size)
                + Nat.max 20 (String.length time)
                + 1 + String.length name + 1)%nat
          /\ ((String.length owner <= 8)%nat ->
              (String.length group <= 8)%nat ->
              (String.length size <= 10)%nat ->
              (String.length time <= 20)%nat ->
              substring 0 10 row = perms
              /\ substring 12 (String.length owner) row = owner
              /\ substring 20 (String.length group) row = group
              /\ substring 28 (String.length size) row = size
              /\ substring 38 (String.length time) row = time
              /\ substring 59 (String.length name) row = name)).
Proof.
  split.
  - intros e Hstat. rewrite showFileDetails_effect.
    unfold row_of, error_of. rewrite Hstat.
    cbn [cout cerr option_list]. rewrite app_nil_r. auto.
  - intros st Hstat perms owner group size time.
    exists (detail_row (world p) st name).
    rewrite showFileDetails_effect. unfold row_of, error_of. rewrite Hstat.
    cbn [cout cerr option_list]. rewrite app_nil_r.
    split; [reflexivity|]. split; [reflexivity|].
    exact (detail_row_layout (world p) st name).
Qed.

End DetailFacts.

(** ** How the operations on [MemFS] compose *)

Module MemFSLaws.

Import MemFS MemFSFacts MemFSNames MemFSShape.

Implicit Types (fs : fsys) (p : proc fsys).

Lemma set_cwd_back fs (d : list string) : set_cwd (set_cwd fs d) (cwd fs) = fs.
Proof. destruct fs; reflexivity. Qed.

(** *** Paths *)

Lemma split_slash_cons (s : string) : exists x xs, split_slash s = x :: xs.
Proof.
  induction s as [|c s (x & xs & IH)]; [simpl; eauto|].
  simpl. destruct (Ascii.eqb c "/"); [eauto|]. rewrite IH. eauto.
Qed.

Lemma split_slash_app (a b : string) :
  split_slash (a +:+ String "/" b) = split_slash a ++ split_slash b.
Proof.
  induction a as [|c a IH]; [reflexivity|].
  change (String c a +:+ String "/" b) with (String c (a +:+ String "/" b)).
  cbn [split_slash]. rewrite IH.
  destruct (Ascii.eqb c "/"); [reflexivity|].
  destruct (split_slash_cons a) as (x & xs & ->). reflexivity.
Qed.

Lemma split_slash_name (c : string) : has_slash c = false -> split_slash c = [c].
Proof.
  induction c as [|x c IH]; [reflexivity|]. cbn [has_slash split_slash].
  intros Hc. apply orb_false_iff in Hc. destruct Hc as [-> Hc].
  rewrite (IH Hc). reflexivity.
Qed.

Lemma is_name_spec (c : string) :
  is_name c = true
  <-> String.eqb c "" = false /\ has_slash c = false /\ is_dot c = false.
Proof.
  unfold is_name. rewrite !andb_true_iff, !negb_true_iff. tauto.
Qed.

Lemma components_name (c : string) : is_name c = true -> components c = [c].
Proof.
  intros Hc. apply is_name_spec in Hc. destruct Hc as (Hne & Hs & _).
  unfold components. rewrite (split_slash_name c Hs). cbn [List.filter].
  rewrite Hne. reflexivity.
Qed.

(** The path of an entry has the components of the directory, then the
    name. *)
Lemma components_full_path (dirname c : string) :
  is_name c = true ->
  components (full_path dirname c) = components dirname ++ [c].
Proof.
  intros Hc. unfold full_path.
  change ("/" +:+ c) with (String "/" c).
  unfold components at 1. rewrite split_slash_app, List.filter_app.
  fold (components dirname). fold (components c).
  rewrite (components_name c Hc). reflexivity.
Qed.

Lemma is_absolute_name (c : string) : is_name c = true -> is_absolute c = false.
Proof.
  intros Hc. apply is_name_spec in Hc. destruct Hc as (_ & Hs & _).
  destruct c as [|x c]; [reflexivity|]. cbn [has_slash] in Hs.
  apply orb_false_iff in Hs. exact (proj1 Hs).
Qed.

Lemma is_absolute_full_path (dirname c : string) :
  String.eqb dirname "" = false ->
  is_absolute (full_path dirname c) = is_absolute dirname.
Proof. destruct dirname; [discriminate|reflexivity]. Qed.

Lemma full_path_not_empty (dirname c : string) :
  String.eqb (full_path dirname c) "" = false.
Proof. destruct dirname; reflexivity. Qed.

Lemma ends_slash_name (x : ascii) (c : string) :
  has_slash (String x c) = false -> ends_slash (String x c) = false.
Proof.
  revert x. induction c as [|y c IH]; intros x Hs.
  - cbn [has_slash] in Hs. apply orb_false_iff in Hs. exact (proj1 Hs).
  - cbn [has_slash] in Hs. apply orb_false_iff in Hs.
    change (ends_slash (String x (String y c))) with (ends_slash (String y c)).
    apply IH. exact (proj2 Hs).
Qed.

Lemma ends_slash_app (a : string) (x : ascii) (c : string) :
  ends_slash (a +:+ String x c) = ends_slash (String x c).
Proof.
  induction a as [|y a IH]; [reflexivity|].
  change (String y a +:+ String x c) with (String y (a +:+ String x c)).
  destruct a as [|z a]; exact IH.
Qed.

Lemma ends_slash_full_path (dirname c : string) :
  is_name c = true -> ends_slash (full_path dirname c) = false.
Proof.
  intros Hc. apply is_name_spec in Hc. destruct Hc as (Hne & Hs & _).
  destruct c as [|x c]; [discriminate|].
  unfold full_path. change ("/" +:+ String x c) with (String "/" (String x c)).
  rewrite ends_slash_app.
  change (ends_slash (String "/" (String x c))) with (ends_slash (String x c)).
  apply ends_slash_name. exact Hs.
Qed.

Lemma tidy_well_named fs : tidy fs -> well_named fs.
Proof.
  assert (Hall : forall k, forallb is_name k = true -> plain_names k).
  { intros k Hk. apply Forall_forall. intros c Hc.
    rewrite forallb_forall in Hk. apply list_elem_of_In in Hc.
    apply Hk, is_name_spec in Hc. tauto. }
  intros [Hf Hcwd]. split; [|apply Hall; exact Hcwd].
  intros k n Hn. apply Hall. exact (Hf k n Hn).
Qed.

Lemma permitted_touched (who : cred) (m : meta) (t want : Z) :
  permitted who (Meta (m_perm m) (m_uid m) (m_gid m) t) want
  = permitted who m want.
Proof. reflexivity. Qed.

(** *** Creating, deleting, listing *)

(** X11: a file that [createFile] has made is removed by [deleteFile]
    under the same name: the second call succeeds too, and the tree is
    then as it was before the two, except that the directory that held the
    file has the time of the calls as its modification time. *)
Theorem createFile_then_deleteFile fs (name : string) fs1 p :
  world p = fs ->
  fopen_wx fs name = inr fs1 ->
  let q := deleteFile name (createFile name p) in
  cout q = cout p ++ ["File created: " +:+ name +:+ nl;
                      "Deleted: " +:+ name +:+ nl]
  /\ cerr q = cerr p
  /\ calls q = calls p ++ [Fopen name "wx"; Remove name]
  /\ cwd (world q) = cwd fs
  /\ exists d last dm,
       locate fs name = inr (Some (d, last))
       /\ (forall k, k <> d -> files (world q) !! k = files fs !! k)
       /\ node_at (files fs) d = Some (Dir dm)
       /\ node_at (files (world q)) d
          = Some (Dir (Meta (m_perm dm) (m_uid dm) (m_gid dm) (now fs))).
Proof.
  intros Hw Hcreate q.
  destruct (fopen_wx_inr fs name fs1 Hcreate)
    as (d & last & dm & Hloc & Hdot & Hslash & Hfree & Hdir & Hperm & Hfs1).
  set (f1 := touch d (now fs) (<[d ++ [last] := new_file fs dm]> (files fs)))
    in *.
  assert (Hkeeps : keeps (files fs) f1).
  { eapply keeps_trans; [|apply keeps_touch].
    apply keeps_insert_file. rewrite node_at_snoc. exact Hfree. }
  assert (Hnew : f1 !! (d ++ [last]) = Some (new_file fs dm)).
  { unfold f1. rewrite touch_lookup_ne by apply snoc_ne.
    apply lookup_insert_eq. }
  assert (Hdir1 : node_at f1 d
                  = Some (Dir (Meta (m_perm dm) (m_uid dm) (m_gid dm) (now fs)))).
  { unfold f1. apply touch_node_at.
    rewrite node_at_insert_ne by apply snoc_ne. exact Hdir. }
  assert (Hrm : remove fs1 name
                = inr (set_files fs1
                         (touch d (now fs) (delete (d ++ [last]) f1)))).
  { unfold remove. rewrite Hfs1 at 1.
    rewrite (locate_keeps fs f1 name _ Hkeeps Hloc).
    destruct (is_dot_false_split _ Hdot) as [-> ->].
    rewrite Hfs1. cbn [set_files files now].
    rewrite node_at_snoc, Hnew. unfold new_file at 1.
    cbn [dtype_of dtype_eqb negb andb]. rewrite Hslash, Hdir1.
    change (cred_of (set_files fs f1)) with (cred_of fs).
    rewrite permitted_touched, Hperm. cbn [negb].
    assert (Hown : may_unlink (cred_of fs)
                     (Meta (m_perm dm) (m_uid dm) (m_gid dm) (now fs))
                     (new_file fs dm) = true).
    { unfold may_unlink, new_file. cbn [meta_of m_uid cred_of c_uid].
      rewrite Z.eqb_refl. rewrite orb_true_r. reflexivity. }
    rewrite Hown. reflexivity. }
  assert (Hq : q = print_out ("Deleted: " +:+ name +:+ nl)
                 (set_world (set_files fs1
                               (touch d (now fs) (delete (d ++ [last]) f1)))
                    (call (Remove name)
                       (print_out ("File created: " +:+ name +:+ nl)
                          (set_world fs1 (call (Fopen name "wx") p)))))).
  { unfold q, createFile. cbn [call world sys_fopen_wx kernel].
    rewrite Hw, Hcreate. unfold deleteFile.
    cbn [call world set_world print_out sys_remove kernel]. rewrite Hrm.
    reflexivity. }
  rewrite Hq. cbn [print_out set_world call world cout cerr calls].
  split; [rewrite <- app_assoc; reflexivity|]. split; [reflexivity|].
  split; [rewrite <- app_assoc; reflexivity|].
  split; [rewrite Hfs1; reflexivity|].
  exists d, last, dm. split; [exact Hloc|]. cbn [set_files files]. split.
  - intros k Hk. rewrite touch_lookup_ne by exact Hk.
    destruct (decide (k = d ++ [last])) as [->|Hne].
    + rewrite lookup_delete_eq. symmetry. exact Hfree.
    + rewrite lookup_delete_ne by congruence. unfold f1.
      rewrite touch_lookup_ne by exact Hk.
      apply lookup_insert_ne. congruence.
  - split; [exact Hdir|].
    rewrite (touch_node_at d (now fs) _
               (Meta (m_perm dm) (m_uid dm) (m_gid dm) (now fs))).
    + reflexivity.
    + unfold node_at. rewrite lookup_delete_ne by apply snoc_ne. exact Hdir1.
Qed.

(** X12: how [deleteFile] answers for a name whose directory is reached
    and whose last component is neither ["."] nor [".."].  A name the
    directory does not hold is reported with [ENOENT]; an entry that is no
    directory, named with a final slash, with [ENOTDIR]; an entry of a
    directory that may not be written, with [EACCES]; in a writable
    directory with the sticky bit, an entry of another user, with [EPERM].
    In each of these cases nothing changes.  When the call removes an
    entry that is no directory, the name had no final slash, the entry is
    gone and the confirmation is printed; every other entry is as it was
    (the target of a link with it), but for the modification time of the
    directory that held the entry. *)
Theorem deleteFile_entry fs (name : string) (d : list string) (last : string) p :
  world p = fs ->
  locate fs name = inr (Some (d, last)) ->
  is_dot last = false ->
  let q := deleteFile name p in
  let failed (e : errno) :=
    remove fs name = inl e
    /\ world q = fs /\ cout q = cout p
    /\ cerr q = cerr p ++ ["remove failed: " +:+ strerror e +:+ nl] in
  (files fs !! (d ++ [last]) = None -> failed ENOENT)
  /\ (forall n,
        files fs !! (d ++ [last]) = Some n -> dtype_of n <> DT_DIR ->
        ends_slash name = true -> failed ENOTDIR)
  /\ (forall n dm,
        files fs !! (d ++ [last]) = Some n ->
        dtype_of n = DT_DIR \/ ends_slash name = false ->
        node_at (files fs) d = Some (Dir dm) ->
        permitted (cred_of fs) dm 2 = false -> failed EACCES)
  /\ (forall n dm,
        files fs !! (d ++ [last]) = Some n ->
        dtype_of n = DT_DIR \/ ends_slash name = false ->
        node_at (files fs) d = Some (Dir dm) ->
        permitted (cred_of fs) dm 2 = true ->
        may_unlink (cred_of fs) dm n = false -> failed EPERM)
  /\ (forall n fs',
        files fs !! (d ++ [last]) = Some n -> dtype_of n <> DT_DIR ->
        remove fs name = inr fs' ->
        ends_slash name = false
        /\ world q = fs'
        /\ files fs' !! (d ++ [last]) = None
        /\ (forall k, k <> d ++ [last] -> k <> d ->
              files fs' !! k = files fs !! k)
        /\ (forall dm, node_at (files fs) d = Some (Dir dm) ->
              node_at (files fs') d
              = Some (Dir (Meta (m_perm dm) (m_uid dm) (m_gid dm) (now fs))))
        /\ cwd fs' = cwd fs
        /\ cout q = cout p ++ ["Deleted: " +:+ name +:+ nl]
        /\ cerr q = cerr p).
Proof.
  intros Hw Hloc Hdot q failed.
  assert (Hfail : forall e, remove fs name = inl e -> failed e).
  { intros e Hrm. split; [exact Hrm|].
    unfold q, deleteFile. cbn [call world sys_remove kernel].
    rewrite Hw, Hrm. cbn. rewrite Hw. auto. }
  destruct (is_dot_false_split _ Hdot) as [Hd1 Hd2].
  assert (Hkind : forall n, dtype_of n = DT_DIR \/ ends_slash name = false ->
            negb (dtype_eqb (dtype_of n) DT_DIR) && ends_slash name = false).
  { intros n [Hty| ->]; [|apply andb_false_r].
    rewrite Hty. reflexivity. }
  split; [|split; [|split; [|split]]].
  - intros Hn. apply Hfail. unfold remove.
    rewrite Hloc, Hd1, Hd2, node_at_snoc, Hn. reflexivity.
  - intros n Hn Hty Hslash. apply Hfail. unfold remove.
    rewrite Hloc, Hd1, Hd2, node_at_snoc, Hn, Hslash.
    destruct n; try reflexivity. destruct Hty; reflexivity.
  - intros n dm Hn Hk Hdir Hperm. apply Hfail. unfold remove.
    rewrite Hloc, Hd1, Hd2, node_at_snoc, Hn, (Hkind n Hk), Hdir, Hperm.
    reflexivity.
  - intros n dm Hn Hk Hdir Hperm Hst. apply Hfail. unfold remove.
    rewrite Hloc, Hd1, Hd2, node_at_snoc, Hn, (Hkind n Hk), Hdir, Hperm, Hst.
    reflexivity.
  - intros n fs' Hn Hty Hrm.
    destruct (remove_inr fs name fs' Hrm)
      as (d' & last' & n' & dm & Hloc' & _ & Hn' & Hk & _ & Hdir & _ & _
          & Hfs').
    rewrite Hloc in Hloc'. injection Hloc' as <- <-.
    rewrite Hn in Hn'. injection Hn' as <-.
    split; [destruct Hk as [Hk|Hk]; [destruct (Hty Hk)|exact Hk]|].
    assert (Hq : q = print_out ("Deleted: " +:+ name +:+ nl)
                       (set_world fs' (call (Remove name) p))).
    { unfold q, deleteFile. cbn [call world sys_remove kernel].
      rewrite Hw, Hrm. reflexivity. }
    split; [rewrite Hq; reflexivity|]. split.
    { rewrite Hfs'. cbn [set_files files].
      rewrite touch_lookup_ne by apply snoc_ne. apply lookup_delete_eq. }
    split.
    { intros k Hk1 Hk2. rewrite Hfs'. cbn [set_files files].
      rewrite touch_lookup_ne by exact Hk2.
      apply lookup_delete_ne. congruence. }
    split.
    { intros dm' Hdir'. rewrite Hfs'. cbn [set_files files].
      apply touch_node_at. unfold node_at.
      rewrite lookup_delete_ne by apply snoc_ne. exact Hdir'. }
    split; [rewrite Hfs'; reflexivity|].
    split; rewrite Hq; reflexivity.
Qed.

Lemma listing_of_tree fs (path : string) (dir : list dirent) p :
  world p = fs -> well_named fs -> opendir fs path = inr dir ->
  exists d names,
    resolve_dir fs path = inr d
    /\ cout (listFiles path false p)
       = cout p ++ (nl +:+ "Contents of " +:+ path +:+ ":" +:+ nl)
                   :: List.map name_line names
    /\ (forall name, In name names <-> is_Some (files fs !! (d ++ [name])))
    /\ List.NoDup names
    /\ StronglySorted string_lt names.
Proof.
  intros Hw Hwf Hopen.
  destruct (opendir_entries fs path dir Hwf Hopen) as (d & Hres & Hnd & Hnames).
  destruct (listFiles_plain_opened path dir p)
    as (names & Hout & _ & _ & Hin & _ & Hstrict).
  { rewrite Hw. exact Hopen. }
  exists d, names. split; [exact Hres|]. split; [exact Hout|].
  split; [|exact (Hstrict Hnd)].
  intros name. rewrite Hin, <- Hnames, List.in_map_iff. split.
  - intros (Hentry & Hd1 & Hd2). split; [destruct Hentry as (e & ? & ?); eauto|].
    destruct (is_dot name) eqn:Hdot; [|reflexivity].
    apply is_dot_spec in Hdot. tauto.
  - intros [(e & Hname & Hentry) Hdot]. split; [eauto|].
    split; intros ->; discriminate.
Qed.

(** X13: a file [createFile] has made shows in the next listing of its
    directory: when the creation has succeeded and the directory opens,
    the names listed are those the directory held before and the new one,
    each once, in ascending order. *)
Theorem createFile_then_listFiles fs (name path : string) fs1
    (d : list string) (last : string) (dir1 : list dirent) p :
  world p = fs ->
  well_named fs ->
  fopen_wx fs name = inr fs1 ->
  locate fs name = inr (Some (d, last)) ->
  opendir fs1 path = inr dir1 ->
  resolve_dir fs1 path = inr d ->
  exists names,
    cout (listFiles path false (createFile name p))
    = cout p ++ ("File created: " +:+ name +:+ nl)
                :: (nl +:+ "Contents of " +:+ path +:+ ":" +:+ nl)
                :: List.map name_line names
    /\ cerr (listFiles path false (createFile name p)) = cerr p
    /\ (forall c, In c names
                  <-> c = last \/ is_Some (files fs !! (d ++ [c])))
    /\ List.NoDup names
    /\ StronglySorted string_lt names.
Proof.
  intros Hw Hwf Hcreate Hloc Hopen1 Hres1.
  destruct (fopen_wx_inr fs name fs1 Hcreate)
    as (d' & last' & dm & Hloc' & _ & _ & _ & _ & _ & Hfs1).
  assert (d' = d /\ last' = last) as [-> ->]
    by (rewrite Hloc in Hloc'; injection Hloc' as <- <-; auto).
  pose proof (fopen_wx_well_named fs fs1 name Hwf Hcreate) as Hwf1.
  set (p1 := createFile name p).
  assert (Hp1 : world p1 = fs1
                /\ cout p1 = cout p ++ ["File created: " +:+ name +:+ nl]
                /\ cerr p1 = cerr p).
  { unfold p1, createFile. cbn [call world sys_fopen_wx kernel].
    rewrite Hw, Hcreate. cbn. auto. }
  destruct Hp1 as (Hw1 & Hout1 & Herr1).
  destruct (listing_of_tree _ path dir1 p1 Hw1 Hwf1 Hopen1)
    as (d1 & names & Hres & Hout & Hin & Hnd & Hsorted).
  assert (d1 = d) as -> by congruence.
  exists names. split; [rewrite Hout, Hout1, <- app_assoc; reflexivity|].
  split.
  { destruct (listFiles_plain_opened path dir1 p1) as (? & _ & Herr & _).
    - rewrite Hw1. exact Hopen1.
    - rewrite Herr. exact Herr1. }
  split; [|split; assumption].
  intros c. rewrite Hin, Hfs1. cbn [set_files files].
  rewrite touch_lookup_ne by apply snoc_ne.
  destruct (decide (c = last)) as [->|Hne].
  - rewrite lookup_insert_eq. split; [auto|eauto].
  - rewrite lookup_insert_ne
      by (intros Heq; apply app_inj_tail in Heq; destruct Heq; congruence).
    split; [auto|]. intros [Hc|Hc]; [contradiction|exact Hc].
Qed.

(** X14: an entry [deleteFile] has removed is gone from the next listing
    of its directory: when the removal has succeeded and the directory
    opens, the names listed are those it held before, less the one
    removed. *)
Theorem deleteFile_then_listFiles fs (name path : string) fs1
    (d : list string) (last : string) (dir1 : list dirent) p :
  world p = fs ->
  well_named fs ->
  remove fs name = inr fs1 ->
  locate fs name = inr (Some (d, last)) ->
  opendir fs1 path = inr dir1 ->
  resolve_dir fs1 path = inr d ->
  exists names,
    cout (listFiles path false (deleteFile name p))
    = cout p ++ ("Deleted: " +:+ name +:+ nl)
                :: (nl +:+ "Contents of " +:+ path +:+ ":" +:+ nl)
                :: List.map name_line names
    /\ cerr (listFiles path false (deleteFile name p)) = cerr p
    /\ (forall c, In c names
                  <-> c <> last /\ is_Some (files fs !! (d ++ [c])))
    /\ List.NoDup names
    /\ StronglySorted string_lt names.
Proof.
  intros Hw Hwf Hrm Hloc Hopen1 Hres1.
  destruct (remove_inr fs name fs1 Hrm)
    as (d' & last' & n & dm & Hloc' & _ & _ & _ & _ & _ & _ & _ & Hfs1).
  assert (d' = d /\ last' = last) as [-> ->]
    by (rewrite Hloc in Hloc'; injection Hloc' as <- <-; auto).
  pose proof (remove_well_named fs fs1 name Hwf Hrm) as Hwf1.
  set (p1 := deleteFile name p).
  assert (Hp1 : world p1 = fs1
                /\ cout p1 = cout p ++ ["Deleted: " +:+ name +:+ nl]
                /\ cerr p1 = cerr p).
  { unfold p1, deleteFile. cbn [call world sys_remove kernel].
    rewrite Hw, Hrm. cbn. auto. }
  destruct Hp1 as (Hw1 & Hout1 & Herr1).
  destruct (listing_of_tree _ path dir1 p1 Hw1 Hwf1 Hopen1)
    as (d1 & names & Hres & Hout & Hin & Hnd & Hsorted).
  assert (d1 = d) as -> by congruence.
  exists names. split; [rewrite Hout, Hout1, <- app_assoc; reflexivity|].
  split.
  { destruct (listFiles_plain_opened path dir1 p1) as (? & _ & Herr & _).
    - rewrite Hw1. exact Hopen1.
    - rewrite Herr. exact Herr1. }
  split; [|split; assumption].
  intros c. rewrite Hin, Hfs1. cbn [set_files files].
  rewrite touch_lookup_ne by apply snoc_ne.
  destruct (decide (c = last)) as [->|Hne].
  - rewrite lookup_delete_eq. split; [intros [? ?]; discriminate|].
    intros [Hc _]. contradiction.
  - rewrite lookup_delete_ne
      by (intros Heq; apply app_inj_tail in Heq; destruct Heq; congruence).
    tauto.
Qed.

(** *** Changing directory *)

(** X15: [changeDirectory] into an entry of the working directory that
    is a directory, when it succeeds, is undone by [changeDirectory] to
    [".."]: that call succeeds too, the system is as it was, and nothing
    is reported as an error. *)
Theorem changeDirectory_there_and_back fs (sub : string) (m m0 : meta) fs1 p :
  world p = fs ->
  is_name sub = true ->
  node_at (files fs) (cwd fs) = Some (Dir m0) ->
  files fs !! (cwd fs ++ [sub]) = Some (Dir m) ->
  chdir fs sub = inr fs1 ->
  let q1 := changeDirectory sub p in
  let q2 := changeDirectory ".." q1 in
  world q1 = fs1
  /\ cwd fs1 = cwd fs ++ [sub]
  /\ files fs1 = files fs
  /\ world q2 = fs
  /\ cerr q2 = cerr p
  /\ calls q2 = calls p ++ [Chdir sub; Getcwd 512; Chdir ".."; Getcwd 512].
Proof.
  intros Hw Hname Hcwd Hsub Hin q1 q2.
  assert (Hdot : is_dot sub = false) by (apply is_name_spec in Hname; tauto).
  assert (Hne : String.eqb sub "" = false)
    by (apply is_name_spec in Hname; tauto).
  destruct (is_dot_false_split _ Hdot) as [Hd1 Hd2].
  destruct (chdir_inr fs sub fs1 Hin) as (d & Hres & Hsearch & Hfs1).
  assert (Hd : d = cwd fs ++ [sub]
               /\ searchable (cred_of fs) (files fs) (cwd fs) = true).
  { revert Hres. unfold resolve_dir, start.
    rewrite Hne, (is_absolute_name sub Hname), (components_name sub Hname).
    destruct (path_too_long sub); [discriminate|].
    rewrite walk_cons.
    destruct (searchable (cred_of fs) (files fs) (cwd fs)); [|discriminate].
    cbn [negb]. destruct (name_too_long sub); [discriminate|].
    rewrite Hd1, Hd2, node_at_snoc, Hsub, walk_nil, node_at_snoc, Hsub.
    intros [= <-]. auto. }
  destruct Hd as [-> Hsearch0].
  assert (Hout : chdir fs1 ".." = inr fs).
  { rewrite Hfs1. unfold chdir, resolve_dir, start.
    cbn [set_cwd files cwd].
    change (cred_of (set_cwd fs (cwd fs ++ [sub]))) with (cred_of fs).
    change (String.eqb ".." "") with false.
    change (path_too_long "..") with false.
    change (is_absolute "..") with false.
    change (components "..") with [".."].
    cbv iota. rewrite walk_cons, Hsearch. cbn [negb].
    change (name_too_long "..") with false.
    change (String.eqb ".." ".") with false.
    change (String.eqb ".." "..") with true. cbv iota.
    rewrite walk_nil, removelast_last, Hcwd, Hsearch0.
    f_equal. apply set_cwd_back. }
  assert (Hq1 : world q1 = fs1
                /\ cerr q1 = cerr p
                /\ calls q1 = calls p ++ [Chdir sub; Getcwd 512]).
  { unfold q1, changeDirectory. cbn [call world sys_chdir kernel].
    rewrite Hw, Hin. cbn [call world set_world print_out cerr calls].
    rewrite <- app_assoc. auto. }
  destruct Hq1 as (Hw1 & Herr1 & Hcalls1).
  split; [exact Hw1|]. split; [rewrite Hfs1; reflexivity|].
  split; [rewrite Hfs1; reflexivity|].
  unfold q2, changeDirectory. cbn [call world sys_chdir kernel].
  rewrite Hw1, Hout. cbn [call world set_world print_out cerr calls].
  rewrite Hcalls1, Herr1, <- !app_assoc. auto.
Qed.

End MemFSLaws.

(** ** The search over a [MemFS] tree *)

Module MemFSSearch.

Import MemFS MemFSFacts MemFSNames MemFSShape MemFSLaws.

Implicit Types (fs : fsys) (p : proc fsys).

Lemma tidy_entry fs (d : list string) (c : string) (n : node) :
  tidy fs -> files fs !! (d ++ [c]) = Some n -> is_name c = true.
Proof.
  intros [Hf _] Hn. apply Hf in Hn. rewrite forallb_app in Hn.
  apply andb_true_iff in Hn. destruct Hn as [_ Hn]. cbn [forallb] in Hn.
  rewrite andb_true_r in Hn. exact Hn.
Qed.

(** What [opendir] yields for a directory that opens. *)
Lemma opendir_listing fs (path : string) (dir : list dirent) :
  opendir fs path = inr dir ->
  exists d,
    resolve_dir fs path = inr d
    /\ dir = Dirent "." DT_DIR :: Dirent ".." DT_DIR
             :: List.map (fun c => Dirent (fst c) (dtype_of (snd c)))
                  (children (files fs) d).
Proof.
  unfold opendir.
  destruct (resolve_dir fs path) as [e|d]; [discriminate|].
  destruct (node_at (files fs) d) as [[?|?|m]|]; try discriminate.
  destruct (permitted (cred_of fs) m 4); [|discriminate]. intros [= <-].
  exists d. auto.
Qed.

(** An entry [opendir] yields, other than ["."] and [".."], is a file of
    the tree one component below the directory, with its type as hint. *)
Lemma opendir_child fs (path : string) (dir : list dirent) (entry : dirent) :
  opendir fs path = inr dir -> In entry dir -> is_dot (d_name entry) = false ->
  exists d n,
    resolve_dir fs path = inr d
    /\ files fs !! (d ++ [d_name entry]) = Some n
    /\ d_type entry = dtype_of n.
Proof.
  intros Hopen Hin Hdot.
  destruct (opendir_listing fs path dir Hopen) as (d & Hres & ->).
  destruct Hin as [<-|[<-|Hin]]; try discriminate.
  apply List.in_map_iff in Hin. destruct Hin as ([c n] & <- & Hin).
  apply children_spec in Hin. exists d, n. auto.
Qed.

(** A file of the tree is an entry [opendir] yields. *)
Lemma opendir_has_child fs (path : string) (dir : list dirent)
    (d : list string) (c : string) (n : node) :
  opendir fs path = inr dir -> resolve_dir fs path = inr d ->
  files fs !! (d ++ [c]) = Some n ->
  In (Dirent c (dtype_of n)) dir.
Proof.
  intros Hopen Hres Hn.
  destruct (opendir_listing fs path dir Hopen) as (d' & Hres' & ->).
  assert (d' = d) as -> by congruence.
  right. right. apply List.in_map_iff. exists (c, n).
  split; [reflexivity|]. apply children_spec. exact Hn.
Qed.

Lemma resolve_dir_walk fs (path : string) (d : list string) :
  resolve_dir fs path = inr d ->
  String.eqb path "" = false
  /\ walk MAXSYMLINKS (cred_of fs) (files fs) (start fs path) (components path)
     = inr d.
Proof.
  unfold resolve_dir. destruct (String.eqb path ""); [discriminate|].
  destruct (path_too_long path); [discriminate|].
  destruct (walk MAXSYMLINKS (cred_of fs) (files fs) (start fs path)
              (components path)) as [e|d']; [discriminate|].
  destruct (node_at (files fs) d') as [[?|?|?]|]; try discriminate.
  intros [= ->]. auto.
Qed.

(** The path the search builds for a directory entry leads to that
    entry, when it leads anywhere. *)
Lemma full_path_resolve_dir fs (dirname c : string) (d k : list string)
    (m : meta) :
  is_name c = true ->
  resolve_dir fs dirname = inr d ->
  files fs !! (d ++ [c]) = Some (Dir m) ->
  resolve_dir fs (full_path dirname c) = inr k ->
  k = d ++ [c].
Proof.
  intros Hc Hres Hdir. apply resolve_dir_walk in Hres.
  destruct Hres as [Hne Hwalk].
  assert (Hdot : is_dot c = false) by (apply is_name_spec in Hc; tauto).
  unfold resolve_dir, start in *.
  rewrite full_path_not_empty, (is_absolute_full_path _ _ Hne).
  destruct (path_too_long (full_path dirname c)); [discriminate|].
  rewrite (components_full_path _ _ Hc).
  rewrite (walk_snoc_dir _ _ _ c m d _ _ Hdot Hdir Hwalk).
  destruct (negb (searchable (cred_of fs) (files fs) d)); [discriminate|].
  destruct (name_too_long c); [discriminate|].
  rewrite node_at_snoc, Hdir. intros [= <-]. reflexivity.
Qed.

(** The directories the search descends into are the directories of the
    tree, one component further down each time. *)
Lemma subdir_resolves fs (dirname q : string) :
  tidy fs -> subdir fs dirname q ->
  exists d c m,
    resolve_dir fs dirname = inr d
    /\ files fs !! (d ++ [c]) = Some (Dir m)
    /\ forall k, resolve_dir fs q = inr k -> k = d ++ [c].
Proof.
  intros Htidy (dir & entry & Hopen & Hin & Hdot & Hty & ->).
  destruct (opendir_child fs dirname dir entry Hopen Hin Hdot)
    as (d & n & Hres & Hn & Hhint).
  rewrite Hty in Hhint. destruct n as [?|?|m]; try discriminate.
  exists d, (d_name entry), m. split; [exact Hres|]. split; [exact Hn|].
  intros k. apply (full_path_resolve_dir fs _ _ d k m); auto.
  exact (tidy_entry fs d _ _ Htidy Hn).
Qed.

(** *** The height of a tree *)

Lemma below_le_depth (f : gmap (list string) node) (d k : list string)
    (n : node) :
  f !! k = Some n -> (below d k <= depth_below f d)%nat.
Proof.
  intros Hn. unfold depth_below.
  assert (Hall := proj1 (list_max_le
                    (List.map (fun kn => below d (fst kn)) (map_to_list f))
                    _) (Nat.le_refl _)).
  rewrite List.Forall_forall in Hall. apply Hall.
  apply List.in_map_iff. exists (k, n). split; [reflexivity|].
  apply list_elem_of_In, elem_of_map_to_list. exact Hn.
Qed.

Lemma depth_below_child (f : gmap (list string) node) (d : list string)
    (c : string) (n : node) :
  f !! (d ++ [c]) = Some n ->
  (depth_below f (d ++ [c]) < depth_below f d)%nat.
Proof.
  intros Hn.
  assert (Hone : (1 <= depth_below f d)%nat).
  { pose proof (below_le_depth f d _ n Hn) as Hle. unfold below in Hle.
    destruct (decide (d `prefix_of` d ++ [c])) as [_|Hno].
    - rewrite length_app in Hle. cbn [length] in Hle. lia.
    - destruct Hno. exists [c]. reflexivity. }
  enough (depth_below f (d ++ [c]) <= depth_below f d - 1)%nat by lia.
  unfold depth_below at 1. apply list_max_le, List.Forall_forall.
  intros x Hx. apply List.in_map_iff in Hx. destruct Hx as ([k v] & <- & Hk).
  apply list_elem_of_In, elem_of_map_to_list in Hk. cbn [fst].
  pose proof (below_le_depth f d k v Hk) as Hle. unfold below in *.
  destruct (decide (d ++ [c] `prefix_of` k)) as [[t ->]|_]; [|lia].
  destruct (decide (d `prefix_of` (d ++ [c]) ++ t)) as [_|Hno].
  - rewrite !length_app in *. cbn [length] in *. lia.
  - destruct Hno. exists ([c] ++ t). rewrite app_assoc. reflexivity.
Qed.

Lemma subdir_rank fs (dirname q : string) :
  tidy fs -> subdir fs dirname q -> (rank fs q < rank fs dirname)%nat.
Proof.
  intros Htidy Hsub.
  destruct (subdir_resolves fs dirname q Htidy Hsub)
    as (d & c & m & Hres & Hdir & Hq).
  pose proof (depth_below_child _ d c _ Hdir) as Hlt.
  unfold rank. rewrite Hres.
  destruct (resolve_dir fs q) as [e|k]; [lia|].
  rewrite (Hq k eq_refl). exact Hlt.
Qed.

(** The directories of a tree are well founded: a tree is finite, and a
    symbolic link is listed as a link, not as a directory. *)
Lemma subdir_well_founded fs (path : string) :
  tidy fs -> Acc (fun q d => subdir fs d q) path.
Proof.
  intros Htidy.
  apply (Acc_incl _ (fun q d => subdir fs d q) (ltof _ (rank fs))).
  - intros q d Hsub. exact (subdir_rank fs d q Htidy Hsub).
  - apply well_founded_ltof.
Qed.

(** X16: over a file tree the search always returns, whatever the
    directory it starts from and whatever links the tree holds (links
    that form a cycle too): some depth of recursion is enough and any
    larger one gives the same result.  It changes nothing and writes
    nothing to the error stream. *)
Theorem searchFile_terminates_on_tree fs (dirname target : string) p :
  world p = fs ->
  tidy fs ->
  exists fuel p',
    searchFile fuel dirname target p = Some p'
    /\ (forall more, searchFile (fuel + more) dirname target p = Some p')
    /\ world p' = fs
    /\ cerr p' = cerr p.
Proof.
  intros Hw Htidy.
  destruct (searchFile_terminates_from fs dirname target
              (subdir_well_founded fs dirname Htidy)) as [fuel Hfuel].
  destruct (Hfuel p Hw) as [p' Hp'].
  exists fuel, p'. split; [exact Hp'|].
  split; [intros more; apply (searchFile_mono fuel); [lia|exact Hp']|].
  destruct (searchFile_effect fs fuel dirname target) as [r Hr].
  destruct (effect_frame _ _ _ _ _ Hr Hw Hp') as (Hw' & Herr & _).
  split; congruence.
Qed.

Lemma string_app_empty (s : string) : s +:+ "" = s.
Proof.
  induction s as [|c s IH]; [reflexivity|].
  change (String c s +:+ "") with (String c (s +:+ "")). rewrite IH.
  reflexivity.
Qed.

Lemma hit_in_tree fs (target dirname full : string) :
  hit fs target dirname full ->
  exists q d n rest,
    full = full_path q target
    /\ q = dirname +:+ rest
    /\ resolve_dir fs q = inr d
    /\ files fs !! (d ++ [target]) = Some n
    /\ dtype_of n <> DT_DIR.
Proof.
  intros Hhit.
  induction Hhit as [dn dir entry Hopen Hin Hdot Hty Hname
                    |dn dir entry full Hopen Hin Hdot Hty Hsub IH].
  - destruct (opendir_child fs dn dir entry Hopen Hin Hdot)
      as (d & n & Hres & Hn & Hhint).
    rewrite Hname in *.
    exists dn, d, n, "". split; [reflexivity|].
    split; [symmetry; apply string_app_empty|]. split; [exact Hres|].
    split; [exact Hn|congruence].
  - destruct IH as (q & d & n & rest & Hfull & Hq & Hres & Hn & Hnd).
    exists q, d, n, (("/" +:+ d_name entry) +:+ rest).
    split; [exact Hfull|]. split; [|auto].
    rewrite Hq. unfold full_path. apply string_app_assoc.
Qed.

(** X17: what the search reports is in the tree.  Every path it prints
    is that of a directory the search has opened, which lies at or below
    the directory searched, followed by a slash and the target; that
    directory holds an entry called like the target which is not a
    directory (a regular file, or a symbolic link, which is reported and
    never followed). *)
Theorem searchFile_reports_entries_of_tree fs (fuel : nat)
    (dirname target : string) p p' :
  world p = fs ->
  searchFile fuel dirname target p = Some p' ->
  exists fulls,
    cout p' = cout p ++ List.map found_line fulls
    /\ forall full, In full fulls ->
         exists q d n rest,
           full = full_path q target
           /\ q = dirname +:+ rest
           /\ resolve_dir fs q = inr d
           /\ files fs !! (d ++ [target]) = Some n
           /\ dtype_of n <> DT_DIR.
Proof.
  intros Hw Hrun.
  destruct (searchFile_hits fuel dirname target p p' Hrun)
    as (fulls & Hout & Hfulls).
  exists fulls. split; [exact Hout|].
  intros full Hin. apply Hfulls in Hin. rewrite Hw in Hin.
  exact (hit_in_tree fs target dirname full Hin).
Qed.

(** An entry of the tree below directories that open is a match of the
    search from above. *)
Lemma tree_hit fs (target : string) (n : node) (cs : list string) :
  well_named fs -> dtype_of n <> DT_DIR ->
  forall (dirname : string) (d : list string),
    opened_along fs dirname d cs ->
    files fs !! ((d ++ cs) ++ [target]) = Some n ->
    hit fs target dirname (full_path (fold_left full_path cs dirname) target).
Proof.
  intros [Hnames _] Hty.
  assert (Hplain : forall k c n0, files fs !! (k ++ [c]) = Some n0 ->
                     is_dot c = false).
  { intros k c n0 Hk. apply Hnames in Hk. apply Forall_app in Hk.
    destruct Hk as [_ Hk]. inversion Hk; assumption. }
  induction cs as [|c cs IH]; intros dirname d Hchain Hn.
  - rewrite app_nil_r in Hn. cbn [fold_left].
    destruct Hchain as ([dir Hopen] & Hres & _).
    eapply (hit_here fs target dirname _ (Dirent target (dtype_of n))).
    + exact Hopen.
    + exact (opendir_has_child fs dirname dir d target n Hopen Hres Hn).
    + exact (Hplain _ _ _ Hn).
    + exact Hty.
    + reflexivity.
  - destruct Hchain as ([dir Hopen] & Hres & [m Hsub] & Hrest).
    cbn [fold_left].
    eapply (hit_below fs target dirname _ (Dirent c DT_DIR)).
    + exact Hopen.
    + exact (opendir_has_child fs dirname dir d c (Dir m) Hopen Hres Hsub).
    + exact (Hplain _ _ _ Hsub).
    + reflexivity.
    + apply (IH _ (d ++ [c])); [exact Hrest|].
      replace ((d ++ [c]) ++ cs) with (d ++ c :: cs); [exact Hn|].
      rewrite <- app_assoc. reflexivity.
Qed.

(** X19: the search misses nothing it can reach.  When the directory
    searched opens, and so do, one after the other, the directories of
    the tree along the names [cs] below it, an entry of the last of them
    that is called like the target and is not a directory is reported,
    under the path made of the directory searched, those names and its
    own. *)
Theorem searchFile_finds_entries_of_tree fs (fuel : nat)
    (dirname target : string) (d cs : list string) (n : node) p p' :
  world p = fs ->
  well_named fs ->
  opened_along fs dirname d cs ->
  files fs !! ((d ++ cs) ++ [target]) = Some n ->
  dtype_of n <> DT_DIR ->
  searchFile fuel dirname target p = Some p' ->
  In (found_line (full_path (fold_left full_path cs dirname) target))
     (cout p').
Proof.
  intros Hw Hwf Hchain Hn Hty Hrun.
  destruct (searchFile_hits fuel dirname target p p' Hrun)
    as (fulls & Hout & Hfulls).
  rewrite Hout. apply List.in_or_app. right. apply List.in_map.
  apply Hfulls. rewrite Hw.
  exact (tree_hit fs target n cs Hwf Hty dirname d Hchain Hn).
Qed.

End MemFSSearch.

(** ** The calls keep a tree tidy *)

Module MemFSTidy.

Import MemFS MemFSFacts MemFSNames MemFSShape MemFSLaws.

Implicit Types (fs : fsys).

Lemma names_removelast (k : list string) :
  forallb is_name k = true -> forallb is_name (removelast k) = true.
Proof.
  induction k as [|c k IH]; [auto|]. cbn [forallb]. intros Hk.
  apply andb_true_iff in Hk. destruct Hk as [Hc Hk].
  destruct k as [|c' k]; [reflexivity|].
  change (removelast (c :: c' :: k)) with (c :: removelast (c' :: k)).
  cbn [forallb]. rewrite Hc. exact (IH Hk).
Qed.

Lemma names_snoc (d : list string) (c : string) :
  forallb is_name d = true -> is_name c = true ->
  forallb is_name (d ++ [c]) = true.
Proof.
  intros Hd Hc. rewrite forallb_app, Hd. cbn [forallb]. rewrite Hc. reflexivity.
Qed.

Lemma walk_names (links : nat) (who : cred) (f : gmap (list string) node)
    (cur todo d : list string) :
  map_Forall (fun k _ => forallb is_name k = true) f ->
  forallb is_name cur = true ->
  walk links who f cur todo = inr d ->
  forallb is_name d = true.
Proof.
  intros Hf. revert cur todo.
  induction links as [|links IHlinks]; intros cur todo; revert cur;
    induction todo as [|c rest IHtodo]; intros cur Hcur;
    rewrite ?walk_nil, ?walk_cons; try (intros [= <-]; exact Hcur).
  all: destruct (negb (searchable who f cur)); [discriminate|].
  all: destruct (name_too_long c); [discriminate|].
  all: destruct (String.eqb c "."); [apply IHtodo; exact Hcur|].
  all: destruct (String.eqb c "..");
    [apply IHtodo, names_removelast; exact Hcur|].
  all: rewrite node_at_snoc.
  all: destruct (f !! (cur ++ [c])) as [[m data|m target|m]|] eqn:Hn;
    try discriminate; try (apply IHtodo; exact (Hf _ _ Hn)).
  destruct (String.eqb target ""); [discriminate|].
  apply IHlinks. destruct (is_absolute target); [reflexivity|exact Hcur].
Qed.

Lemma split_slash_free (s : string) :
  Forall (fun c => has_slash c = false) (split_slash s).
Proof.
  induction s as [|x s IH]; [repeat constructor|]. cbn [split_slash].
  destruct (Ascii.eqb x "/") eqn:Hx; [constructor; [reflexivity|exact IH]|].
  destruct (split_slash s) as [|c cs]; [repeat constructor; cbn; now rewrite Hx|].
  inversion IH; subst. constructor; [|assumption].
  cbn [has_slash]. rewrite Hx. assumption.
Qed.

(** A component of a path, when it is neither ["."] nor [".."], can be
    the name of an entry. *)
Lemma components_names (path c : string) :
  In c (components path) -> is_dot c = false -> is_name c = true.
Proof.
  unfold components. intros Hin Hdot. apply List.filter_In in Hin.
  destruct Hin as [Hin Hne]. apply is_name_spec.
  split; [apply negb_true_iff; exact Hne|]. split; [|exact Hdot].
  pose proof (split_slash_free path) as Hall.
  rewrite List.Forall_forall in Hall. exact (Hall _ Hin).
Qed.

Lemma locate_names fs (name : string) (d : list string) (last : string) :
  tidy fs -> locate fs name = inr (Some (d, last)) ->
  forallb is_name d = true
  /\ (is_dot last = false -> is_name last = true).
Proof.
  intros [Hf Hcwd] Hloc.
  destruct (locate_components fs name d last Hloc)
    as (_ & _ & init & Hcomp & Hwalk & _). split.
  - eapply walk_names; [exact Hf| |exact Hwalk].
    unfold start. destruct (is_absolute name); [reflexivity|exact Hcwd].
  - apply (components_names name). rewrite Hcomp. apply in_or_app.
    right. left. reflexivity.
Qed.

Lemma touch_tidy (d : list string) (t : Z) (f : gmap (list string) node) :
  forallb is_name d = true ->
  map_Forall (fun k _ => forallb is_name k = true) f ->
  map_Forall (fun k _ => forallb is_name k = true) (touch d t f).
Proof.
  intros Hd Hf. unfold touch.
  destruct (node_at f d) as [[?|?|m]|]; try exact Hf.
  apply map_Forall_insert_2; [exact Hd|exact Hf].
Qed.

Lemma fopen_wx_tidy fs fs' (name : string) :
  tidy fs -> fopen_wx fs name = inr fs' -> tidy fs'.
Proof.
  intros Htidy Hcall.
  destruct (fopen_wx_inr fs name fs' Hcall)
    as (d & last & dm & Hloc & Hdot & _ & _ & _ & _ & ->).
  destruct (locate_names fs name d last Htidy Hloc) as [Hd Hlast].
  destruct Htidy as [Hf Hcwd]. split; [|exact Hcwd].
  cbn [set_files files]. apply touch_tidy; [exact Hd|].
  apply map_Forall_insert_2; [|exact Hf].
  apply names_snoc; [exact Hd|exact (Hlast Hdot)].
Qed.

Lemma remove_tidy fs fs' (name : string) :
  tidy fs -> remove fs name = inr fs' -> tidy fs'.
Proof.
  intros Htidy Hcall.
  destruct (remove_inr fs name fs' Hcall)
    as (d & last & n & dm & Hloc & _ & _ & _ & _ & _ & _ & _ & ->).
  destruct (locate_names fs name d last Htidy Hloc) as [Hd _].
  destruct Htidy as [Hf Hcwd]. split; [|exact Hcwd].
  cbn [set_files files]. apply touch_tidy; [exact Hd|].
  apply map_Forall_delete. exact Hf.
Qed.

Lemma chdir_tidy fs fs' (path : string) :
  tidy fs -> chdir fs path = inr fs' -> tidy fs'.
Proof.
  intros [Hf Hcwd] Hcall.
  destruct (chdir_inr fs path fs' Hcall) as (d & Hres & _ & ->).
  split; [exact Hf|]. cbn [set_cwd cwd].
  revert Hres. unfold resolve_dir, start.
  destruct (String.eqb path ""); [discriminate|].
  destruct (path_too_long path); [discriminate|].
  destruct (walk MAXSYMLINKS (cred_of fs) (files fs) _ (components path))
    as [e|d'] eqn:Hwalk; [discriminate|].
  destruct (node_at (files fs) d') as [[?|?|?]|]; try discriminate.
  intros [= <-]. eapply walk_names; [exact Hf| |exact Hwalk].
  destruct (is_absolute path); [reflexivity|exact Hcwd].
Qed.

End MemFSTidy.

(** ** [main] over a [MemFS] tree *)

Section WorldFacts.

Context {W : Type} `{Kernel W}.

Implicit Types (p : proc W).

(** A listing changes nothing. *)
Lemma listFiles_world (path : string) (detailed : bool) p :
  world (listFiles path detailed p) = world p.
Proof.
  unfold listFiles. cbn [call world].
  destruct (sys_opendir (world p) path) as [e|dir]; [reflexivity|].
  destruct detailed.
  - rewrite detailed_rows. reflexivity.
  - rewrite print_names. reflexivity.
Qed.

End WorldFacts.

Module MemFSMain.

Import MemFS MemFSFacts MemFSNames MemFSShape MemFSLaws MemFSSearch MemFSTidy.

Implicit Types (fs : fsys) (p : proc fsys) (cin : Cin.istream).

Lemma createFile_tidy (name : string) p :
  tidy (world p) -> tidy (world (createFile name p)).
Proof.
  intros Ht. unfold createFile. cbn [call world sys_fopen_wx kernel].
  destruct (fopen_wx (world p) name) as [e|fs'] eqn:Hcall.
  - destruct (errno_eqb e EEXIST); exact Ht.
  - exact (fopen_wx_tidy _ _ name Ht Hcall).
Qed.

Lemma deleteFile_tidy (name : string) p :
  tidy (world p) -> tidy (world (deleteFile name p)).
Proof.
  intros Ht. unfold deleteFile. cbn [call world sys_remove kernel].
  destruct (remove (world p) name) as [e|fs'] eqn:Hcall; [exact Ht|].
  exact (remove_tidy _ _ name Ht Hcall).
Qed.

Lemma changeDirectory_tidy (path : string) p :
  tidy (world p) -> tidy (world (changeDirectory path p)).
Proof.
  intros Ht. unfold changeDirectory. cbn [call world sys_chdir kernel].
  destruct (chdir (world p) path) as [e|fs'] eqn:Hcall; [exact Ht|].
  exact (chdir_tidy _ _ path Ht Hcall).
Qed.

Lemma listFiles_tidy (path : string) (detailed : bool) p :
  tidy (world p) -> tidy (world (listFiles path detailed p)).
Proof. rewrite listFiles_world. auto. Qed.

(** X18: over a file tree [main] never hangs in a search.  Whatever the
    input and however many turns the menu takes, a search started with
    choice 6 returns to the menu: some bound on the depth of recursion is
    enough for every search of the run, and a larger bound changes
    nothing.  The trees the commands leave behind are file trees again, so
    this holds after any sequence of creations, deletions and changes of
    directory. *)
Theorem main_returns_from_every_search (turns : nat) cin p :
  tidy (world p) ->
  exists depth,
    (forall more, main turns (depth + more) cin p = main turns depth cin p)
    /\ main turns depth cin p <> Searching.
Proof.
  unfold main. intros Hp.
  assert (Ht : tidy (world (banner p))) by exact Hp.
  revert Ht. generalize (banner p). clear p Hp. revert cin.
  induction turns as [|turns IH]; intros cin p Ht.
  { exists O. split; [reflexivity|discriminate]. }
  cbn [menu_loop].
  destruct (Cin.read_int cin) as [[choice|] cin1] eqn:Hread;
    [|apply IH; exact Ht].
  destruct choice as [|c|c]; [apply IH; exact Ht| |apply IH; exact Ht].
  destruct c as [c|c|];
    [destruct c as [c|c|]; [destruct c|destruct c|]
    |destruct c as [c|c|]; [destruct c|destruct c|]
    |];
    try (apply IH;
         first [apply listFiles_tidy; exact Ht
               |apply createFile_tidy; exact Ht
               |apply deleteFile_tidy; exact Ht
               |apply changeDirectory_tidy; exact Ht
               |exact Ht]).
  - exists O. split; [reflexivity|discriminate].
  - set (q := print_out _ (print_out _ (prompt p))).
    set (dirname := cwd_buffer _). set (r := Cin.read_word cin1 "").
    assert (Hq : world q = world p) by reflexivity.
    destruct (searchFile_terminates_from (world p) dirname (fst r)
                (subdir_well_founded _ dirname Ht)) as [fuel Hfuel].
    destruct (Hfuel q Hq) as [q' Hq'].
    assert (Ht' : tidy (world q')).
    { destruct (searchFile_effect (world p) fuel dirname (fst r)) as [x Hx].
      destruct (effect_frame _ _ _ _ _ Hx Hq Hq') as (Hw' & _).
      rewrite Hw', Hq. exact Ht. }
    destruct (IH (snd r) q' Ht') as (depth & Hmore & Hret).
    assert (Hrun : forall more,
               match searchFile (Nat.max fuel depth + more) dirname (fst r) q with
               | Some p' => menu_loop turns (Nat.max fuel depth + more) (snd r) p'
               | None => Searching
               end = menu_loop turns depth (snd r) q').
    { intros more.
      rewrite (searchFile_mono fuel (Nat.max fuel depth + more) dirname (fst r) q q'
                 ltac:(lia) Hq').
      replace (Nat.max fuel depth + more)%nat
        with (depth + (Nat.max fuel depth + more - depth))%nat by lia.
      apply Hmore. }
    exists (Nat.max fuel depth). split.
    + intros more. rewrite Hrun. specialize (Hrun O).
      rewrite Nat.add_0_r in Hrun. rewrite Hrun. reflexivity.
    + specialize (Hrun O). rewrite Nat.add_0_r in Hrun. rewrite Hrun.
      exact Hret.
Qed.

End MemFSMain.

(** ** The further theorems at work on the sample systems *)

Module WitnessesMore.

Import MemFS MemFSShape Examples.

Lemma sample_tidy (l : list (list string * node)) (wd : list string) :
  forallb (fun kn => forallb is_name (fst kn)) l = true ->
  forallb is_name wd = true ->
  tidy (mkfs l wd).
Proof.
  intros Hl Hwd. split; [|exact Hwd]. unfold mkfs. cbn [files].
  induction l as [|[k n] l IH]; [apply map_Forall_empty|].
  cbn [forallb fst] in Hl. apply andb_true_iff in Hl. destruct Hl as [Hk Hl].
  cbn [list_to_map foldr]. apply map_Forall_insert_2; [exact Hk|exact (IH Hl)].
Qed.

Lemma home_tidy : tidy home.
Proof. apply sample_tidy; reflexivity. Qed.

Lemma maze_tidy : tidy maze.
Proof. apply sample_tidy; reflexivity. Qed.

Lemma home_names : well_named home.
Proof. exact (MemFSLaws.tidy_well_named home home_tidy). Qed.

Lemma home_lists : sys_opendir home "." = inr home_entries.
Proof. vm_compute. reflexivity. Qed.

(** After a listing, the input [7] ends the program. *)
Lemma main_exits_only_by_choice_7_witness :
  exists cin' p' (n : nat) cin0 q,
    main 2 0 (Cin.Istream ("1" +:+ nl +:+ "7" +:+ nl) false false) (boot home)
    = Exited 0 cin' p'
    /\ (n < 2)%nat
    /\ main n 0 (Cin.Istream ("1" +:+ nl +:+ "7" +:+ nl) false false)
         (boot home)
       = Running cin0 q
    /\ Cin.read_int cin0 = (Some 7, cin')
    /\ p' = print_out ("Goodbye!" +:+ nl) (prompt q).
Proof.
  destruct (main 2 0 (Cin.Istream ("1" +:+ nl +:+ "7" +:+ nl) false false)
              (boot home))
    as [status cin' p'|cin' p'|] eqn:Hrun;
    [|vm_compute in Hrun; discriminate..].
  destruct (main_exits_only_by_choice_7 _ _ _ _ _ _ _ Hrun)
    as (-> & n & cin0 & q & Hn & Hmid & Hread & Hlast).
  exists cin', p', n, cin0, q. auto.
Defined.

(** With no input at all, three turns are three failed reads. *)
Lemma main_spins_at_end_of_input_witness :
  exists cin' p',
    main 3 0 (Cin.Istream "" false false) (boot home) = Running cin' p'
    /\ world p' = home /\ cerr p' = []
    /\ calls p' = repeat (Getcwd 512) 3
    /\ cout p'
       = cout (banner (boot home))
         ++ concat (repeat (menu_lines "/home" ++ ["Invalid input" +:+ nl]) 3).
Proof.
  pose proof (main_spins_at_end_of_input 3 0 (Cin.Istream "" false false)
                (boot home) eq_refl) as Hspin.
  cbv zeta in Hspin. destruct Hspin as [_ (cin' & p' & Hrun & Hw & He & Hc & Ho)].
  exists cin', p'. split; [exact Hrun|]. split; [exact Hw|].
  split; [exact He|]. split; [exact Hc|].
  assert (Hcwd : cwd_buffer (boot home) = "/home") by (vm_compute; reflexivity).
  rewrite Ho, Hcwd. reflexivity.
Defined.

(** The line [xyz] is dropped; the [7] after it is read next. *)
Lemma menu_loop_discards_bad_line_witness :
  menu_loop 2 0 (Cin.Istream (String "x" "yz" +:+ nl +:+ "7") false false)
    (boot home)
  = menu_loop 1 0 (Cin.Istream "7" false false)
      (print_out ("Invalid input" +:+ nl) (prompt (boot home))).
Proof.
  assert (Hline : ~ In "010"%char (list_ascii_of_string (String "x" "yz"))).
  { intros [H|[H|[H|[]]]]; discriminate. }
  refine (proj1 (menu_loop_discards_bad_line 1 0 "x" "yz" "7" (boot home)
                   eq_refl eq_refl _ _ Hline _)).
  - discriminate.
  - discriminate.
  - reflexivity.
Defined.

Lemma new_txt_is_word : Cin.is_word "new.txt".
Proof.
  split; [discriminate|]. intros ch Hin. cbn in Hin.
  repeat (destruct Hin as [<-|Hin]; [reflexivity|]). destruct Hin.
Qed.

Lemma blanks_all_space : Cin.all_space ("  " +:+ nl +:+ " ").
Proof.
  intros ch Hin. cbn in Hin.
  repeat (destruct Hin as [<-|Hin]; [reflexivity|]). destruct Hin.
Qed.

(** [3], blanks and a line feed, then [new.txt]: the file is created. *)
Lemma menu_loop_runs_command_witness :
  menu_loop 1 0
    (Cin.Istream
       (String "3" (("  " +:+ nl +:+ " ") +:+ "new.txt" +:+ String "010" ""))
       false false)
    (boot home)
  = menu_loop 0 0 (Cin.Istream (String "010" "") false false)
      (createFile "new.txt"
         (print_out "Enter filename to create: " (prompt (boot home)))).
Proof.
  assert (Htail : Cin.no_digit_first nl) by reflexivity.
  assert (Hfirst : Cin.no_digit_first (("  " +:+ nl +:+ " ") +:+ "new.txt"))
    by reflexivity.
  pose proof (menu_loop_runs_command 0 0 nl ("  " +:+ nl +:+ " ") "new.txt"
                "010" "" (boot home) Htail blanks_all_space new_txt_is_word
                Hfirst eq_refl) as Hrun.
  cbv zeta in Hrun. destruct Hrun as (_ & _ & Hcreate & _). exact Hcreate.
Defined.

(** [3] as the last of the input creates the file of the empty name, which
    fails. *)
Lemma menu_loop_runs_without_argument_witness :
  exists cin',
    menu_loop 1 0 (Cin.Istream (String "3" "") false false) (boot home)
    = Running cin'
        (createFile ""
           (print_out "Enter filename to create: " (prompt (boot home))))
    /\ Cin.failbit cin' = true.
Proof.
  pose proof (menu_loop_runs_without_argument 0 "" (boot home) eq_refl) as Hrun.
  cbv zeta in Hrun. destruct Hrun as (Hcreate & _). exact Hcreate.
Defined.

(** The detailed listing of [home] calls [lstat] on its five names. *)
Lemma listFiles_detailed_rows_witness :
  calls (listFiles "." true (boot home))
  = Opendir "."
    :: List.map (fun n => Lstat ("." +:+ "/" +:+ n)) (listed_names home_entries)
  /\ cerr (listFiles "." true (boot home))
     = omap (error_of home ".") (listed_names home_entries).
Proof.
  pose proof (listFiles_detailed_rows "." home_entries (boot home) home_lists)
    as Hrows.
  cbv zeta in Hrows. destruct Hrows as (_ & Hcalls & _ & Herr & _).
  split; [exact Hcalls|exact Herr].
Defined.

(** The row of [notes.txt] in [home]. *)
Lemma showFileDetails_row_columns_witness :
  exists row,
    cout (showFileDetails "." "notes.txt" (boot home)) = [row]
    /\ String.length row = 69%nat
    /\ substring 0 10 row = "-rw-r--r--"
    /\ substring 12 4 row = "user"
    /\ substring 59 9 row = "notes.txt".
Proof.
  assert (Hstat : sys_lstat home ("." +:+ "/" +:+ "notes.txt")
                  = inr (stat_of (Reg file_meta "hello")))
    by (vm_compute; reflexivity).
  destruct (proj2 (showFileDetails_row_columns "." "notes.txt" (boot home))
              _ Hstat) as (row & Hout & _ & Hlen & Hcols).
  exists row. split; [exact Hout|]. split; [exact Hlen|].
  destruct Hcols as (Hperms & Howner & _ & _ & _ & Hname);
    try (vm_compute; lia).
  split; [exact Hperms|]. split; [exact Howner|exact Hname].
Defined.

Lemma new_txt_located : locate home "new.txt" = inr (Some (["home"], "new.txt")).
Proof. vm_compute. reflexivity. Qed.

Lemma new_txt_free : files home !! (["home"] ++ ["new.txt"]) = None.
Proof. vm_compute. reflexivity. Qed.

Lemma home_resolves : resolve_dir home "." = inr ["home"].
Proof. vm_compute. reflexivity. Qed.

Lemma new_txt_created :
  exists fs1, fopen_wx home "new.txt" = inr fs1.
Proof.
  destruct (fopen_wx home "new.txt") as [e|fs1] eqn:Hcall;
    [vm_compute in Hcall; discriminate|].
  eauto.
Qed.

(** [new.txt] is created in [home] and deleted again. *)
Lemma createFile_then_deleteFile_witness :
  cout (deleteFile "new.txt" (createFile "new.txt" (boot home)))
  = ["File created: " +:+ "new.txt" +:+ nl; "Deleted: " +:+ "new.txt" +:+ nl]
  /\ cerr (deleteFile "new.txt" (createFile "new.txt" (boot home))) = []
  /\ forall k, k <> ["home"] ->
       files (world (deleteFile "new.txt" (createFile "new.txt" (boot home))))
         !! k
       = files home !! k.
Proof.
  destruct new_txt_created as [fs1 Hcall].
  pose proof (MemFSLaws.createFile_then_deleteFile home "new.txt" fs1
                (boot home) eq_refl Hcall) as Hrun.
  cbv zeta in Hrun.
  destruct Hrun as (Hout & Herr & _ & _ & d & last & dm & Hloc & Hsame & _).
  rewrite new_txt_located in Hloc. injection Hloc as <- <-.
  split; [exact Hout|]. split; [exact Herr|exact Hsame].
Defined.

(** [nothing] is not in [home]; the link [shortcut] is removed, and
    [docs], which it points to, stays. *)
Lemma deleteFile_entry_witness :
  cerr (deleteFile "nothing" (boot home))
  = ["remove failed: " +:+ strerror ENOENT +:+ nl]
  /\ files (world (deleteFile "shortcut" (boot home)))
       !! (["home"] ++ ["shortcut"]) = None
  /\ files (world (deleteFile "shortcut" (boot home))) !! ["home"; "docs"]
     = files home !! ["home"; "docs"]
  /\ cout (deleteFile "shortcut" (boot home))
     = ["Deleted: " +:+ "shortcut" +:+ nl].
Proof.
  assert (Hnone : locate home "nothing" = inr (Some (["home"], "nothing")))
    by (vm_compute; reflexivity).
  assert (Hloc : locate home "shortcut" = inr (Some (["home"], "shortcut")))
    by (vm_compute; reflexivity).
  assert (Hlink : files home !! (["home"] ++ ["shortcut"])
                  = Some (Lnk (Meta 511 1000 1000 0) "docs"))
    by (vm_compute; reflexivity).
  pose (fs1 := match remove home "shortcut" with
               | inr fs' => fs'
               | inl _ => home
               end).
  assert (Hcall : remove home "shortcut" = inr fs1)
    by (vm_compute; reflexivity).
  clearbody fs1.
  pose proof (MemFSLaws.deleteFile_entry home "nothing" ["home"] "nothing"
                (boot home) eq_refl Hnone eq_refl) as Hno.
  pose proof (MemFSLaws.deleteFile_entry home "shortcut" ["home"] "shortcut"
                (boot home) eq_refl Hloc eq_refl) as Hrun.
  cbv zeta in Hno, Hrun.
  destruct Hno as [Hno _]. destruct Hrun as (_ & _ & _ & _ & Hrun).
  destruct Hno as (_ & _ & _ & Herr); [vm_compute; reflexivity|].
  destruct (Hrun _ fs1 Hlink ltac:(discriminate) Hcall)
    as (_ & Hworld & Hgone & Hrest & _ & _ & Hout & _).
  split; [exact Herr|]. rewrite Hworld.
  split; [exact Hgone|]. split; [|exact Hout].
  apply Hrest; discriminate.
Defined.

(** [new.txt] shows in the listing of [home] after it was created. *)
Lemma createFile_then_listFiles_witness :
  exists names,
    cout (listFiles "." false (createFile "new.txt" (boot home)))
    = ("File created: " +:+ "new.txt" +:+ nl)
      :: (nl +:+ "Contents of " +:+ "." +:+ ":" +:+ nl)
      :: List.map name_line names
    /\ (forall c, In c names
                  <-> c = "new.txt" \/ is_Some (files home !! (["home"] ++ [c]))).
Proof.
  pose (fs1 := match fopen_wx home "new.txt" with
               | inr fs' => fs'
               | inl _ => home
               end).
  assert (Hcall : fopen_wx home "new.txt" = inr fs1)
    by (vm_compute; reflexivity).
  assert (Hres1 : resolve_dir fs1 "." = inr ["home"])
    by (vm_compute; reflexivity).
  destruct (opendir fs1 ".") as [e|dir1] eqn:Hopen1;
    [vm_compute in Hopen1; discriminate|].
  clearbody fs1.
  destruct (MemFSLaws.createFile_then_listFiles home "new.txt" "." fs1
              ["home"] "new.txt" dir1 (boot home) eq_refl home_names Hcall
              new_txt_located Hopen1 Hres1) as (names & Hout & _ & Hin & _).
  exists names. split; [exact Hout|exact Hin].
Defined.

(** [notes.txt] is gone from the listing of [home] after it was deleted. *)
Lemma deleteFile_then_listFiles_witness :
  exists names,
    cout (listFiles "." false (deleteFile "notes.txt" (boot home)))
    = ("Deleted: " +:+ "notes.txt" +:+ nl)
      :: (nl +:+ "Contents of " +:+ "." +:+ ":" +:+ nl)
      :: List.map name_line names
    /\ (forall c, In c names
                  <-> c <> "notes.txt"
                      /\ is_Some (files home !! (["home"] ++ [c]))).
Proof.
  pose (fs1 := match remove home "notes.txt" with
               | inr fs' => fs'
               | inl _ => home
               end).
  assert (Hcall : remove home "notes.txt" = inr fs1)
    by (vm_compute; reflexivity).
  assert (Hloc : locate home "notes.txt" = inr (Some (["home"], "notes.txt")))
    by (vm_compute; reflexivity).
  assert (Hres1 : resolve_dir fs1 "." = inr ["home"])
    by (vm_compute; reflexivity).
  destruct (opendir fs1 ".") as [e|dir1] eqn:Hopen1;
    [vm_compute in Hopen1; discriminate|].
  clearbody fs1.
  destruct (MemFSLaws.deleteFile_then_listFiles home "notes.txt" "." fs1
              ["home"] "notes.txt" dir1 (boot home) eq_refl home_names Hcall
              Hloc Hopen1 Hres1) as (names & Hout & _ & Hin & _).
  exists names. split; [exact Hout|exact Hin].
Defined.

(** Into [docs] and back to [home]. *)
Lemma changeDirectory_there_and_back_witness :
  cwd (world (changeDirectory "docs" (boot home))) = ["home"] ++ ["docs"]
  /\ world (changeDirectory ".." (changeDirectory "docs" (boot home))) = home.
Proof.
  assert (Hcwd : node_at (files home) (cwd home) = Some (Dir dir_meta))
    by (vm_compute; reflexivity).
  assert (Hdocs : files home !! (cwd home ++ ["docs"]) = Some (Dir dir_meta))
    by (vm_compute; reflexivity).
  destruct (chdir home "docs") as [e|fs1] eqn:Hin;
    [vm_compute in Hin; discriminate|].
  pose proof (MemFSLaws.changeDirectory_there_and_back home "docs" dir_meta
                dir_meta fs1 (boot home) eq_refl eq_refl Hcwd Hdocs Hin)
    as Hrun.
  cbv zeta in Hrun. destruct Hrun as (Hw1 & Hcwd1 & _ & Hback & _).
  split; [rewrite Hw1; exact Hcwd1|exact Hback].
Defined.

(** The search of [maze], whose links lead back up, comes to an end. *)
Lemma searchFile_terminates_on_tree_witness :
  exists fuel p',
    searchFile fuel "." "key" (boot maze) = Some p'
    /\ (forall more, searchFile (fuel + more) "." "key" (boot maze) = Some p')
    /\ world p' = maze
    /\ cerr p' = [].
Proof.
  exact (MemFSSearch.searchFile_terminates_on_tree maze "." "key" (boot maze)
           eq_refl maze_tidy).
Defined.

(** What the search of [maze] for [top] reports is the link of that
    name. *)
Lemma searchFile_reports_entries_of_tree_witness :
  exists p' fulls,
    searchFile 2 "." "top" (boot maze) = Some p'
    /\ cout p' = List.map found_line fulls
    /\ forall full, In full fulls ->
         exists q d n rest,
           full = full_path q "top"
           /\ q = "." +:+ rest
           /\ resolve_dir maze q = inr d
           /\ files maze !! (d ++ ["top"]) = Some n
           /\ dtype_of n <> DT_DIR.
Proof.
  destruct (searchFile 2 "." "top" (boot maze)) as [p'|] eqn:Hrun;
    [|vm_compute in Hrun; discriminate].
  destruct (MemFSSearch.searchFile_reports_entries_of_tree maze 2 "." "top"
              (boot maze) p' eq_refl Hrun) as (fulls & Hout & Hin).
  exists p', fulls. split; [reflexivity|]. split; [exact Hout|exact Hin].
Defined.

Lemma maze_opens : opened_along maze "." ["maze"] ["inner"].
Proof.
  split; [eexists; vm_compute; reflexivity|].
  split; [vm_compute; reflexivity|].
  split; [eexists; vm_compute; reflexivity|].
  split; [eexists; vm_compute; reflexivity|].
  split; [vm_compute; reflexivity|exact I].
Qed.

(** [key] lies in [inner], one directory below the start. *)
Lemma searchFile_finds_entries_of_tree_witness :
  exists p',
    searchFile 2 "." "key" (boot maze) = Some p'
    /\ In (found_line "./inner/key") (cout p').
Proof.
  destruct (searchFile 2 "." "key" (boot maze)) as [p'|] eqn:Hrun;
    [|vm_compute in Hrun; discriminate].
  assert (Hkey : files maze !! ((["maze"] ++ ["inner"]) ++ ["key"])
                 = Some (Reg file_meta ""))
    by (vm_compute; reflexivity).
  exists p'. split; [reflexivity|].
  refine (MemFSSearch.searchFile_finds_entries_of_tree maze 2 "." "key"
            ["maze"] ["inner"] (Reg file_meta "") (boot maze) p' eq_refl
            (MemFSLaws.tidy_well_named maze maze_tidy) maze_opens Hkey _ Hrun).
  discriminate.
Defined.

(** A run over [maze] that searches, then leaves. *)
Lemma main_returns_from_every_search_witness :
  exists depth,
    (forall more,
       main 2 (depth + more)
         (Cin.Istream ("6 key" +:+ nl +:+ "7" +:+ nl) false false) (boot maze)
       = main 2 depth
           (Cin.Istream ("6 key" +:+ nl +:+ "7" +:+ nl) false false)
           (boot maze))
    /\ main 2 depth (Cin.Istream ("6 key" +:+ nl +:+ "7" +:+ nl) false false)
         (boot maze)
       <> Searching.
Proof.
  exact (MemFSMain.main_returns_from_every_search 2
           (Cin.Istream ("6 key" +:+ nl +:+ "7" +:+ nl) false false)
           (boot maze) maze_tidy).
Defined.

End WitnessesMore.
